(** * Web-aware RAG engine: ingestion ledger, retry policy and query pipeline

    A shallow embedding of the Python sources under [app/]:
    - [app/services/content_processor.py]  (text cleaning, token estimate)
    - [app/services/embeddings.py]         (retry wrapper, query embedding)
    - [app/services/vectorstore.py]        (point ids of upserted chunks)
    - [app/services/llm.py]                (answer generation)
    - [app/database.py], [app/models.py]   (job ledger)
    - [app/main.py]                        (submission, status and query
                                            endpoints)
    - [app/config.py]                      (database URL)
    - [app/utils/validators.py]            (status and text validators)

    Python [str] values are modelled by [string]; a character is a code
    point below 256.  Exceptions are modelled by explicit result types. *)

From Stdlib Require Import ZArith Ascii String List Lia Bool.
From stdpp Require Import base decidable option list strings pretty gmap fin_maps.

Local Open Scope string_scope.
Local Open Scope Z_scope.

(** ** Python string primitives *)

Module PyStr.

(** [str.isspace] on one character: TAB..CR, FS..US, SPACE, NEL, NBSP. *)
Definition isspace (c : ascii) : bool :=
  let n := nat_of_ascii c in
  ((9 <=? n) && (n <=? 13) || (28 <=? n) && (n <=? 32)
   || (n =? 133) || (n =? 160))%nat.

(** [s.split()] with no argument: the maximal runs of non-whitespace
    characters, in order; never yields an empty word. *)
Fixpoint split (s : string) : list string :=
  match s with
  | EmptyString => []
  | String c s' =>
      if isspace c then split s'
      else match s' with
           | EmptyString => [String c EmptyString]
           | String c' _ =>
               if isspace c' then String c EmptyString :: split s'
               else match split s' with
                    | w :: ws => String c w :: ws
                    | [] => [String c EmptyString]
                    end
           end
  end.

(** [sep.join(parts)] *)
Fixpoint join (sep : string) (parts : list string) : string :=
  match parts with
  | [] => EmptyString
  | [p] => p
  | p :: ps => p ++ sep ++ join sep ps
  end.

(** [s.lstrip()], [s.rstrip()], [s.strip()] *)
Fixpoint lstrip (s : string) : string :=
  match s with
  | EmptyString => EmptyString
  | String c s' => if isspace c then lstrip s' else s
  end.

Fixpoint rstrip (s : string) : string :=
  match s with
  | EmptyString => EmptyString
  | String c s' =>
      match rstrip s' with
      | EmptyString => if isspace c then EmptyString else String c EmptyString
      | r => String c r
      end
  end.

Definition strip (s : string) : string := rstrip (lstrip s).

(** [s.lower()] on code points below 256: A..Z and the Latin-1 capitals. *)
Definition lower_char (c : ascii) : ascii :=
  let n := nat_of_ascii c in
  if ((65 <=? n) && (n <=? 90)
      || (192 <=? n) && (n <=? 222) && negb (n =? 215))%nat
  then ascii_of_nat (n + 32) else c.

Fixpoint lower (s : string) : string :=
  match s with
  | EmptyString => EmptyString
  | String c s' => String (lower_char c) (lower s')
  end.

(** [s.upper()], likewise.  U+00B5 and U+00FF have capitals above 255
    and U+00DF upper-cases to the two letters SS; the three are left as
    they are, which makes no difference to a comparison with a word
    that has no double S. *)
Definition upper_char (c : ascii) : ascii :=
  let n := nat_of_ascii c in
  if ((97 <=? n) && (n <=? 122)
      || (224 <=? n) && (n <=? 254) && negb (n =? 247))%nat
  then ascii_of_nat (n - 32) else c.

Fixpoint upper (s : string) : string :=
  match s with
  | EmptyString => EmptyString
  | String c s' => String (upper_char c) (upper s')
  end.

Fixpoint startswith (p s : string) : bool :=
  match p, s with
  | EmptyString, _ => true
  | String a p', String b s' => if Ascii.eqb a b then startswith p' s' else false
  | String _ _, EmptyString => false
  end.

(** [needle in s] *)
Fixpoint contains (needle s : string) : bool :=
  startswith needle s ||
  match s with
  | EmptyString => false
  | String _ s' => contains needle s'
  end.

(** [len(s)] *)
Definition len (s : string) : Z := Z.of_nat (String.length s).

(** The characters of a string, and what makes a string a word: it is
    not empty and holds no whitespace. *)
Definition chars (s : string) : list ascii := list_ascii_of_string s.

Definition word (w : string) : Prop :=
  w <> EmptyString /\ Forall (fun c => isspace c = false) (chars w).

End PyStr.

(** ** Exceptions and call results *)

(** A raised exception: its class name and [str(exc)]. *)
Record exn : Type := Exn { exn_type : string; exn_str : string }.

(** Result of one invocation of a Python callable. *)
Inductive outcome (A : Type) : Type :=
| Returns (a : A)
| Raises (e : exn).
Arguments Returns {A} a.
Arguments Raises {A} e.

(** A finite binary64 value [mantissa * 2 ^ exponent]. *)
Record float : Type := Float { mantissa : Z; exponent : Z }.

(** ** Binary64 arithmetic *)

Module Binary64.

(** [m / 2 ^ k] rounded to the nearest integer, ties to the even one. *)
Definition round_to (k m : Z) : Z :=
  let q := m / 2 ^ k in
  let r := m mod 2 ^ k in
  if 2 * r <? 2 ^ k then q
  else if 2 ^ k <? 2 * r then q + 1
  else if Z.even q then q else q + 1.

(** The number of low bits a non-negative integer significand loses
    when it is brought to the 53 bits of a binary64 significand. *)
Definition drop_bits (m : Z) : Z := Z.max 0 (Z.log2 m + 1 - 53).

(** The binary64 value nearest to [m * 2 ^ e] for [0 <= m] (round to
    nearest, ties to even).  Exponents are not bounded: a word count is
    below 2^63, far from the overflow threshold. *)
Definition round (m e : Z) : float :=
  let k := drop_bits m in
  Float (round_to k m) (e + k).

(** [float(n)] for an [int] [0 <= n], as [int * float] converts it. *)
Definition of_int (n : Z) : float := round n 0.

(** [x * y] *)
Definition mul (x y : float) : float :=
  round (mantissa x * mantissa y) (exponent x + exponent y).

(** [int(x)] for [0 <= x]: the integral part. *)
Definition to_int (x : float) : Z :=
  if 0 <=? exponent x then mantissa x * 2 ^ exponent x
  else Z.quot (mantissa x) (2 ^ (- exponent x)).

(** The literal [1.3]: the binary64 value [0x3FF4CCCCCCCCCCCD]. *)
Definition lit_1_3 : float := Float 5854679515581645 (-52).

End Binary64.

(** ** Token estimate ([ContentProcessor.estimate_tokens]) *)

Module ContentProcessor.

(** [words = len(text.split())] *)
Definition word_count (text : string) : Z :=
  Z.of_nat (length (PyStr.split text)).

(** [int(words * 1.3)]: the binary64 product, truncated. *)
Definition estimate_tokens (text : string) : Z :=
  let words := word_count text in
  Binary64.to_int (Binary64.mul (Binary64.of_int words) Binary64.lit_1_3).

(** The nearest-integer reading of the estimate: [n] is an integer
    nearest to [num / den] when no integer lies closer. *)
Definition nearest_int (num den n : Z) : Prop :=
  forall m : Z, Z.abs (den * n - num) <= Z.abs (den * m - num).

(** *** HTML cleaning ([ContentProcessor.clean_html]) *)

(** The tree built by [BeautifulSoup(html, "lxml")]: text nodes, nodes
    that [get_text] skips (comments, doctype, ...), and elements with
    their lower-cased tag name.  The document object is the root
    element. *)
#[local] Unset Elimination Schemes.
Inductive node : Type :=
| Text (s : string)
| Comment (s : string)
| Element (tag : string) (children : list node).
#[local] Set Elimination Schemes.

Definition unwanted_tags : list string :=
  ["script"; "style"; "nav"; "footer"; "header"; "noscript"].

Definition has_tag (names : list string) (n : node) : bool :=
  match n with
  | Element t _ => bool_decide (t ∈ names)
  | _ => false
  end.

(** [for tag in soup(names): tag.decompose()]: every descendant element
    whose name is listed is removed together with its subtree. *)
Fixpoint decompose (names : list string) (n : node) : node :=
  match n with
  | Element t cs =>
      Element t
        (flat_map (fun c => if has_tag names c then [] else [decompose names c])
                  cs)
  | _ => n
  end.

(** [soup.find(name)], as used by [soup.body]: the first descendant
    element with that name, in document order. *)
Fixpoint find (name : string) (n : node) : option node :=
  match n with
  | Element _ cs =>
      (fix first_in (l : list node) : option node :=
         match l with
         | [] => None
         | c :: l' =>
             if has_tag [name] c then Some c
             else match find name c with
                  | Some r => Some r
                  | None => first_in l'
                  end
         end) cs
  | _ => None
  end.

(** The text nodes below [n], in document order. *)
Fixpoint all_strings (n : node) : list string :=
  match n with
  | Text s => [s]
  | Comment _ => []
  | Element _ cs => flat_map all_strings cs
  end.

(** [n.get_text(separator=sep)] *)
Definition get_text (sep : string) (n : node) : string :=
  PyStr.join sep (all_strings n).

(** [" ".join(body.split())] *)
Definition normalize_whitespace (body : string) : string :=
  PyStr.join " " (PyStr.split body).

(** [clean_html], given the parser. *)
Definition clean_html (parse : string -> node) (html : string) : string :=
  let soup := decompose unwanted_tags (parse html) in
  let body :=
    match find "body" soup with
    | Some b => get_text " " b
    | None => get_text " " soup
    end in
  normalize_whitespace body.

(** Tag names of [n] (if an element) and of all elements below it. *)
Fixpoint element_tags (n : node) : list string :=
  match n with
  | Element t cs => t :: flat_map element_tags cs
  | _ => []
  end.

(** Tag names of the elements strictly below [n]. *)
Definition descendant_tags (n : node) : list string :=
  match n with
  | Element _ cs => flat_map element_tags cs
  | _ => []
  end.

(** [shows names n s]: [s] is a text node at or below [n] that does not
    lie inside a descendant element named in [names]. *)
Inductive shows (names : list string) : node -> string -> Prop :=
| shows_text s : shows names (Text s) s
| shows_child t cs c s :
    c ∈ cs -> has_tag names c = false -> shows names c s ->
    shows names (Element t cs) s.

(** *** The visible text of a parsed page

    What the result is measured against: read off the parsed page
    itself, not off the steps [clean_html] takes. *)

(** The text nodes at or below [n], in document order, that do not lie
    inside a descendant element named in [names]. *)
Fixpoint shown (names : list string) (n : node) : list string :=
  match n with
  | Text s => [s]
  | Comment _ => []
  | Element _ cs =>
      flat_map (fun c => if has_tag names c then [] else shown names c) cs
  end.

(** The elements strictly below [n], in document order, that are
    neither named in [names] nor inside an element that is. *)
Fixpoint kept_elements (names : list string) (n : node) : list node :=
  match n with
  | Element _ cs =>
      flat_map (fun c =>
                  if has_tag names c then []
                  else match c with
                       | Element _ _ => c :: kept_elements names c
                       | _ => []
                       end) cs
  | _ => []
  end.

(** The body of a page: the first of those elements named [body]. *)
Definition body_of (names : list string) (n : node) : option node :=
  List.find (has_tag ["body"]) (kept_elements names n).

(** The words of the visible text: of the body when the page has one,
    of the whole page otherwise. *)
Definition visible_words (names : list string) (n : node) : list string :=
  flat_map PyStr.split (shown names (default n (body_of names n))).

(** The tree the lxml parser builds for
    [Hello <script>bad()</script> World]. *)
Definition hello_html : string := "Hello <script>bad()</script> World".

(** A page with a title, a style sheet, a page header and footer, a
    comment and mixed whitespace; and a fragment without a body. *)
Definition article_tree : node :=
  Element "[document]"
    [Element "html"
       [Element "head"
          [Element "title" [Text "Title"]; Element "style" [Text "p {}"]];
        Element "body"
          [Element "header" [Element "nav" [Text "Menu"]];
           Element "p"
             [Text ("Hello" ++ String (ascii_of_nat 10) "  ");
              Comment "note";
              Text (String (ascii_of_nat 9) "World ")];
           Element "footer" [Text "bye"]]]].

Definition fragment_tree : node :=
  Element "[document]" [Text " plain "; Element "b" [Text " text"]].

Definition hello_tree : node :=
  Element "[document]"
    [Element "html"
       [Element "body"
          [Element "p"
             [Text "Hello "; Element "script" [Text "bad()"]; Text " World"]]]].

(** Induction on trees, with the hypothesis for all children. *)
Fixpoint node_ind (P : node -> Prop)
    (Htext : forall s, P (Text s)) (Hcomment : forall s, P (Comment s))
    (Helement : forall t cs, Forall P cs -> P (Element t cs))
    (n : node) {struct n} : P n :=
  match n with
  | Text s => Htext s
  | Comment s => Hcomment s
  | Element t cs =>
      Helement t cs
        ((fix all (l : list node) : Forall P l :=
            match l with
            | [] => @List.Forall_nil _ P
            | c :: l' =>
                @List.Forall_cons _ P c l'
                  (node_ind P Htext Hcomment Helement c) (all l')
            end) cs)
  end.

End ContentProcessor.

(** ** Retry wrapper ([GeminiEmbeddings._with_retries]) *)

Module Embeddings.

(** What a run of the wrapper does: its outcome, how many times the
    wrapped callable was invoked, and the [time.sleep] arguments in
    order (seconds). *)
Record run (A : Type) : Type := mkRun {
  result : outcome A;
  calls : nat;
  slept : list Z
}.
Arguments mkRun {A} result calls slept.
Arguments result {A} r.
Arguments calls {A} r.
Arguments slept {A} r.

(** [is_rate_limit], computed from [error_str = str(exc).lower()] *)
Definition is_rate_limit (exc : exn) : bool :=
  let error_str := PyStr.lower (exn_str exc) in
  PyStr.contains "429" error_str
  || PyStr.contains "rate limit" error_str
  || PyStr.contains "quota exceeded" error_str
  || PyStr.contains "resource exhausted" error_str.

Section WithRetries.
Context {A : Type}.

(** The wrapped callable: [func k] is the outcome of its [k]-th
    invocation (counted from 0). *)
Variable func : nat -> outcome A.

(** One pass of the [while True] loop per unit of fuel.  [attempt]
    counts the failures so far, [backoff] is the next sleep. *)
Fixpoint with_retries_loop (fuel : nat) (attempt : nat) (backoff : Z)
    (ncalls : nat) (sleeps : list Z) : option (run A) :=
  match fuel with
  | O => None
  | S fuel' =>
      match func ncalls with
      | Returns a => Some (mkRun (Returns a) (S ncalls) sleeps)
      | Raises exc =>
          let attempt := S attempt in
          if is_rate_limit exc then
            if (5 <=? attempt)%nat
            then Some (mkRun (Raises exc) (S ncalls) sleeps)
            else with_retries_loop fuel' attempt (backoff * 2)
                   (S ncalls) (sleeps ++ [backoff])
          else
            if (3 <=? attempt)%nat
            then Some (mkRun (Raises exc) (S ncalls) sleeps)
            else with_retries_loop fuel' attempt (backoff * 2)
                   (S ncalls) (sleeps ++ [backoff])
      end
  end.

(** [attempt = 0; backoff = 1.0; while True: ...].  Five passes always
    suffice (see [with_retries_loop_total]). *)
Definition _with_retries : option (run A) :=
  with_retries_loop 5 0 1 0 [].

(** The policy in the words of the specification: after a failure the
    call is made again, at most [budget] more times in all, sleeping
    1, 2, 4, ... seconds in between; the last error is re-raised. *)
Fixpoint retried_up_to (budget : nat) (backoff : Z) (ncalls : nat)
    (sleeps : list Z) : run A :=
  match func ncalls with
  | Returns a => mkRun (Returns a) (S ncalls) sleeps
  | Raises exc =>
      match budget with
      | O => mkRun (Raises exc) (S ncalls) sleeps
      | S budget' =>
          retried_up_to budget' (backoff * 2) (S ncalls) (sleeps ++ [backoff])
      end
  end.

End WithRetries.

(** A callable that raises [exc] on its first [n] invocations and
    returns [a] afterwards. *)
Definition fails_then {A : Type} (n : nat) (exc : exn) (a : A)
    (k : nat) : outcome A :=
  if (k <? n)%nat then Raises exc else Returns a.

(** [embed_query]: the embedding service is called through
    [_with_retries]; its response is a dict and the answer is
    [resp.get("embedding", [])].  [embed_content k] is the outcome of the
    [k]-th request for the query text.  No length check is made here. *)
Definition embed_query
    (embed_content : nat -> outcome (gmap string (list float)))
    : option (outcome (list float)) :=
  match _with_retries embed_content with
  | None => None
  | Some r =>
      match result r with
      | Returns resp => Some (Returns (default [] (resp !! "embedding")))
      | Raises exc => Some (Raises exc)
      end
  end.

Definition rate_limited_429 : exn := Exn "Exception" "429 Too Many Requests".

(** Call [k] fails, with an error classified as [rate]. *)
Definition fails_with {A : Type} (rate : bool) (func : nat -> outcome A)
    (k : nat) : Prop :=
  exists exc, func k = Raises exc /\ is_rate_limit exc = rate.

(** The sleeps before a call that follows [n] failures: 1, 2, 4, ... *)
Definition backoffs (n : nat) : list Z :=
  (fun k => 2 ^ Z.of_nat k) <$> seq 0 n.

(** A response of the embedding service carrying a two-component
    vector, and one that carries no vector at all. *)
Definition short_embedding : gmap string (list float) :=
  {["embedding" := [Float 1 0; Float 1 1]]}.

End Embeddings.

(** ** Vector index ([QdrantStore.add_documents]) *)

Module VectorStore.

Record Payload : Type := mkPayload {
  p_text : string;
  p_source_url : option string;
  p_job_id : string;
  p_chunk_index : nat;
  p_ingested_at : string;
  p_title : option string
}.

Record PointStruct : Type := mkPoint {
  id : Z;
  vector : list float;
  payload : Payload
}.

(** The collection held by the index service: points keyed by id; an
    upsert replaces the point stored under an id already present. *)
Definition upsert (points : list PointStruct)
    (coll : gmap Z PointStruct) : gmap Z PointStruct :=
  foldl (fun c p => <[id p := p]> c) coll points.

Section AddDocuments.

(** The interpreter's builtin [hash] on [str].  Its value is fixed
    within one interpreter process; string hashes are salted with a
    per-process secret unless [PYTHONHASHSEED] pins it. *)
Variable hash : string -> Z.

(** [job_hash = hash(job_id) % 1000000; point_id = job_hash * 10000 + idx]
    ([%] with a positive modulus yields a value in [0, 1000000)). *)
Definition point_id (job_id : string) (idx : nat) : Z :=
  let job_hash := hash job_id mod 1000000 in
  job_hash * 10000 + Z.of_nat idx.

(** [metadata.get(key) if metadata else None] *)
Definition meta_get (metadata : option (gmap string string))
    (key : string) : option string :=
  match metadata with
  | Some m => m !! key
  | None => None
  end.

(** The [points] list built by the loop over
    [enumerate(zip(chunks, vectors))]. *)
Definition build_points (chunks : list string) (vectors : list (list float))
    (metadata : option (gmap string string)) (job_id : string)
    (ingested_at : string) : list PointStruct :=
  imap (fun idx cv =>
          mkPoint (point_id job_id idx) (snd cv)
            (mkPayload (fst cv) (meta_get metadata "source_url") job_id idx
               ingested_at (meta_get metadata "title")))
       (zip chunks vectors).

(** [add_documents]: build the points and upsert them.  [service] is
    the index service's answer to the upsert request: [Returns tt], or
    the exception the client raises, which is re-raised. *)
Definition add_documents (service : outcome unit)
    (coll : gmap Z PointStruct)
    (chunks : list string) (vectors : list (list float))
    (metadata : option (gmap string string)) (job_id : string)
    (ingested_at : string) : gmap Z PointStruct * outcome Z :=
  let points := build_points chunks vectors metadata job_id ingested_at in
  match service with
  | Returns _ => (upsert points coll, Returns (Z.of_nat (length points)))
  | Raises exc => (coll, Raises exc)
  end.

(** The ids written by one run. *)
Definition point_ids (chunks : list string) (vectors : list (list float))
    (metadata : option (gmap string string)) (job_id : string)
    (ingested_at : string) : list Z :=
  id <$> build_points chunks vectors metadata job_id ingested_at.

End AddDocuments.

End VectorStore.

(** ** Answer generator ([GeminiLLM.generate_answer]) *)

Module LLM.

Definition nl : string := String (ascii_of_nat 10) EmptyString.
Definition dq : string := String (ascii_of_nat 34) EmptyString.

(** A retrieved chunk as [QdrantStore.search] returns it: a dict whose
    entries may be [None]. *)
Record Chunk : Type := mkChunk {
  c_text : option string;
  c_source_url : option string;
  c_score : option float
}.

(** An optional string inside an f-string: [None] prints as [None]. *)
Definition fmt (o : option string) : string := default "None" o.

Definition format_chunk (pos : nat) (chunk : Chunk) : string :=
  "Source " +:+ pretty (S pos) +:+ " (" +:+ fmt (c_source_url chunk) +:+ "):"
    +:+ nl +:+ fmt (c_text chunk) +:+ nl.

Definition build_prompt (question : string) (context_chunks : list Chunk)
    : string :=
  let formatted_chunks := imap format_chunk context_chunks in
  let formatted_context :=
    PyStr.join (nl +:+ "---" +:+ nl) formatted_chunks in
  "You are a helpful AI assistant that answers questions based ONLY on the provided context."
  +:+ nl +:+ "INSTRUCTIONS:"
  +:+ nl +:+ "Read the context sources carefully"
  +:+ nl +:+ "Answer the question using ONLY information from the context"
  +:+ nl +:+ "If the context doesn't contain enough information, respond: "
  +:+ dq +:+ "I cannot answer this question based on the provided context." +:+ dq
  +:+ nl +:+ "Cite which source number(s) you used (e.g., "
  +:+ dq +:+ "According to Source 1..." +:+ dq +:+ ")"
  +:+ nl +:+ "Be concise but complete"
  +:+ nl +:+ "Do not add information not present in the context"
  +:+ nl +:+ "CONTEXT:"
  +:+ nl +:+ formatted_context
  +:+ nl +:+ "QUESTION: " +:+ question
  +:+ nl +:+ "ANSWER:".

(** A finish reason as the code inspects it: the integer it compares
    equal to (if any) and its [str()]. *)
Record FinishReason : Type := mkFinish {
  fr_int : option Z;
  fr_str : string
}.

(** [None] stands for an object without the attribute ([hasattr] false). *)
Record Candidate : Type := mkCandidate {
  finish_reason : option FinishReason
}.

(** Reading [response.text] through [getattr(response, "text", "")]:
    the attribute is absent, holds a string, or its accessor raises
    something other than [AttributeError]. *)
Inductive text_attr : Type :=
| TextMissing
| TextValue (s : string)
| TextRaises (e : exn).

Record Response : Type := mkResponse {
  candidates : option (list Candidate);
  text : text_attr
}.

Definition refusal : string :=
  "I cannot answer this question based on the provided context.".

(** [finish_reason == 2 or str(finish_reason).upper() == "SAFETY"] *)
Definition is_safety (fr : FinishReason) : bool :=
  bool_decide (fr_int fr = Some 2)
  || String.eqb (PyStr.upper (fr_str fr)) "SAFETY".

(** *** The finish reasons of the SDK

    [candidate.finish_reason] is a member of [Candidate.FinishReason],
    an integer enumeration declared by the [google.generativeai] SDK
    that [llm.py] imports; the SDK is not among the repository's
    sources.  These are its members up to [OTHER], with their values;
    the members added since have larger values. *)
Inductive SdkFinishReason : Type :=
| FINISH_REASON_UNSPECIFIED
| STOP
| MAX_TOKENS
| SAFETY
| RECITATION
| OTHER.

Definition sdk_value (r : SdkFinishReason) : Z :=
  match r with
  | FINISH_REASON_UNSPECIFIED => 0
  | STOP => 1
  | MAX_TOKENS => 2
  | SAFETY => 3
  | RECITATION => 4
  | OTHER => 5
  end.

Definition sdk_name (r : SdkFinishReason) : string :=
  match r with
  | FINISH_REASON_UNSPECIFIED => "FINISH_REASON_UNSPECIFIED"
  | STOP => "STOP"
  | MAX_TOKENS => "MAX_TOKENS"
  | SAFETY => "SAFETY"
  | RECITATION => "RECITATION"
  | OTHER => "OTHER"
  end.

(** [str()] of a member of an integer enumeration: the qualified name
    before Python 3.11, the decimal value from Python 3.11 on. *)
Definition sdk_str (py311 : bool) (r : SdkFinishReason) : string :=
  if py311 then pretty (sdk_value r) else "FinishReason." +:+ sdk_name r.

(** A member, as the code inspects it. *)
Definition sdk_finish (py311 : bool) (r : SdkFinishReason) : FinishReason :=
  mkFinish (Some (sdk_value r)) (sdk_str py311 r).

(** The check made on the first candidate, when there is one. *)
Definition signals_safety (response : Response) : bool :=
  match candidates response with
  | Some (candidate :: _) =>
      match finish_reason candidate with
      | Some fr => is_safety fr
      | None => false
      end
  | _ => false
  end.

(** [generate_content] is the model call made with the prompt. *)
Definition generate_answer (generate_content : string -> outcome Response)
    (question : string) (context_chunks : list Chunk) : outcome string :=
  let prompt := build_prompt question context_chunks in
  match generate_content prompt with
  | Raises exc => Raises exc
  | Returns response =>
      if signals_safety response then Returns refusal
      else match text response with
           | TextMissing => Returns (PyStr.strip "")
           | TextValue s => Returns (PyStr.strip s)
           | TextRaises exc => Raises exc
           end
  end.

(** A response with no candidates and an empty text. *)
Definition empty_response : Response := mkResponse (Some []) (TextValue "").

(** A response stopped by the safety filter: its only candidate has the
    finish reason [SAFETY] and no part, so that reading [response.text]
    raises. *)
Definition blocked_response (py311 : bool) : Response :=
  mkResponse (Some [mkCandidate (Some (sdk_finish py311 SAFETY))])
    (TextRaises (Exn "ValueError" "response.text requires a valid Part")).

End LLM.

(** ** Query endpoint ([query_knowledge_base]) *)

Module Query.

Record QueryRequest : Type := mkRequest {
  question : string;
  top_k : Z;
  filters : option (gmap string string)
}.

Record SourceChunk : Type := mkSource {
  sc_text : string;
  sc_source_url : string;
  sc_relevance_score : float
}.

Record Metadata : Type := mkMetadata {
  chunks_retrieved : Z;
  processing_time_ms : Z;
  embedding_model : string;
  llm_model : string;
  md_top_k : Z;
  timestamp : string
}.

Record QueryResponse : Type := mkResponse {
  answer : string;
  sources : list SourceChunk;
  metadata : Metadata
}.

(** What the handler hands back: the 200 body or a raised
    [HTTPException(status_code, detail)]. *)
Inductive reply : Type :=
| Ok200 (body : QueryResponse)
| HTTPException (status_code : Z) (detail : string).

(** Calls made to the collaborating services, in order. *)
Inductive call : Type :=
| EmbedQuery (text : string)
| Search (query_vector : list float) (k : Z) (flt : option (gmap string string))
| GenerateAnswer (q : string) (context_chunks : list LLM.Chunk).

(** The collaborators of one request: construction of the three
    clients, their methods, the clock readings, [round(x, 4)], and the
    message of the validation error raised for a source without URL. *)
Record Services : Type := mkServices {
  init_services : outcome unit;
  embed_query : string -> outcome (list float);
  search : list float -> Z -> option (gmap string string)
           -> outcome (list LLM.Chunk);
  generate_answer : string -> list LLM.Chunk -> outcome string;
  round4 : float -> float;
  elapsed_ms : Z;
  now_utc : string;
  validation_error : string
}.

Definition HTTP_404_NOT_FOUND : Z := 404.
Definition HTTP_500_INTERNAL_SERVER_ERROR : Z := 500.

(** [txt = result.get("text") or ""], cut to 300 characters plus an
    ellipsis when longer. *)
Definition source_text (chunk : LLM.Chunk) : string :=
  let txt := default "" (LLM.c_text chunk) in
  if 300 <? PyStr.len txt then String.substring 0 300 txt +:+ "..." else txt.

(** [round(float(result.get("score") or 0.0), 4)] *)
Definition source_score (svc : Services) (chunk : LLM.Chunk) : float :=
  round4 svc (default (Float 0 0) (LLM.c_score chunk)).

(** Building the [SourceChunk] objects: a source whose URL is [None]
    fails validation. *)
Fixpoint source_objs (svc : Services) (results : list LLM.Chunk)
    : option (list SourceChunk) :=
  match results with
  | [] => Some []
  | r :: rs =>
      match LLM.c_source_url r, source_objs svc rs with
      | Some url, Some objs =>
          Some (mkSource (source_text r) url (source_score svc r) :: objs)
      | _, _ => None
      end
  end.

(** [not query_vector or len(query_vector) != 1536] *)
Definition invalid_dimension (query_vector : list float) : bool :=
  match query_vector with
  | [] => true
  | _ => negb (Z.of_nat (length query_vector) =? 1536)
  end.

(** The handler: the calls it makes and its reply. *)
Definition query_knowledge_base (svc : Services) (request : QueryRequest)
    : list call * reply :=
  match init_services svc with
  | Raises e =>
      ([], HTTPException HTTP_500_INTERNAL_SERVER_ERROR
             ("Query processing failed: " +:+ exn_str e))
  | Returns _ =>
  let c1 := EmbedQuery (question request) in
  match embed_query svc (question request) with
  | Raises e =>
      ([c1], HTTPException HTTP_500_INTERNAL_SERVER_ERROR
               ("Failed to embed question: " +:+ exn_str e))
  | Returns query_vector =>
  if invalid_dimension query_vector then
    ([c1], HTTPException HTTP_500_INTERNAL_SERVER_ERROR
             "Embedding service returned invalid dimension")
  else
  let c2 := Search query_vector (top_k request) (filters request) in
  match search svc query_vector (top_k request) (filters request) with
  | Raises e =>
      ([c1; c2], HTTPException HTTP_500_INTERNAL_SERVER_ERROR
                   ("Vector database search failed: " +:+ exn_str e))
  | Returns search_results =>
  match search_results with
  | [] =>
      ([c1; c2], HTTPException HTTP_404_NOT_FOUND
         "No relevant documents found. Please ingest URLs first using POST /ingest-url")
  | _ =>
  let c3 := GenerateAnswer (question request) search_results in
  match generate_answer svc (question request) search_results with
  | Raises e =>
      ([c1; c2; c3], HTTPException HTTP_500_INTERNAL_SERVER_ERROR
         (if String.eqb (exn_type e) "ValueError"
          then "Answer generation failed: " +:+ exn_str e
          else "Failed to generate answer due to internal error"))
  | Returns ans =>
  match source_objs svc search_results with
  | None =>
      ([c1; c2; c3], HTTPException HTTP_500_INTERNAL_SERVER_ERROR
                       ("Query processing failed: " +:+ validation_error svc))
  | Some objs =>
      ([c1; c2; c3],
       Ok200 (mkResponse ans objs
                (mkMetadata (Z.of_nat (length search_results))
                   (elapsed_ms svc) "gemini-embedding-001" "gemini-2.5-flash"
                   (top_k request) (now_utc svc))))
  end end end end end end.

(** A request is a processing error when it is answered with a 5xx
    status. *)
Definition is_processing_error (r : reply) : bool :=
  match r with
  | HTTPException code _ => (500 <=? code) && (code <? 600)
  | Ok200 _ => false
  end.

Definition calls_generate (c : call) : bool :=
  match c with GenerateAnswer _ _ => true | _ => false end.

End Query.

(** ** Job ledger ([app/database.py], [app/models.py]) *)

Module Ledger.

#[local] Unset Elimination Schemes.
(** JSON-serialisable metadata. *)
Inductive json : Type :=
| JNull
| JBool (b : bool)
| JNum (n : Z)
| JStr (s : string)
| JList (items : list json)
| JObj (fields : list (string * json)).
#[local] Set Elimination Schemes.

(** A column value; [VNone] is SQL NULL / Python [None]. *)
Inductive Value : Type :=
| VNone
| VStr (s : string)
| VInt (n : Z)
| VFloat (x : float)
| VTime (t : Z)
| VJson (j : json).

(** A row of [url_ingestion_jobs] maps column names to values; the
    table is the sequence of its rows.  Keyword arguments are the items
    of the [kwargs] dict in insertion order. *)
Abbreviation Row := (gmap string Value).
Abbreviation Table := (list (gmap string Value)).
Abbreviation Kwargs := (list (string * Value)).

Definition col (row : Row) (c : string) : Value := default VNone (row !! c).

(** [k in kwargs] and [kwargs[k]] *)
Fixpoint kw_get (k : string) (kwargs : Kwargs) : option Value :=
  match kwargs with
  | [] => None
  | (k', v) :: rest => if String.eqb k' k then Some v else kw_get k rest
  end.

Definition has_id (job_id : string) (row : Row) : bool :=
  match row !! "id" with
  | Some (VStr i) => String.eqb i job_id
  | _ => false
  end.

(** *** Schema constraints ([URLIngestionJob]) *)

Definition allowed_statuses : list string :=
  ["pending"; "processing"; "completed"; "failed"].

(** [CheckConstraint("status IN ('pending', 'processing', 'completed',
    'failed')")], on a column that is not nullable. *)
Definition ck_status_values (row : Row) : bool :=
  match row !! "status" with
  | Some (VStr s) => bool_decide (s ∈ allowed_statuses)
  | _ => false
  end.

(** The primary key: present on every row, and unique. *)
Definition row_id (row : Row) : option string :=
  match row !! "id" with
  | Some (VStr i) => Some i
  | _ => None
  end.

Definition primary_key_ok (t : Table) : bool :=
  forallb (fun r => bool_decide (is_Some (row_id r))) t
  && bool_decide (NoDup (row_id <$> t)).

Definition constraints_ok (t : Table) : bool :=
  forallb ck_status_values t && primary_key_ok t.

(** Committing a transaction that turns [old] into [new]: it goes
    through when the constraints hold, and is refused with an integrity
    error, leaving the table as it was, when they do not. *)
Definition commit {A : Type} (old new : Table) (ret : A)
    : Table * outcome A :=
  if constraints_ok new then (new, Returns ret)
  else (old, Raises (Exn "IntegrityError" "constraint violated")).

(** *** [create_job] *)

(** [new_id] and [now] are the server defaults [gen_random_uuid()] and
    [now()]. *)
Definition new_job (new_id : string) (now : Z) (url : string)
    (metadata : option json) : Row :=
  list_to_map
    [("id", VStr new_id); ("url", VStr url); ("status", VStr "pending");
     ("created_at", VTime now); ("updated_at", VTime now);
     ("started_at", VNone); ("completed_at", VNone);
     ("chunk_count", VInt 0); ("total_tokens", VInt 0);
     ("processing_time_seconds", VFloat (Float 0 0));
     ("error_message", VNone); ("error_traceback", VNone);
     ("celery_task_id", VNone);
     ("metadata", VJson (default (JObj []) metadata))].

Definition create_job (new_id : string) (now : Z) (t : Table)
    (url : string) (metadata : option json) : Table * outcome Row :=
  let job := new_job new_id now url metadata in
  commit t (t ++ [job]) job.

(** *** [update_job_status] (request process, ORM session) *)

(** The mapped attributes of a [URLIngestionJob] object and the column
    each one stores to.  [hasattr] also holds for attributes that are
    not mapped to a column; assigning those does not change the row. *)
Definition attr_column (k : string) : option string :=
  if bool_decide (k ∈ ["id"; "url"; "status"; "created_at"; "updated_at";
                       "started_at"; "completed_at"; "chunk_count";
                       "total_tokens"; "processing_time_seconds";
                       "error_message"; "error_traceback"; "celery_task_id"])
  then Some k
  else if String.eqb k "metadata_json" then Some "metadata"
  else None.

(** One pass of [for k, v in kwargs.items()]. *)
Definition set_attr (job : Row) (kv : string * Value) : Row :=
  let '(k, v) := kv in
  if String.eqb k "metadata" then <["metadata" := v]> job
  else match attr_column k with
       | Some c => <[c := v]> job
       | None => job
       end.

(** The row written back at commit replaces the row that was loaded. *)
Fixpoint replace_first (job_id : string) (job' : Row) (t : Table) : Table :=
  match t with
  | [] => []
  | r :: rest =>
      if has_id job_id r then job' :: rest
      else r :: replace_first job_id job' rest
  end.

(** [q.scalars().first()] *)
Definition get_job_by_id (t : Table) (job_id : string) : option Row :=
  List.find (has_id job_id) t.

Definition update_job_status (t : Table) (job_id : string)
    (status : string) (kwargs : Kwargs) : Table * outcome (option Row) :=
  match get_job_by_id t job_id with
  | None => (t, Returns None)
  | Some job =>
      let job := <["status" := VStr status]> job in
      let job := foldl set_attr job kwargs in
      commit t (replace_first job_id job t) (Some job)
  end.


(** *** [update_job_status_sync] (worker process, raw SQL) *)

(** [mapping_fields], in source order. *)
Definition mapping_fields : list (string * string) :=
  [("started_at", "started_at"); ("completed_at", "completed_at");
   ("chunk_count", "chunk_count"); ("error_message", "error_message");
   ("error_traceback", "error_traceback");
   ("celery_task_id", "celery_task_id"); ("total_tokens", "total_tokens");
   ("processing_time_seconds", "processing_time_seconds")].

Section Sync.

(** [json.dumps] *)
Variable json_dumps : Value -> string.

(** The [SET] list: column names paired with their parameters. *)
Definition set_clauses (status : string) (kwargs : Kwargs)
    : list (string * Value) :=
  [("status", VStr status)]
  ++ flat_map (fun kc : string * string =>
                 match kw_get (fst kc) kwargs with
                 | Some v => [(snd kc, v)]
                 | None => []
                 end) mapping_fields
  ++ match kw_get "metadata" kwargs with
     | Some v => [("metadata", VStr (json_dumps v))]
     | None => []
     end.

(** [UPDATE url_ingestion_jobs SET ... WHERE id = %s] on one row. *)
Definition apply_set (clauses : list (string * Value)) (row : Row) : Row :=
  foldl (fun r cv => <[fst cv := snd cv]> r) row clauses.

Definition sql_update (clauses : list (string * Value)) (job_id : string)
    (t : Table) : Table :=
  (fun r => if has_id job_id r then apply_set clauses r else r) <$> t.

(** [RETURNING *] followed by [cur.fetchone()] *)
Definition returning (clauses : list (string * Value)) (job_id : string)
    (t : Table) : option Row :=
  apply_set clauses <$> List.find (has_id job_id) t.

(** [connect] is the outcome of [_pg_connect()]. *)
Definition update_job_status_sync (connect : outcome unit) (t : Table)
    (job_id : string) (status : string) (kwargs : Kwargs)
    : Table * outcome (option Row) :=
  let clauses := set_clauses status kwargs in
  match connect with
  | Raises exc => (t, Raises exc)
  | Returns _ =>
      commit t (sql_update clauses job_id t) (returning clauses job_id t)
  end.

End Sync.

(** The keyword names [update_job_status_sync] looks at. *)
Definition recognized : list string :=
  ["started_at"; "completed_at"; "chunk_count"; "error_message";
   "error_traceback"; "celery_task_id"; "total_tokens";
   "processing_time_seconds"; "metadata"].

(** The value written for a recognized keyword. *)
Definition written_value (json_dumps : Value -> string) (k : string)
    (v : Value) : Value :=
  if String.eqb k "metadata" then VStr (json_dumps v) else v.

(** [k in kwargs] *)
Definition passed (kwargs : Kwargs) (k : string) : bool :=
  match kw_get k kwargs with Some _ => true | None => false end.


(** *** Ledger states reachable through the API *)

Inductive step (t : Table) : Table -> Prop :=
| step_create new_id now url metadata :
    step t (create_job new_id now t url metadata).1
| step_update job_id status kwargs :
    step t (update_job_status t job_id status kwargs).1
| step_update_sync json_dumps connect job_id status kwargs :
    step t (update_job_status_sync json_dumps connect t job_id status kwargs).1.

Inductive reachable : Table -> Prop :=
| reachable_empty : reachable []
| reachable_step t t' : reachable t -> step t t' -> reachable t'.

(** *** The job invariant of the data model *)

Definition status_allowed (row : Row) : Prop :=
  exists s, row !! "status" = Some (VStr s) /\ s ∈ allowed_statuses.

Definition is_terminal (row : Row) : Prop :=
  row !! "status" = Some (VStr "completed")
  \/ row !! "status" = Some (VStr "failed").

Definition completed_at_set (row : Row) : Prop :=
  col row "completed_at" <> VNone.

Definition job_invariant (row : Row) : Prop :=
  status_allowed row /\ (completed_at_set row <-> is_terminal row).

(** The value of [completed_at] after an update that passes [kwargs]
    to a row: the one passed, else the one the row had. *)
Definition final_completed_at (kwargs : Kwargs) (row : Row) : Value :=
  match kw_get "completed_at" kwargs with
  | Some v => v
  | None => col row "completed_at"
  end.

(** A freshly created job, the failure update made by the submission
    handler when the task cannot be enqueued, and a completion update. *)
Definition demo_job : Row :=
  new_job "job-1" 0 "https://example.com/article" None.

Definition enqueue_failed : Kwargs := [("error_message", VStr "broker down")].

Definition completed_kwargs : Kwargs :=
  [("completed_at", VTime 5); ("chunk_count", VInt 1)].

Definition demo_completed : Row :=
  foldl set_attr (<["status" := VStr "completed"]> demo_job) completed_kwargs.

(** The ledger after a submission whose enqueue failed. *)
Definition failed_table : Table :=
  (update_job_status
     (create_job "job-1" 0 [] "https://example.com/article" None).1
     "job-1" "failed" enqueue_failed).1.


End Ledger.

(** ** Document embedding ([GeminiEmbeddings.embed_documents]) *)

Module EmbedDocuments.

(** [_call(texts_batch)]: one request per text, in order; the vector is
    [result["embedding"]], a [KeyError] when the response has no such
    entry; the first exception ends the batch.  [request pos text] is
    the service's answer to the request for the text at position [pos]. *)
Fixpoint _call (request : nat -> string -> outcome (gmap string (list float)))
    (pos : nat) (texts_batch : list string) : outcome (list (list float)) :=
  match texts_batch with
  | [] => Returns []
  | text :: rest =>
      match request pos text with
      | Raises exc => Raises exc
      | Returns result =>
          match result !! "embedding" with
          | None => Raises (Exn "KeyError" "'embedding'")
          | Some v =>
              match _call request (S pos) rest with
              | Returns embeddings => Returns (v :: embeddings)
              | Raises exc => Raises exc
              end
          end
      end
  end.

(** [embed_documents]: the whole batch goes through [_with_retries].
    [service attempt pos text] is the answer given during the
    [attempt]-th run of the batch. *)
Definition embed_documents
    (service : nat -> nat -> string -> outcome (gmap string (list float)))
    (texts : list string) : option (Embeddings.run (list (list float))) :=
  Embeddings._with_retries (fun attempt => _call (service attempt) 0 texts).

(** [doubling b m]: the [m] sleeps [b], [2b], [4b], ... *)
Fixpoint doubling (b : Z) (m : nat) : list Z :=
  match m with
  | O => []
  | S m' => b :: doubling (b * 2) m'
  end.

End EmbedDocuments.

(** ** Collection bootstrap ([create_collection_if_not_exists],
    [ensure_qdrant_collection]) *)

Module Collection.

(** What the index service does during one attempt: the outcome of
    constructing the client with the compatibility flag, of
    constructing it without the flag, of [get_collection] and of
    [create_collection]. *)
Record Service : Type := mkService {
  new_client : outcome unit;
  new_client_fallback : outcome unit;
  get_collection : outcome unit;
  create_collection : outcome unit
}.

(** [try: QdrantClient(..., check_compatibility=False)
     except TypeError: QdrantClient(...)] *)
Definition connect (svc : Service) : outcome unit :=
  match new_client svc with
  | Returns c => Returns c
  | Raises exc =>
      if String.eqb (exn_type exc) "TypeError" then new_client_fallback svc
      else Raises exc
  end.

(** [QdrantStore.create_collection_if_not_exists], on a constructed
    client: any failure of [get_collection] leads to a creation, whose
    failure is not caught. *)
Definition create_collection_if_not_exists (svc : Service) : outcome unit :=
  match get_collection svc with
  | Returns _ => Returns tt
  | Raises _ => create_collection svc
  end.

(** ["already exists" in error_str or "400" in error_str] *)
Definition tolerated (create_exc : exn) : bool :=
  let error_str := PyStr.lower (exn_str create_exc) in
  PyStr.contains "already exists" error_str || PyStr.contains "400" error_str.

(** The body of the outer [try] of [ensure_qdrant_collection]:
    [None] when it reaches a [return], the exception otherwise. *)
Definition attempt (svc : Service) : option exn :=
  match connect svc with
  | Raises exc => Some exc
  | Returns _ =>
      match get_collection svc with
      | Returns _ => None
      | Raises _ =>
          match create_collection svc with
          | Returns _ => None
          | Raises create_exc =>
              if tolerated create_exc then None else Some create_exc
          end
      end
  end.

(** A run of [ensure_qdrant_collection]: outcome, attempts made and
    sleeps in order. *)
Record run : Type := mkRun {
  result : outcome unit;
  attempts_made : nat;
  slept : list Z
}.

(** [while attempts < max_attempts], one pass per unit of [fuel]; the
    service at attempt [k] is [service k]. *)
Fixpoint ensure_loop (service : nat -> Service) (fuel : nat)
    (attempts : nat) (backoff : Z) (last_exc : option exn)
    (sleeps : list Z) : option run :=
  if (attempts <? 6)%nat then
    match fuel with
    | O => None
    | S fuel' =>
        match attempt (service attempts) with
        | None => Some (mkRun (Returns tt) (S attempts) sleeps)
        | Some exc =>
            ensure_loop service fuel' (S attempts) (Z.min (backoff * 2) 10)
              (Some exc) (sleeps ++ [backoff])
        end
    end
  else
    match last_exc with
    | Some exc => Some (mkRun (Raises exc) attempts sleeps)
    | None => Some (mkRun (Returns tt) attempts sleeps)
    end.

(** [attempts = 0; max_attempts = 6; backoff = 1.0; last_exc = None] *)
Definition ensure_qdrant_collection (service : nat -> Service) : option run :=
  ensure_loop service 6 0 1 None [].

(** A service that is up, with the collection missing and its creation
    refused because another process has just created it. *)
Definition creation_race : Service :=
  mkService (Returns tt) (Returns tt)
    (Raises (Exn "UnexpectedResponse" "404 Not Found"))
    (Raises (Exn "UnexpectedResponse"
               "409 Conflict: Collection `web_documents` already exists!")).

End Collection.

(** ** Vector search ([QdrantStore.search]) *)

Module Search.

(** A hit returned by the index client; [None] stands for a payload
    that is [None], or for an attribute the hit does not have. *)
Record ScoredPoint : Type := mkHit {
  h_payload : option (gmap string string);
  h_score : option float;
  h_distance : option float
}.

(** One entry of the [must] list: [{"key": key, "match": {"value": value}}] *)
Record Condition : Type := mkCondition {
  cond_key : string;
  cond_value : string
}.

(** [filters] is the optional dict, given by its items in order.
    [if filters:] fails for [None] and for the empty dict. *)
Definition query_filter (filters : option (list (string * string)))
    : option (list Condition) :=
  match filters with
  | None => None
  | Some [] => None
  | Some items => Some ((fun kv => mkCondition kv.1 kv.2) <$> items)
  end.

(** Truth value of an optional float: [None] and zero are false. *)
Definition truthy (x : option float) : bool :=
  match x with
  | Some f => negb (mantissa f =? 0)
  | None => false
  end.

(** [getattr(h, "score", None) or getattr(h, "distance", None)] *)
Definition hit_score (h : ScoredPoint) : option float :=
  if truthy (h_score h) then h_score h else h_distance h.

(** [payload = h.payload or {}] and the result dict built from it. *)
Definition to_result (h : ScoredPoint) : LLM.Chunk :=
  let payload := default ∅ (h_payload h) in
  LLM.mkChunk (payload !! "text") (payload !! "source_url") (hit_score h).

(** [client_search query_vector limit query_filter] is the client's
    [search] call; its exception is re-raised. *)
Definition search
    (client_search : list float -> Z -> option (list Condition)
                     -> outcome (list ScoredPoint))
    (query_vector : list float) (top_k : Z)
    (filters : option (list (string * string)))
    : outcome (list LLM.Chunk) :=
  match client_search query_vector top_k (query_filter filters) with
  | Returns hits => Returns (to_result <$> hits)
  | Raises exc => Raises exc
  end.

End Search.

(** ** Status validation ([validate_job_status]) *)

Module Validators.

Definition ALLOWED_STATUSES : gset string :=
  {["pending"; "processing"; "completed"; "failed"]}.

Definition validate_job_status (status : string) : bool :=
  bool_decide (status ∈ ALLOWED_STATUSES).

End Validators.

(** ** Sample ledgers *)

Module LedgerExamples.

(** The ledger after one submission. *)
Definition one_job : list (gmap string Ledger.Value) :=
  (Ledger.create_job "job-1" 0 [] "https://example.com/article" None).1.




End LedgerExamples.

(** ** Sample collaborators of the query endpoint *)

Module QueryExamples.

Definition zero_vector : list float := replicate 1536 (Float 0 0).

Definition request : Query.QueryRequest := Query.mkRequest "What is RAG?" 5 None.

Definition hit : LLM.Chunk :=
  LLM.mkChunk (Some "RAG combines retrieval with generation.")
    (Some "https://example.com/article") (Some (Float 7 (-3))).

Definition hit_without_url : LLM.Chunk :=
  LLM.mkChunk (Some "RAG combines retrieval with generation.") None None.

(** The embedder answers with a 1536-component vector, the generator
    with a fixed sentence; the index returns [results]. *)
Definition services (results : list LLM.Chunk) : Query.Services :=
  Query.mkServices (Returns tt) (fun _ => Returns zero_vector)
    (fun _ _ _ => Returns results) (fun _ _ => Returns "According to Source 1")
    (fun x => x) 12 "2025-01-01T00:00:00Z" "1 validation error for SourceChunk".

Definition body : Query.QueryResponse :=
  Query.mkResponse "According to Source 1"
    [Query.mkSource "RAG combines retrieval with generation."
       "https://example.com/article" (Float 7 (-3))]
    (Query.mkMetadata 1 12 "gemini-embedding-001" "gemini-2.5-flash" 5
       "2025-01-01T00:00:00Z").

End QueryExamples.

(** ** Content fetcher ([ContentProcessor.fetch_url_content_sync]) *)

Module Fetcher.

(** The part of a [requests] response the fetcher reads. *)
Record Response : Type := mkResponse {
  status_code : Z;
  text : string
}.

(** [get] is [requests.get(url, headers=USER_AGENT, timeout=10)]; its
    exception, like the [ValueError] for a status other than 200, is
    logged and re-raised.  [fetch_url_content] runs the same steps in a
    thread. *)
Definition fetch_url_content_sync (get : string -> outcome Response)
    (url : string) : outcome string :=
  match get url with
  | Raises exc => Raises exc
  | Returns resp =>
      if status_code resp =? 200 then Returns (text resp)
      else Raises (Exn "ValueError"
                     ("Failed to fetch " +:+ url +:+ ": HTTP "
                      +:+ pretty (status_code resp)))
  end.

End Fetcher.

(** ** Database URL ([Settings.build_database_url]) *)

Module Config.

(** [s[n:]] *)
Fixpoint drop (n : nat) (s : string) : string :=
  match n, s with
  | O, _ => s
  | S n', String _ s' => drop n' s'
  | S _, EmptyString => EmptyString
  end.

(** [s.replace(old, new, 1)] for a non-empty [old]: the first
    occurrence of [old], if any, is replaced. *)
Fixpoint replace_first (old new s : string) : string :=
  if PyStr.startswith old s then new +:+ drop (String.length old) s
  else match s with
       | EmptyString => EmptyString
       | String c s' => String c (replace_first old new s')
       end.

(** The fields validated before [DATABASE_URL], as the validator reads
    them from [values]. *)
Record Values : Type := mkValues {
  POSTGRES_USER : option string;
  POSTGRES_PASSWORD : option string;
  POSTGRES_HOST : option string;
  POSTGRES_PORT : option Z;
  POSTGRES_DB : option string
}.

(** Truth value of an optional string. *)
Definition truthy (s : option string) : bool :=
  match s with
  | Some (String _ _) => true
  | _ => false
  end.

Definition build_database_url (v : option string) (values : Values)
    : outcome string :=
  if truthy v then
    let v := default "" v in
    if PyStr.startswith "postgresql+asyncpg://" v then Returns v
    else if PyStr.startswith "postgresql://" v
    then Returns (replace_first "postgresql://" "postgresql+asyncpg://" v)
    else if PyStr.startswith "postgres://" v
    then Returns (replace_first "postgres://" "postgresql+asyncpg://" v)
    else Returns v
  else
    let user := POSTGRES_USER values in
    let password := POSTGRES_PASSWORD values in
    let host := default "postgres" (POSTGRES_HOST values) in
    let port := default 5432 (POSTGRES_PORT values) in
    let db := POSTGRES_DB values in
    if negb (truthy user && truthy password && truthy db) then
      Raises (Exn "ValueError"
                "Insufficient PostgreSQL configuration to build DATABASE_URL")
    else
      Returns ("postgresql+asyncpg://" +:+ default "" user +:+ ":"
               +:+ default "" password +:+ "@" +:+ host +:+ ":"
               +:+ pretty port +:+ "/" +:+ default "" db).

End Config.

(** ** Free-text clean-up ([sanitize_text]) *)

Module Sanitize.

Definition is_tab_cr_lf (c : ascii) : bool :=
  let n := nat_of_ascii c in ((n =? 9) || (n =? 13) || (n =? 10))%nat.

Definition is_space (c : ascii) : bool := (nat_of_ascii c =? 32)%nat.

(** [re.sub(r"[\t\r\n]+", " ", text)]: each maximal run of tabs,
    carriage returns and line feeds becomes one space.  [in_run] tells
    that the previous character belonged to such a run. *)
Fixpoint sub_tab_cr_lf (in_run : bool) (s : string) : string :=
  match s with
  | EmptyString => EmptyString
  | String c s' =>
      if is_tab_cr_lf c then
        if in_run then sub_tab_cr_lf true s'
        else String " " (sub_tab_cr_lf true s')
      else String c (sub_tab_cr_lf false s')
  end.

(** [re.sub(r" {2,}", " ", s)]: each maximal run of two or more spaces
    becomes one space.  [after_space] tells that the previous character
    was a space. *)
Fixpoint sub_spaces (after_space : bool) (s : string) : string :=
  match s with
  | EmptyString => EmptyString
  | String c s' =>
      if is_space c then
        if after_space then sub_spaces true s'
        else String c (sub_spaces true s')
      else String c (sub_spaces false s')
  end.

Definition sanitize_text (text : option string) : string :=
  match text with
  | None => EmptyString
  | Some EmptyString => EmptyString
  | Some t => PyStr.strip (sub_spaces false (sub_tab_cr_lf false t))
  end.

(** Whether a string begins with a space. *)
Definition head_is_space (s : string) : bool :=
  match s with String c _ => is_space c | EmptyString => false end.

End Sanitize.

(** ** Submission and status endpoints ([ingest_url], [get_status]) *)

Module Submission.

(** What [ingest_url] hands back: the 202 body, a raised
    [HTTPException], or an exception that it does not catch. *)
Inductive reply : Type :=
| Accepted (job_id status message : string) (estimated_time_seconds : Z)
| HTTPException (status_code : Z) (detail : string)
| Escaped (exc : exn).

(** [job.status] of a loaded job. *)
Definition status_of (job : gmap string Ledger.Value) : string :=
  match Ledger.col job "status" with
  | Ledger.VStr s => s
  | _ => EmptyString
  end.

(** The [except Exception] branch of the enqueue step: best-effort
    marking of the job as failed, then a 500. *)
Definition enqueue_failed (t : list (gmap string Ledger.Value))
    (job_id : string) (exc : exn)
    : list (gmap string Ledger.Value) * reply :=
  match Ledger.update_job_status t job_id "failed"
          [("error_message", Ledger.VStr (exn_str exc))] with
  | (t', Returns _) =>
      (t', HTTPException 500 "Failed to enqueue ingestion task")
  | (t', Raises exc') => (t', Escaped exc')
  end.

(** [is_valid_url] is the verdict of the URL check, [new_id] and [now]
    the server defaults of the inserted row, [send_task] the outcome of
    [celery_app.send_task], a task id on success. *)
Definition ingest_url (is_valid_url : bool) (new_id : string) (now : Z)
    (send_task : outcome string) (t : list (gmap string Ledger.Value))
    (url : string) (metadata : option Ledger.json)
    : list (gmap string Ledger.Value) * reply :=
  if negb is_valid_url then (t, HTTPException 400 "Invalid URL provided")
  else
    match Ledger.create_job new_id now t url
            (Some (default (Ledger.JObj []) metadata)) with
    | (t0, Raises _) => (t0, HTTPException 500 "Failed to create job")
    | (t1, Returns job) =>
        match send_task with
        | Raises exc => enqueue_failed t1 new_id exc
        | Returns task_id =>
            match Ledger.update_job_status t1 new_id (status_of job)
                    [("celery_task_id", Ledger.VStr task_id)] with
            | (t2, Raises exc) => enqueue_failed t2 new_id exc
            | (t2, Returns _) =>
                (t2, Accepted new_id (status_of job) "Job accepted" 30)
            end
        end
    end.

Record JobStatusResponse : Type := mkStatus {
  job_id : string;
  status : string;
  url : Ledger.Value;
  created_at : Ledger.Value;
  completed_at : Ledger.Value;
  processing_time_seconds : Ledger.Value;
  chunk_count : Z;
  error_message : Ledger.Value
}.

(** [job.chunk_count or 0] *)
Definition chunk_count_or_0 (job : gmap string Ledger.Value) : Z :=
  match Ledger.col job "chunk_count" with
  | Ledger.VInt n => n
  | _ => 0
  end.

(** [get_status]: [None] stands for the 404 [Job not found]. *)
Definition get_status (t : list (gmap string Ledger.Value)) (id : string)
    : option JobStatusResponse :=
  match Ledger.get_job_by_id t id with
  | None => None
  | Some job =>
      Some (mkStatus id (status_of job) (Ledger.col job "url")
              (Ledger.col job "created_at") (Ledger.col job "completed_at")
              (Ledger.col job "processing_time_seconds")
              (chunk_count_or_0 job) (Ledger.col job "error_message"))
  end.

End Submission.

(** * Properties *)

Example estimate_tokens_two_words :
  ContentProcessor.estimate_tokens "a b" = 2.
Proof. reflexivity. Qed.

Example retries_three_rate_limits :
  Embeddings._with_retries (Embeddings.fails_then 3 (Exn "Exception" "Rate limit hit") tt)
  = Some (Embeddings.mkRun (Returns tt) 4 [1; 2; 4]).
Proof. reflexivity. Qed.

Example retries_five_rate_limits :
  Embeddings._with_retries (Embeddings.fails_then 5 (Exn "Exception" "HTTP 429") tt)
  = Some (Embeddings.mkRun (Raises (Exn "Exception" "HTTP 429")) 5 [1; 2; 4; 8]).
Proof. reflexivity. Qed.

Example retries_mixed_failures :
  Embeddings._with_retries
    (fun k => if (k <? 2)%nat then Raises (Exn "Exception" "quota exceeded")
              else Raises (Exn "Exception" "connection reset") : outcome unit)
  = Some (Embeddings.mkRun (Raises (Exn "Exception" "connection reset")) 3
            [1; 2]).
Proof. reflexivity. Qed.

Example split_mixed_whitespace :
  PyStr.split (" Hello" +:+ LLM.nl +:+ "  World ") = ["Hello"; "World"].
Proof. reflexivity. Qed.

Example is_rate_limit_any_case :
  Embeddings.is_rate_limit (Exn "ResourceExhausted" "Resource Exhausted: slow down")
  = true.
Proof. reflexivity. Qed.

(** ** Token estimate *)

Section TokenEstimate.
Import ContentProcessor.

Lemma word_count_nonneg text : 0 <= word_count text.
Proof. unfold word_count. lia. Qed.

(** *** The binary64 product *)

Lemma round_to_bounds k m :
  0 <= k ->
  m / 2 ^ k <= Binary64.round_to k m
  /\ 2 * (2 ^ k * Binary64.round_to k m) <= 2 * m + 2 ^ k.
Proof.
  intros Hk. unfold Binary64.round_to.
  assert (HP : 0 < 2 ^ k) by (apply Z.pow_pos_nonneg; lia).
  pose proof (Z.div_mod m (2 ^ k) ltac:(lia)) as Hd.
  pose proof (Z.mod_pos_bound m (2 ^ k) HP) as Hr.
  set (P := 2 ^ k) in *. set (q := m / P) in *. set (r := m mod P) in *.
  destruct (Z.ltb_spec (2 * r) P); [split; lia |].
  destruct (Z.ltb_spec P (2 * r)); [split; [lia | nia] |].
  destruct (Z.even q); split; try lia; nia.
Qed.

Lemma drop_bits_small m : 0 <= m < 2 ^ 53 -> Binary64.drop_bits m = 0.
Proof.
  intros [H0 H]. unfold Binary64.drop_bits.
  destruct (Z.eq_dec m 0) as [-> | Hne]; [reflexivity |].
  assert (Z.log2 m < 53) by (apply Z.log2_lt_pow2; lia). lia.
Qed.

Lemma drop_bits_range m b :
  53 <= b -> 0 <= m < 2 ^ b -> 0 <= Binary64.drop_bits m <= b - 53.
Proof.
  intros Hb [H0 H]. unfold Binary64.drop_bits.
  destruct (Z.eq_dec m 0) as [-> | Hne]; [simpl; lia |].
  assert (Z.log2 m < b) by (apply Z.log2_lt_pow2; lia). lia.
Qed.

(** An integer below 2^53 converts exactly. *)
Lemma of_int_exact n : 0 <= n < 2 ^ 53 -> Binary64.of_int n = Float n 0.
Proof.
  intros H. unfold Binary64.of_int, Binary64.round.
  rewrite drop_bits_small by assumption.
  unfold Binary64.round_to. change (2 ^ 0) with 1.
  rewrite Z.div_1_r, Z.mod_1_r. reflexivity.
Qed.

(** Below 2^49 the rounding of the product never reaches the next
    integer: the truncated binary64 product is the quotient of
    [13 * w] by 10. *)
Lemma product_truncated w :
  0 <= w < 2 ^ 49 ->
  Binary64.to_int (Binary64.mul (Binary64.of_int w) Binary64.lit_1_3)
  = w * 13 / 10.
Proof.
  intros [H0 Hw].
  rewrite of_int_exact
    by (split; [lia |]; eapply Z.lt_trans; [exact Hw | reflexivity]).
  unfold Binary64.mul, Binary64.round, Binary64.lit_1_3.
  cbn [mantissa exponent].
  set (M := w * 5854679515581645).
  assert (HM : 0 <= M < 2 ^ 102).
  { subst M. split; [lia |].
    change (2 ^ 102) with (2 ^ 49 * 2 ^ 53).
    apply Z.mul_lt_mono_nonneg; [lia | exact Hw | lia | reflexivity]. }
  pose proof (drop_bits_range M 102 ltac:(lia) HM) as Hk.
  set (k := Binary64.drop_bits M) in *.
  destruct (round_to_bounds k M ltac:(lia)) as [Hlo Hhi].
  set (q := Binary64.round_to k M) in *.
  unfold Binary64.to_int. cbn [mantissa exponent].
  destruct (Z.leb_spec 0 (0 + -52 + k)); [lia |].
  replace (- (0 + -52 + k)) with (52 - k) by lia.
  assert (HP : 0 < 2 ^ k) by (apply Z.pow_pos_nonneg; lia).
  assert (HR : 0 < 2 ^ (52 - k)) by (apply Z.pow_pos_nonneg; lia).
  assert (HD : 2 ^ k * 2 ^ (52 - k) = 4503599627370496).
  { rewrite <- Z.pow_add_r by lia. replace (k + (52 - k)) with 52 by lia.
    reflexivity. }
  assert (HPk : 2 ^ k <= 2 ^ 49) by (apply Z.pow_le_mono_r; lia).
  change (2 ^ 49) with 562949953421312 in *.
  set (P := 2 ^ k) in *. set (R := 2 ^ (52 - k)) in *.
  pose proof (Z.div_mod (w * 13) 10 ltac:(lia)) as Hd.
  pose proof (Z.mod_pos_bound (w * 13) 10 ltac:(lia)) as Hr.
  set (F := w * 13 / 10) in *.
  assert (HF : 0 <= F) by (subst F; apply Z.div_pos; lia).
  assert (HMlo : P * (F * R) <= M).
  { replace (P * (F * R)) with (F * (P * R)) by ring. rewrite HD.
    subst M. lia. }
  assert (Hq0 : F * R <= q).
  { eapply Z.le_trans; [| exact Hlo].
    apply Z.div_le_lower_bound; assumption. }
  assert (Hq1 : q < (F + 1) * R).
  { apply (Z.mul_lt_mono_pos_l (2 * P)); [lia |].
    replace (2 * P * ((F + 1) * R)) with (2 * (F + 1) * (P * R)) by ring.
    rewrite HD. subst M. lia. }
  rewrite Z.quot_div_nonneg by lia.
  symmetry. apply Z.div_unique with (r := q - F * R); lia.
Qed.

(** The bound matters: at 844424930131973 words the exact product ends
    in .9375, a tie of the binary64 grid that rounds up to the next
    integer. *)
Example product_rounds_up :
  Binary64.to_int
    (Binary64.mul (Binary64.of_int 844424930131973) Binary64.lit_1_3)
  = 1097752409171565
  /\ 844424930131973 * 13 / 10 = 1097752409171564.
Proof. split; reflexivity. Qed.

(** The floor of a quotient by 10 is a nearest integer exactly when the
    remainder is at most 5. *)
Lemma floor_nearest num :
  nearest_int num 10 (num / 10) <-> num mod 10 <= 5.
Proof.
  pose proof (Z.div_mod num 10 ltac:(lia)) as Hd.
  pose proof (Z.mod_pos_bound num 10 ltac:(lia)) as Hr.
  unfold nearest_int. split.
  - intros H. specialize (H (num / 10 + 1)). lia.
  - intros H m. lia.
Qed.

(** The text [a b] has two words, 2 * 1.3 = 2.6, the estimate is 2, and
    3 is nearer to 2.6 than 2 is. *)
Lemma estimate_tokens_not_nearest :
  ~ nearest_int (word_count "a b" * 13) 10 (estimate_tokens "a b").
Proof.
  intros H. specialize (H 3). vm_compute in H. contradiction.
Qed.

(** C5: the docstring of [estimate_tokens] and the claim say the
    product of the word count and 1.3 is rounded, but [int()]
    truncates.  For every text of fewer than 2^49 words the estimate is
    the largest integer not above [13 * words / 10]; it is a nearest
    integer only when the fractional part of the product is at most one
    half, and it is one below the nearest integer otherwise (two words
    give 2, not 3). *)
Theorem estimate_tokens_truncates (text : string) :
  word_count text < 2 ^ 49 ->
  let product := word_count text * 13 in
  estimate_tokens text = product / 10
  /\ (nearest_int product 10 (estimate_tokens text) <-> product mod 10 <= 5)
  /\ (5 < product mod 10 ->
      nearest_int product 10 (estimate_tokens text + 1)).
Proof.
  intros Hw product.
  assert (E : estimate_tokens text = product / 10).
  { unfold estimate_tokens. cbv zeta. apply product_truncated.
    split; [apply word_count_nonneg | exact Hw]. }
  rewrite E. split; [reflexivity |]. split; [apply floor_nearest |].
  intros H m.
  pose proof (Z.div_mod product 10 ltac:(lia)) as Hd.
  pose proof (Z.mod_pos_bound product 10 ltac:(lia)) as Hr. lia.
Qed.

Lemma estimate_tokens_truncates_witness :
  estimate_tokens "a b" = 2
  /\ nearest_int (word_count "a b" * 13) 10 3.
Proof.
  destruct (estimate_tokens_truncates "a b") as (E & _ & H).
  - reflexivity.
  - split; [exact E |]. rewrite E in H. apply H. vm_compute. reflexivity.
Defined.

End TokenEstimate.

(** ** Retry wrapper *)

Section RetryPolicy.
Import Embeddings.
Context {A : Type}.
Implicit Types (func : nat -> outcome A) (exc : exn).

Lemma loop_returns func fuel attempt backoff n sleeps a :
  func n = Returns a ->
  with_retries_loop func (S fuel) attempt backoff n sleeps
  = Some (mkRun (Returns a) (S n) sleeps).
Proof. intros H. cbn [with_retries_loop]. now rewrite H. Qed.

Lemma loop_retries func (rate : bool) fuel attempt backoff n sleeps :
  fails_with rate func n ->
  (S attempt < (if rate then 5 else 3))%nat ->
  with_retries_loop func (S fuel) attempt backoff n sleeps
  = with_retries_loop func fuel (S attempt) (backoff * 2) (S n)
      (sleeps ++ [backoff]).
Proof.
  intros (exc & Hf & Hr) Hlt. cbn [with_retries_loop]. rewrite Hf, Hr.
  destruct rate.
  - destruct (Nat.leb_spec 5 (S attempt)); [lia | reflexivity].
  - destruct (Nat.leb_spec 3 (S attempt)); [lia | reflexivity].
Qed.

Lemma loop_gives_up func (rate : bool) fuel attempt backoff n sleeps exc :
  func n = Raises exc -> is_rate_limit exc = rate ->
  ((if rate then 5 else 3) <= S attempt)%nat ->
  with_retries_loop func (S fuel) attempt backoff n sleeps
  = Some (mkRun (Raises exc) (S n) sleeps).
Proof.
  intros Hf Hr Hle. cbn [with_retries_loop]. rewrite Hf, Hr.
  destruct rate.
  - destruct (Nat.leb_spec 5 (S attempt)); [reflexivity | lia].
  - destruct (Nat.leb_spec 3 (S attempt)); [reflexivity | lia].
Qed.

(** Termination: five passes of the loop always reach a [return] or a
    [raise], after at most five calls. *)
Lemma with_retries_loop_total func :
  exists r, _with_retries func = Some r /\ (1 <= calls r <= 5)%nat.
Proof.
  unfold _with_retries. simpl.
  repeat match goal with
  | |- exists r, (if is_rate_limit ?e then _ else _) = _ /\ _ =>
      destruct (is_rate_limit e)
  | |- exists r, match func ?k with _ => _ end = _ /\ _ =>
      destruct (func k)
  | |- _ => eexists; split; [reflexivity | simpl; lia]
  end.
Qed.

Ltac first_failures H n :=
  let Hk := fresh "Hk" in
  assert (Hk : fails_with _ _ n) by (apply H; lia);
  erewrite (loop_retries _ _ _ _ _ _ _ Hk) by (simpl; lia); clear Hk.

(** When the first [n] calls fail alike and call [n] returns, with [n]
    below the limit of the failure kind, the wrapper returns that value
    after sleeping [backoffs n]. *)
Lemma with_retries_recovers func (rate : bool) n a :
  (n < (if rate then 5 else 3))%nat ->
  (forall k, (k < n)%nat -> fails_with rate func k) ->
  func n = Returns a ->
  _with_retries func = Some (mkRun (Returns a) (S n) (backoffs n)).
Proof.
  intros Hn Hfail Hret. unfold _with_retries.
  assert (Hcases : (n = 0 \/ n = 1 \/ n = 2 \/ n = 3 \/ n = 4)%nat)
    by (destruct rate; lia).
  destruct Hcases as [-> | [-> | [-> | [-> | ->]]]];
    try (destruct rate; [| lia]).
  all: repeat match goal with
       | |- with_retries_loop _ _ _ _ ?k _ = Some (mkRun _ (S ?m) _) =>
           lazymatch k with
           | m => fail
           | _ => first_failures Hfail k
           end
       end.
  all: erewrite loop_returns by eassumption; reflexivity.
Qed.

(** When the first [limit] calls all fail alike, the wrapper re-raises
    the error of call [limit - 1] and has slept [backoffs (limit - 1)]. *)
Lemma with_retries_exhausted func (rate : bool) exc :
  let limit := if rate then 5%nat else 3%nat in
  (forall k, (k < limit)%nat -> fails_with rate func k) ->
  func (limit - 1)%nat = Raises exc ->
  _with_retries func
  = Some (mkRun (Raises exc) limit (backoffs (limit - 1))).
Proof.
  intros limit Hfail Hlast. unfold _with_retries.
  assert (Hrate : is_rate_limit exc = rate).
  { destruct (Hfail (limit - 1)%nat) as (e & He & Hr); [subst limit; destruct rate; lia |].
    rewrite Hlast in He. now inversion He. }
  subst limit. destruct rate; simpl in Hlast.
  - do 4 (match goal with
          | |- with_retries_loop _ _ _ _ ?k _ = _ => first_failures Hfail k
          end).
    erewrite loop_gives_up by (try eassumption; simpl; lia). reflexivity.
  - do 2 (match goal with
          | |- with_retries_loop _ _ _ _ ?k _ = _ => first_failures Hfail k
          end).
    erewrite loop_gives_up by (try eassumption; simpl; lia). reflexivity.
Qed.

End RetryPolicy.

(** C2, as stated, fails: when the service answers five calls with a
    rate-limit error and would answer the sixth, a wrapper that retries
    up to five times returns after six calls; the code raises after the
    fifth call, its fourth retry. *)
Lemma with_retries_not_five_retries :
  Embeddings._with_retries (Embeddings.fails_then 5 Embeddings.rate_limited_429 tt)
  <> Some (Embeddings.retried_up_to
             (Embeddings.fails_then 5 Embeddings.rate_limited_429 tt) 5 1 0 []).
Proof. vm_compute. discriminate. Qed.

(** C2, amended: the wrapper always finishes, after at most five calls.
    While every failure is a rate-limit error the callable is called at
    most 5 times in all (4 retries), with sleeps 1, 2, 4, 8 before the
    retries; while every failure is of another kind it is called at most
    3 times in all (2 retries), with sleeps 1, 2.  A call that returns
    ends the run with its value; when the last permitted call fails, its
    error is re-raised. *)
Theorem with_retries_policy {A : Type} (func : nat -> outcome A) :
  (exists r, Embeddings._with_retries func = Some r
             /\ (1 <= Embeddings.calls r <= 5)%nat)
  /\ (forall n a, (n < 5)%nat ->
        (forall k, (k < n)%nat -> Embeddings.fails_with true func k) ->
        func n = Returns a ->
        Embeddings._with_retries func
        = Some (Embeddings.mkRun (Returns a) (S n) (Embeddings.backoffs n)))
  /\ (forall exc,
        (forall k, (k < 5)%nat -> Embeddings.fails_with true func k) ->
        func 4%nat = Raises exc ->
        Embeddings._with_retries func
        = Some (Embeddings.mkRun (Raises exc) 5 [1; 2; 4; 8]))
  /\ (forall n a, (n < 3)%nat ->
        (forall k, (k < n)%nat -> Embeddings.fails_with false func k) ->
        func n = Returns a ->
        Embeddings._with_retries func
        = Some (Embeddings.mkRun (Returns a) (S n) (Embeddings.backoffs n)))
  /\ (forall exc,
        (forall k, (k < 3)%nat -> Embeddings.fails_with false func k) ->
        func 2%nat = Raises exc ->
        Embeddings._with_retries func
        = Some (Embeddings.mkRun (Raises exc) 3 [1; 2])).
Proof.
  split; [apply with_retries_loop_total |].
  split; [intros n a; apply (with_retries_recovers func true) |].
  split; [intros exc; apply (with_retries_exhausted func true) |].
  split; [intros n a; apply (with_retries_recovers func false) |].
  intros exc; apply (with_retries_exhausted func false).
Qed.

(** Three rate-limit errors, then success: the call succeeds after
    sleeping 1 + 2 + 4 seconds. *)
Lemma with_retries_policy_witness :
  Embeddings._with_retries (Embeddings.fails_then 3 Embeddings.rate_limited_429 tt)
  = Some (Embeddings.mkRun (Returns tt) 4 [1; 2; 4]).
Proof.
  apply (proj1 (proj2 (with_retries_policy
                         (Embeddings.fails_then 3 Embeddings.rate_limited_429 tt))) 3%nat tt).
  - lia.
  - intros k Hk. exists Embeddings.rate_limited_429. split; [| reflexivity].
    unfold Embeddings.fails_then.
    destruct (Nat.ltb_spec k 3); [reflexivity | lia].
  - reflexivity.
Defined.

(** ** Point ids *)

Section PointIds.
Import VectorStore.
Implicit Types (hash : string -> Z) (chunks : list string)
  (vectors : list (list float)) (metadata : option (gmap string string)).

Lemma elem_of_point_ids hash chunks vectors metadata job_id ingested_at i :
  i ∈ point_ids hash chunks vectors metadata job_id ingested_at
  <-> exists idx, (idx < length (zip chunks vectors))%nat
                  /\ i = point_id hash job_id idx.
Proof.
  unfold point_ids, build_points. rewrite list_elem_of_fmap. split.
  - intros (p & -> & Hp). apply elem_of_lookup_imap in Hp as (idx & cv & -> & Hl).
    exists idx. split; [eapply lookup_lt_Some; eassumption | reflexivity].
  - intros (idx & Hlt & ->).
    destruct (lookup_lt_is_Some_2 _ _ Hlt) as [cv Hcv].
    eexists. split; [| apply elem_of_lookup_imap; eauto]. reflexivity.
Qed.

(** Within one interpreter process the ids of a job depend on nothing
    but the job id and the number of chunks. *)
Lemma point_ids_same_hash hash chunks vectors metadata job_id t1 t2 i :
  i ∈ point_ids hash chunks vectors metadata job_id t1
  <-> i ∈ point_ids hash chunks vectors metadata job_id t2.
Proof. now rewrite !elem_of_point_ids. Qed.

(** Within one job the ids of distinct chunks are distinct. *)
Lemma point_id_inj hash job_id i j :
  point_id hash job_id i = point_id hash job_id j -> i = j.
Proof. unfold point_id. lia. Qed.

End PointIds.

(** C1 on the code: the point id is computed from the interpreter's
    salted string hash.  Whenever the hashes of the job id in two worker
    processes differ modulo 1000000, the two runs over the same job id
    and the same (at most 10000) chunks have no point id in common, so
    the second run adds points instead of overwriting them. *)
Theorem point_ids_differ_across_processes
    (hash1 hash2 : string -> Z) (chunks : list string)
    (vectors : list (list float)) (metadata : option (gmap string string))
    (job_id t1 t2 : string) (i : Z) :
  hash1 job_id mod 1000000 <> hash2 job_id mod 1000000 ->
  Z.of_nat (length chunks) <= 10000 ->
  i ∈ VectorStore.point_ids hash1 chunks vectors metadata job_id t1 ->
  i ∉ VectorStore.point_ids hash2 chunks vectors metadata job_id t2.
Proof.
  intros Hne Hlen H1 H2.
  apply elem_of_point_ids in H1 as (i1 & Hi1 & ->).
  apply elem_of_point_ids in H2 as (i2 & Hi2 & Heq).
  rewrite length_zip in Hi1, Hi2. unfold VectorStore.point_id in Heq.
  apply Hne. lia.
Qed.

Lemma point_ids_differ_across_processes_witness :
  1000003 ∉ VectorStore.point_ids (fun _ => 200) ["a"; "b"; "c"; "d"]
              [[]; []; []; []] None "job-1" "t2".
Proof.
  apply (point_ids_differ_across_processes (fun _ => 100) (fun _ => 200)
           ["a"; "b"; "c"; "d"] [[]; []; []; []] None "job-1" "t1" "t2").
  - vm_compute. discriminate.
  - simpl. lia.
  - vm_compute. set_solver.
Defined.

(** ** Query embedding and the dimension check *)

(** A value returned by the wrapper is the value of one of the first
    five calls. *)
Lemma with_retries_returns_call {A : Type} (func : nat -> outcome A) r a :
  Embeddings._with_retries func = Some r ->
  Embeddings.result r = Returns a ->
  exists k, (k < 5)%nat /\ func k = Returns a.
Proof.
  unfold Embeddings._with_retries. simpl.
  repeat match goal with
  | |- (if Embeddings.is_rate_limit ?e then _ else _) = _ -> _ =>
      destruct (Embeddings.is_rate_limit e)
  | |- match func ?k with _ => _ end = _ -> _ =>
      let E := fresh "E" in destruct (func k) eqn:E
  end;
  intros [= <-]; simpl; intros [=]; subst; eexists; (split; [| eassumption]); lia.
Qed.

(** C4, as stated, fails: when the service answers with a
    two-component vector, [embed_query] returns it; nothing is raised. *)
Lemma embed_query_returns_short_vector :
  exists v, Embeddings.embed_query (fun _ => Returns Embeddings.short_embedding)
            = Some (Returns v)
            /\ Z.of_nat (length v) <> 1536.
Proof. eexists. split; [vm_compute; reflexivity | simpl; lia]. Qed.

(** C4, amended: [embed_query] finishes, either raising or returning the
    [embedding] entry of a response of the service ([[]] when there is
    none), of whatever length; the query handler answers any vector
    whose length is not 1536 with a 500 error right after the embedding
    call, without searching the index. *)
Theorem embed_query_dimension_checked_by_handler :
  (forall embed_content,
     exists o, Embeddings.embed_query embed_content = Some o
       /\ forall v, o = Returns v ->
            exists k resp, (k < 5)%nat /\ embed_content k = Returns resp
                           /\ v = default [] (resp !! "embedding"))
  /\ (forall svc request v,
        Query.init_services svc = Returns tt ->
        Query.embed_query svc (Query.question request) = Returns v ->
        Z.of_nat (length v) <> 1536 ->
        Query.query_knowledge_base svc request
        = ([Query.EmbedQuery (Query.question request)],
           Query.HTTPException 500
             "Embedding service returned invalid dimension")).
Proof.
  split.
  - intros embed_content. unfold Embeddings.embed_query.
    destruct (with_retries_loop_total embed_content) as (r & Hr & _).
    rewrite Hr. destruct (Embeddings.result r) as [resp | exc] eqn:Hres.
    + eexists. split; [reflexivity |]. intros v [= <-].
      destruct (with_retries_returns_call _ _ _ Hr Hres) as (k & Hk & Hcall).
      eauto.
    + eexists. split; [reflexivity |]. intros v [=].
  - intros svc request v Hinit Hemb Hlen.
    unfold Query.query_knowledge_base. rewrite Hinit, Hemb.
    assert (Hinv : Query.invalid_dimension v = true).
    { unfold Query.invalid_dimension. destruct v; [reflexivity |].
      apply negb_true_iff, Z.eqb_neq, Hlen. }
    rewrite Hinv. reflexivity.
Qed.

Lemma embed_query_dimension_checked_by_handler_witness :
  let svc := Query.mkServices (Returns tt)
               (fun _ => Returns [Float 1 0; Float 1 1])
               (fun _ _ _ => Returns []) (fun _ _ => Returns "")
               (fun x => x) 0 "" "" in
  Query.query_knowledge_base svc (Query.mkRequest "q" 5 None)
  = ([Query.EmbedQuery "q"],
     Query.HTTPException 500 "Embedding service returned invalid dimension").
Proof.
  intros svc.
  apply (proj2 embed_query_dimension_checked_by_handler svc
           (Query.mkRequest "q" 5 None) [Float 1 0; Float 1 1]).
  - reflexivity.
  - reflexivity.
  - simpl. lia.
Defined.

(** ** Empty search results *)

(** C8: when the search returns no point, the handler answers 404 with
    the not-found detail; the reply is not a 5xx error and the calls
    made are the embedding and the search, not the answer generator. *)
Theorem no_results_is_not_found svc request v :
  Query.init_services svc = Returns tt ->
  Query.embed_query svc (Query.question request) = Returns v ->
  Z.of_nat (length v) = 1536 ->
  Query.search svc v (Query.top_k request) (Query.filters request)
  = Returns [] ->
  let run := Query.query_knowledge_base svc request in
  run.2 = Query.HTTPException 404
            "No relevant documents found. Please ingest URLs first using POST /ingest-url"
  /\ Query.is_processing_error run.2 = false
  /\ run.1 = [Query.EmbedQuery (Query.question request);
              Query.Search v (Query.top_k request) (Query.filters request)]
  /\ existsb Query.calls_generate run.1 = false.
Proof.
  intros Hinit Hemb Hlen Hsearch run. subst run.
  unfold Query.query_knowledge_base. rewrite Hinit, Hemb.
  assert (Hinv : Query.invalid_dimension v = false).
  { unfold Query.invalid_dimension. destruct v; [simpl in Hlen; lia |].
    apply negb_false_iff, Z.eqb_eq, Hlen. }
  rewrite Hinv, Hsearch. simpl. repeat split.
Qed.

Lemma no_results_is_not_found_witness :
  let svc := Query.mkServices (Returns tt)
               (fun _ => Returns (replicate 1536 (Float 0 0)))
               (fun _ _ _ => Returns []) (fun _ _ => Returns "unused")
               (fun x => x) 0 "" "" in
  (Query.query_knowledge_base svc (Query.mkRequest "q" 5 None)).2
  = Query.HTTPException 404
      "No relevant documents found. Please ingest URLs first using POST /ingest-url".
Proof.
  intros svc.
  apply (no_results_is_not_found svc (Query.mkRequest "q" 5 None)
           (replicate 1536 (Float 0 0))).
  - reflexivity.
  - reflexivity.
  - rewrite length_replicate. reflexivity.
  - reflexivity.
Defined.

(** ** Answer generation *)

(** The branch taken on the code's own test: when the first candidate
    of the model's response carries a finish reason that equals 2, or
    whose string form is SAFETY in any letter case, [generate_answer]
    returns the fixed refusal sentence, whatever text the response
    holds. *)
Lemma safety_refusal_returns_fixed_string
    (generate_content : string -> outcome LLM.Response)
    (question : string) (context_chunks : list LLM.Chunk)
    (response : LLM.Response) (candidate : LLM.Candidate)
    (others : list LLM.Candidate) (reason : LLM.FinishReason) :
  generate_content (LLM.build_prompt question context_chunks)
  = Returns response ->
  LLM.candidates response = Some (candidate :: others) ->
  LLM.finish_reason candidate = Some reason ->
  LLM.fr_int reason = Some 2
  \/ PyStr.upper (LLM.fr_str reason) = "SAFETY" ->
  LLM.generate_answer generate_content question context_chunks
  = Returns "I cannot answer this question based on the provided context.".
Proof.
  intros Hgen Hcands Hfr Hsafe. unfold LLM.generate_answer. rewrite Hgen.
  assert (Hs : LLM.signals_safety response = true).
  { unfold LLM.signals_safety. rewrite Hcands, Hfr. unfold LLM.is_safety.
    destruct Hsafe as [H | H].
    - rewrite bool_decide_eq_true_2 by exact H. reflexivity.
    - rewrite H. apply orb_true_r. }
  rewrite Hs. reflexivity.
Qed.

(** Among the SDK's finish reasons the code's test holds for
    [MAX_TOKENS] and for no other. *)
Lemma is_safety_sdk (py311 : bool) (r : LLM.SdkFinishReason) :
  LLM.is_safety (LLM.sdk_finish py311 r) = true <-> r = LLM.MAX_TOKENS.
Proof.
  destruct py311, r; split; intros H; try reflexivity; try discriminate H;
    vm_compute in H; discriminate H.
Qed.

(** C6: the code tests the finish reason against 2 and against the
    string SAFETY, but the SDK's safety finish reason has the value 3
    and a string form that is not SAFETY.  For a response whose first
    candidate was stopped by the safety filter, [generate_answer]
    therefore does not return the refusal sentence: it returns the
    response's text, stripped (the empty string when there is none), or
    raises what reading the text raises.  The refusal sentence is
    returned for the finish reason [MAX_TOKENS] instead, whose value
    is 2. *)
Theorem sdk_safety_reason_not_refused
    (generate_content : string -> outcome LLM.Response)
    (question : string) (context_chunks : list LLM.Chunk)
    (response : LLM.Response) (candidate : LLM.Candidate)
    (others : list LLM.Candidate) (py311 : bool)
    (reason : LLM.SdkFinishReason) :
  generate_content (LLM.build_prompt question context_chunks)
  = Returns response ->
  LLM.candidates response = Some (candidate :: others) ->
  LLM.finish_reason candidate = Some (LLM.sdk_finish py311 reason) ->
  let from_text :=
    match LLM.text response with
    | LLM.TextMissing => Returns ""
    | LLM.TextValue s => Returns (PyStr.strip s)
    | LLM.TextRaises exc => Raises exc
    end in
  LLM.generate_answer generate_content question context_chunks
  = match reason with
    | LLM.MAX_TOKENS =>
        Returns "I cannot answer this question based on the provided context."
    | _ => from_text
    end
  /\ (reason = LLM.SAFETY ->
      LLM.generate_answer generate_content question context_chunks
      = from_text).
Proof.
  intros Hgen Hcands Hfr from_text.
  assert (Hs : LLM.signals_safety response
               = LLM.is_safety (LLM.sdk_finish py311 reason)).
  { unfold LLM.signals_safety. now rewrite Hcands, Hfr. }
  assert (E : LLM.generate_answer generate_content question context_chunks
              = if LLM.is_safety (LLM.sdk_finish py311 reason)
                then Returns LLM.refusal else from_text).
  { unfold LLM.generate_answer. rewrite Hgen, Hs. reflexivity. }
  rewrite E. pose proof (is_safety_sdk py311 reason) as Hiff.
  destruct (LLM.is_safety (LLM.sdk_finish py311 reason)).
  - rewrite (proj1 Hiff eq_refl). split; [reflexivity | discriminate].
  - split; [| reflexivity].
    destruct reason; try reflexivity.
    discriminate (proj2 Hiff eq_refl).
Qed.

(** A response stopped by the safety filter, of which the SDK refuses
    to give a text: the error comes through, not the refusal
    sentence. *)
Lemma sdk_safety_reason_not_refused_witness :
  LLM.generate_answer (fun _ => Returns (LLM.blocked_response false)) "q" []
  = Raises (Exn "ValueError" "response.text requires a valid Part").
Proof.
  apply (proj2 (sdk_safety_reason_not_refused
                  (fun _ => Returns (LLM.blocked_response false)) "q" []
                  (LLM.blocked_response false)
                  (LLM.mkCandidate (Some (LLM.sdk_finish false LLM.SAFETY)))
                  [] false LLM.SAFETY eq_refl eq_refl eq_refl)).
  reflexivity.
Defined.

(** C7, as stated, fails: for a response without candidates whose text
    is empty, no safety refusal is signalled and [generate_answer]
    returns the empty string; nothing is raised. *)
Lemma empty_response_returns_normally :
  LLM.signals_safety LLM.empty_response = false
  /\ LLM.generate_answer (fun _ => Returns LLM.empty_response) "q" []
     = Returns "".
Proof. split; reflexivity. Qed.

(** C7, amended: [generate_answer] raises exactly when the model call
    raises, or when no safety refusal is signalled and reading the
    response's text raises; the error is the one raised there.  When no
    safety refusal is signalled and the response has no text attribute,
    or a text that is empty once stripped, it returns the empty string. *)
Theorem generate_answer_errors
    (generate_content : string -> outcome LLM.Response)
    (question : string) (context_chunks : list LLM.Chunk) :
  let prompt := LLM.build_prompt question context_chunks in
  let answer := LLM.generate_answer generate_content question context_chunks in
  (forall exc, answer = Raises exc <->
     generate_content prompt = Raises exc
     \/ exists response,
          generate_content prompt = Returns response
          /\ LLM.signals_safety response = false
          /\ LLM.text response = LLM.TextRaises exc)
  /\ (forall response,
        generate_content prompt = Returns response ->
        LLM.signals_safety response = false ->
        LLM.text response = LLM.TextMissing
        \/ (exists s, LLM.text response = LLM.TextValue s
                      /\ PyStr.strip s = "") ->
        answer = Returns "").
Proof.
  intros prompt answer. subst prompt answer. unfold LLM.generate_answer.
  split.
  - intros exc. destruct (generate_content _) as [response | e].
    + destruct (LLM.signals_safety response) eqn:Hs.
      * split; [discriminate |].
        intros [[=] | (r & [= <-] & Hs' & _)]. congruence.
      * destruct (LLM.text response) eqn:Ht.
        -- split; [discriminate |].
           intros [[=] | (r & [= <-] & _ & Ht')]. congruence.
        -- split; [discriminate |].
           intros [[=] | (r & [= <-] & _ & Ht')]. congruence.
        -- split.
           ++ intros [= ->]. right. eauto.
           ++ intros [[=] | (r & [= <-] & _ & Ht')]. congruence.
    + split.
      * intros [= ->]. now left.
      * intros [[= ->] | (r & [=] & _)]. reflexivity.
  - intros response Hgen Hs Htext. rewrite Hgen, Hs.
    destruct Htext as [-> | (s & -> & Hstrip)]; [reflexivity |].
    now rewrite Hstrip.
Qed.

Lemma generate_answer_errors_witness :
  LLM.generate_answer (fun _ => Returns LLM.empty_response) "q" []
  = Returns "".
Proof.
  apply (proj2 (generate_answer_errors
                  (fun _ => Returns LLM.empty_response) "q" [])
           LLM.empty_response).
  - reflexivity.
  - reflexivity.
  - right. exists "". split; reflexivity.
Defined.

(** ** Whitespace normalisation *)

Section Whitespace.
Import PyStr.
Implicit Types (s r w : string) (c : ascii) (ws : list string).

Lemma chars_app s r : chars (s ++ r) = (chars s ++ chars r)%list.
Proof.
  unfold chars. induction s as [| a s IH]; [reflexivity |].
  change (String a s ++ r)%string with (String a (s ++ r)).
  simpl. now rewrite IH.
Qed.

Lemma append_empty_r s : (s ++ "")%string = s.
Proof.
  induction s as [| a s IH]; [reflexivity |].
  change (String a s ++ "")%string with (String a (s ++ "")). now rewrite IH.
Qed.

Lemma append_assoc s r w : ((s ++ r) ++ w)%string = (s ++ (r ++ w))%string.
Proof.
  induction s as [| a s IH]; [reflexivity |].
  change (String a (s ++ r) ++ w = String a (s ++ (r ++ w)))%string.
  change (String a ((s ++ r) ++ w) = String a (s ++ (r ++ w)))%string.
  now rewrite IH.
Qed.

Lemma word_cons_inv c w :
  word (String c w) -> isspace c = false /\ (w = EmptyString \/ word w).
Proof.
  intros [_ H]. unfold chars in H. simpl in H. inversion H; subst.
  split; [assumption |]. destruct w; [now left | right].
  split; [discriminate | assumption].
Qed.

Lemma word_cons c w :
  isspace c = false -> w = EmptyString \/ word w -> word (String c w).
Proof.
  intros Hc Hw. split; [discriminate |]. unfold chars. simpl.
  constructor; [assumption |]. destruct Hw as [-> | [_ H]]; [constructor | exact H].
Qed.

Lemma split_words s : Forall word (split s).
Proof.
  induction s as [| c s IH]; [constructor |]. simpl.
  destruct (isspace c) eqn:Hc; [exact IH |].
  destruct s as [| c' s'].
  { constructor; [| constructor]. apply word_cons; auto. }
  destruct (isspace c') eqn:Hc'.
  { constructor; [apply word_cons; auto | exact IH]. }
  destruct (split (String c' s')) as [| w ws].
  { constructor; [apply word_cons; auto | constructor]. }
  inversion IH; subst. constructor; [apply word_cons; auto | assumption].
Qed.

(** A word followed by nothing, or by a whitespace character, is the
    first word found. *)
Lemma split_word_app w r :
  word w ->
  r = EmptyString \/ (exists c r', r = String c r' /\ isspace c = true) ->
  split (w ++ r) = w :: split r.
Proof.
  induction w as [| c w IH]; intros Hw Hr; [now destruct Hw |].
  apply word_cons_inv in Hw as [Hc [-> | Hw]].
  - change (String c "" ++ r)%string with (String c r).
    cbn [split]. rewrite Hc.
    destruct Hr as [-> | (c' & r' & -> & Hc')]; [reflexivity |].
    now rewrite Hc'.
  - specialize (IH Hw Hr).
    destruct w as [| c' w']; [now destruct Hw |].
    change (String c (String c' w') ++ r)%string
      with (String c (String c' (w' ++ r))).
    change (String c' w' ++ r)%string with (String c' (w' ++ r)) in IH.
    cbn [split]. cbn [split] in IH.
    apply word_cons_inv in Hw as [Hc' _]. rewrite Hc, Hc'.
    rewrite Hc' in IH. rewrite IH. reflexivity.
Qed.

Lemma join_cons2 sep w w' ws :
  join sep (w :: w' :: ws) = (w ++ sep ++ join sep (w' :: ws))%string.
Proof. reflexivity. Qed.

Lemma split_join ws : Forall word ws -> split (join " " ws) = ws.
Proof.
  induction ws as [| w ws IH]; intros H; [reflexivity |].
  inversion H as [| ? ? Hw Hws]; subst. destruct ws as [| w' ws].
  - simpl. rewrite <- (append_empty_r w) at 1.
    rewrite split_word_app; auto.
  - rewrite join_cons2. rewrite split_word_app; [| assumption |].
    + f_equal. change (" " ++ join " " (w' :: ws))%string
        with (String " " (join " " (w' :: ws))).
      cbn [split]. change (isspace " ") with true. cbn iota. auto.
    + right. exists " "%char, (join " " (w' :: ws)). split; reflexivity.
Qed.

Lemma word_head w :
  word w -> exists c w', w = String c w' /\ isspace c = false.
Proof.
  destruct w as [| c w']; intros Hw; [now destruct Hw |].
  apply word_cons_inv in Hw as [Hc _]. eauto.
Qed.

Lemma join_head w ws :
  word w -> exists c r, join " " (w :: ws) = String c r /\ isspace c = false.
Proof.
  intros Hw. destruct (word_head w Hw) as (c & w' & -> & Hc).
  destruct ws as [| w2 ws]; [simpl; eauto |].
  rewrite join_cons2. eexists c, _. split; [reflexivity | assumption].
Qed.

Lemma lstrip_join ws : Forall word ws -> lstrip (join " " ws) = join " " ws.
Proof.
  destruct ws as [| w ws]; intros H; [reflexivity |].
  inversion H; subst. destruct (join_head w ws) as (c & r & -> & Hc); auto.
  simpl. now rewrite Hc.
Qed.

Lemma rstrip_word w : word w -> rstrip w = w.
Proof.
  induction w as [| c w IH]; intros Hw; [now destruct Hw |].
  apply word_cons_inv in Hw as [Hc [-> | Hw]].
  - simpl. now rewrite Hc.
  - simpl. rewrite (IH Hw). destruct w; [now destruct Hw | reflexivity].
Qed.

Lemma rstrip_app_word s w : word w -> rstrip (s ++ w) = (s ++ w)%string.
Proof.
  intros Hw. induction s as [| a s IH]; [now apply rstrip_word |].
  change (String a s ++ w)%string with (String a (s ++ w)).
  cbn [rstrip]. rewrite IH.
  destruct (s ++ w)%string eqn:E; [| reflexivity].
  destruct s; [| discriminate]. simpl in E. subst. now destruct Hw.
Qed.

Lemma join_last w ws :
  Forall word (w :: ws) ->
  exists s w', word w' /\ join " " (w :: ws) = (s ++ w')%string.
Proof.
  revert w. induction ws as [| w2 ws IH]; intros w H.
  - inversion H; subst. exists "", w. split; [assumption | reflexivity].
  - inversion H as [| ? ? Hw Hrest]; subst.
    destruct (IH w2 Hrest) as (s & w' & Hw' & E).
    exists (w ++ " " ++ s)%string, w'. split; [assumption |].
    rewrite join_cons2, E. now rewrite !append_assoc.
Qed.

Lemma strip_join ws : Forall word ws -> strip (join " " ws) = join " " ws.
Proof.
  intros H. unfold strip. rewrite lstrip_join by assumption.
  destruct ws as [| w ws]; [reflexivity |].
  destruct (join_last w ws H) as (s & w' & Hw' & ->).
  now apply rstrip_app_word.
Qed.

Lemma space_is_space c : isspace c = false -> c <> " "%char.
Proof. intros H ->. discriminate. Qed.

(** No two consecutive spaces. *)
Lemma contains_2sp_cons c s :
  c <> " "%char -> contains "  " (String c s) = contains "  " s.
Proof.
  intros Hc. cbn [contains startswith].
  destruct (Ascii.eqb_spec " " c) as [E | _]; [now subst |]. reflexivity.
Qed.

Lemma contains_2sp_space c r :
  c <> " "%char ->
  contains "  " (String " " (String c r)) = contains "  " (String c r).
Proof.
  intros Hc.
  change (contains "  " (String " " (String c r)))
    with (startswith "  " (String " " (String c r))
          || contains "  " (String c r)).
  cbn [startswith]. change (Ascii.eqb " " " ") with true. cbn iota.
  destruct (Ascii.eqb_spec " " c) as [E | _]; [now subst | reflexivity].
Qed.

Lemma contains_2sp_word w r :
  Forall (fun c => isspace c = false) (chars w) ->
  contains "  " (w ++ r) = contains "  " r.
Proof.
  induction w as [| c w IH]; intros H; [reflexivity |].
  unfold chars in H. simpl in H. inversion H; subst.
  change (String c w ++ r)%string with (String c (w ++ r)).
  rewrite contains_2sp_cons by now apply space_is_space. now apply IH.
Qed.

Lemma contains_2sp_join ws :
  Forall word ws -> contains "  " (join " " ws) = false.
Proof.
  induction ws as [| w ws IH]; intros H; [reflexivity |].
  inversion H as [| ? ? Hw Hws]; subst. destruct ws as [| w2 ws].
  - simpl. rewrite <- (append_empty_r w).
    rewrite contains_2sp_word; [reflexivity | apply Hw].
  - rewrite join_cons2, contains_2sp_word by apply Hw.
    specialize (IH Hws). inversion Hws; subst.
    destruct (join_head w2 ws) as (c & r & E & Hc); [assumption |].
    rewrite E in IH |- *.
    change (" " ++ String c r)%string with (String " " (String c r)).
    rewrite contains_2sp_space by now apply space_is_space. exact IH.
Qed.

(** Every whitespace character left is the ASCII space. *)
Lemma chars_join ws c :
  Forall word ws -> c ∈ chars (join " " ws) -> isspace c = true ->
  c = " "%char.
Proof.
  induction ws as [| w ws IH]; intros H Hin Hc.
  - inversion Hin.
  - inversion H as [| ? ? Hw Hws]; subst. destruct ws as [| w2 ws].
    + simpl in Hin. destruct Hw as [_ Hw].
      rewrite Forall_forall in Hw. rewrite (Hw c Hin) in Hc. discriminate.
    + rewrite join_cons2, !chars_app in Hin.
      apply elem_of_app in Hin as [Hin | Hin].
      * destruct Hw as [_ Hw]. rewrite Forall_forall in Hw.
        rewrite (Hw c Hin) in Hc. discriminate.
      * apply elem_of_app in Hin as [Hin | Hin]; [| now apply IH].
        unfold chars in Hin. simpl in Hin.
        now apply list_elem_of_singleton in Hin.
Qed.

End Whitespace.

(** ** HTML cleaning *)

Section CleanHtml.
Import ContentProcessor.
Implicit Types (n c : node) (names : list string) (s t : string).

(** No element named in [names] is left below a decomposed tree. *)
Lemma element_tags_decompose names n :
  has_tag names n = false ->
  Forall (fun t => t ∉ names) (element_tags (decompose names n)).
Proof.
  induction n as [s | s | t cs IH] using node_ind; intros Htag;
    [constructor | constructor |].
  cbn [decompose element_tags]. constructor.
  { simpl in Htag. now apply bool_decide_eq_false in Htag. }
  apply List.Forall_forall. intros t' Hin.
  apply in_flat_map in Hin as (c' & Hc' & Hin).
  apply in_flat_map in Hc' as (c & Hc & Hc').
  destruct (has_tag names c) eqn:Hk; [contradiction |].
  destruct Hc' as [<- | []].
  rewrite List.Forall_forall in IH. specialize (IH c Hc Hk).
  rewrite List.Forall_forall in IH. now apply IH.
Qed.

Lemma descendant_tags_decompose names n :
  Forall (fun t => t ∉ names) (descendant_tags (decompose names n)).
Proof.
  destruct n as [s | s | t cs]; [constructor | constructor |].
  cbn [decompose descendant_tags].
  apply List.Forall_forall. intros t' Hin.
  apply in_flat_map in Hin as (c' & Hc' & Hin).
  apply in_flat_map in Hc' as (c & Hc & Hc').
  destruct (has_tag names c) eqn:Hk; [contradiction |].
  destruct Hc' as [<- | []].
  pose proof (element_tags_decompose names c Hk) as H.
  rewrite List.Forall_forall in H. now apply H.
Qed.

(** The text nodes kept are those not inside a removed element. *)
Lemma all_strings_decompose names n s :
  s ∈ all_strings (decompose names n) <-> shows names n s.
Proof.
  revert s. induction n as [s' | s' | t cs IH] using node_ind; intros s.
  - simpl. split.
    + intros ->%list_elem_of_singleton. constructor.
    + inversion 1; subst. now apply list_elem_of_singleton.
  - simpl. split; [intros H; inversion H | inversion 1].
  - cbn [decompose all_strings]. rewrite list_elem_of_In, in_flat_map.
    rewrite List.Forall_forall in IH. split.
    + intros (c' & Hc' & Hin).
      apply in_flat_map in Hc' as (c & Hc & Hc').
      destruct (has_tag names c) eqn:Hk; [contradiction |].
      destruct Hc' as [<- | []].
      apply shows_child with (c := c);
        [now apply list_elem_of_In | assumption |].
      apply IH; [assumption | now apply list_elem_of_In].
    + inversion 1 as [| ? ? c ? Hc Hk Hs]; subst.
      apply list_elem_of_In in Hc.
      exists (decompose names c). split.
      * apply in_flat_map. exists c. split; [assumption |].
        rewrite Hk. now left.
      * apply list_elem_of_In, IH; assumption.
Qed.

(** [find] answers with an element of the requested name. *)
Lemma find_named name n b :
  find name n = Some b -> exists cs, b = Element name cs.
Proof.
  revert b. induction n as [s | s | t cs IH] using node_ind; intros b;
    [discriminate | discriminate |].
  cbn [find]. induction cs as [| c cs IHcs]; [discriminate |].
  inversion IH as [| ? ? Hc Hcs]; subst.
  destruct (has_tag [name] c) eqn:Hk.
  - intros [= <-]. destruct c as [| | t' cs']; try discriminate.
    simpl in Hk. apply bool_decide_eq_true in Hk.
    apply list_elem_of_singleton in Hk. subst. eauto.
  - destruct (find name c) as [r |] eqn:Hf.
    + intros [= <-]. now apply Hc.
    + now apply IHcs.
Qed.

End CleanHtml.

Section VisibleText.
Import PyStr ContentProcessor.
Implicit Types (n c b : node) (names : list string) (s r t : string).

Lemma split_nonspace_cons (a : ascii) s :
  isspace a = false -> split (String a s) <> [].
Proof.
  intros Ha. cbn [split]. rewrite Ha.
  destruct s as [| a' s']; [discriminate |].
  destruct (isspace a'); [discriminate |].
  destruct (split (String a' s')); discriminate.
Qed.

(** Splitting on both sides of a space. *)
Lemma split_app_space s r :
  split (s ++ " " ++ r) = (split s ++ split r)%list.
Proof.
  induction s as [| a s IH].
  - change ("" ++ " " ++ r)%string with (String " " r). reflexivity.
  - change (String a s ++ " " ++ r)%string with (String a (s ++ " " ++ r)).
    cbn [split]. destruct (isspace a) eqn:Ha; [exact IH |].
    destruct s as [| a' s'].
    + change ("" ++ " " ++ r)%string with (String " " r).
      change (isspace " ") with true. cbn iota. reflexivity.
    + change (String a' s' ++ " " ++ r)%string
        with (String a' (s' ++ " " ++ r)) in IH |- *.
      cbv beta iota. destruct (isspace a') eqn:Ha'.
      * rewrite IH. reflexivity.
      * rewrite IH.
        pose proof (split_nonspace_cons a' s' Ha') as Hne.
        destruct (split (String a' s')) as [| w ws]; [contradiction |].
        reflexivity.
Qed.

(** The words of strings joined by spaces are the words of the strings. *)
Lemma split_join_space (l : list string) :
  split (join " " l) = flat_map split l.
Proof.
  induction l as [| s l IH]; [reflexivity |].
  destruct l as [| s' l].
  - simpl. now rewrite app_nil_r.
  - rewrite join_cons2, split_app_space, IH. reflexivity.
Qed.

Lemma has_tag_decompose names names' n :
  has_tag names' (decompose names n) = has_tag names' n.
Proof. now destruct n. Qed.

(** Removing the listed elements and collecting the text nodes that
    are left gives the visible text nodes, in order. *)
Lemma all_strings_shown names n :
  all_strings (decompose names n) = shown names n.
Proof.
  induction n as [s | s | t cs IH] using node_ind; [reflexivity .. |].
  cbn [decompose all_strings shown].
  induction cs as [| c cs IHcs]; [reflexivity |].
  inversion IH as [| ? ? Hc Hcs]; subst.
  cbn [flat_map]. rewrite flat_map_app, IHcs by assumption.
  destruct (has_tag names c); [reflexivity |].
  cbn [flat_map]. rewrite app_nil_r, Hc. reflexivity.
Qed.

Lemma shown_shows names n s : s ∈ shown names n <-> shows names n s.
Proof. rewrite <- all_strings_shown. apply all_strings_decompose. Qed.

Lemma find_app_nodes (p : node -> bool) (l1 l2 : list node) :
  List.find p (l1 ++ l2)
  = match List.find p l1 with Some r => Some r | None => List.find p l2 end.
Proof.
  induction l1 as [| c l1 IH]; [reflexivity |].
  simpl. now destruct (p c).
Qed.

(** The element [find] meets first in the cleaned tree is the cleaned
    copy of the first kept element of that name in the page. *)
Lemma find_decompose names name n :
  find name (decompose names n)
  = decompose names <$> List.find (has_tag [name]) (kept_elements names n).
Proof.
  induction n as [s | s | t cs IH] using node_ind; [reflexivity .. |].
  cbn [decompose find kept_elements].
  induction cs as [| c cs IHcs]; [reflexivity |].
  inversion IH as [| ? ? Hc Hcs]; subst. specialize (IHcs Hcs).
  cbn [flat_map]. destruct (has_tag names c) eqn:Hk; [exact IHcs |].
  cbn [app]. rewrite has_tag_decompose, Hc, find_app_nodes.
  destruct c as [s | s | t' cs'].
  - cbn [has_tag kept_elements List.find fmap option_fmap option_map].
    exact IHcs.
  - cbn [has_tag kept_elements List.find fmap option_fmap option_map].
    exact IHcs.
  - cbn [List.find]. destruct (has_tag [name] (Element t' cs')); [reflexivity |].
    destruct (List.find (has_tag [name]) (kept_elements names (Element t' cs')));
      [reflexivity |].
    exact IHcs.
Qed.

Lemma visible_text names n :
  let soup := decompose names n in
  let region := default soup (find "body" soup) in
  split (get_text " " region) = visible_words names n.
Proof.
  intros soup region. subst soup region.
  unfold get_text, visible_words, body_of.
  rewrite split_join_space, find_decompose.
  destruct (List.find _ _) as [b |]; cbn [fmap option_fmap option_map default from_option id];
    now rewrite all_strings_shown.
Qed.

End VisibleText.

(** C9: for every parser and every input, with [page] the parsed page:
    (1) no script, style, nav, footer, header or noscript element is
    left in the tree the text is taken from; (2) the result is made of
    the words of the text nodes of the page's body (of the whole page
    when it has no body) that lie outside every such element, in
    document order, joined by single ASCII spaces; (3) it has no
    whitespace at either end, no two consecutive spaces and no
    whitespace character other than the space; (4) the tree of
    [Hello <script>bad()</script> World] cleans to [Hello World], a
    page with title, style sheet, header, footer and comment to the
    words of its paragraph, and a fragment without body to all its
    words. *)
Theorem clean_html_normalizes (parse : string -> ContentProcessor.node)
    (html : string) :
  let removed := ["script"; "style"; "nav"; "footer"; "header"; "noscript"] in
  let page := parse html in
  let region := default page (ContentProcessor.body_of removed page) in
  let out := ContentProcessor.clean_html parse html in
  (Forall (fun t => t ∉ removed)
          (ContentProcessor.descendant_tags
             (ContentProcessor.decompose removed page))
   /\ forall s, s ∈ ContentProcessor.shown removed region
                <-> ContentProcessor.shows removed region s)
  /\ out = PyStr.join " "
             (flat_map PyStr.split (ContentProcessor.shown removed region))
  /\ (PyStr.split out
      = flat_map PyStr.split (ContentProcessor.shown removed region)
      /\ PyStr.strip out = out
      /\ PyStr.contains "  " out = false
      /\ forall c, c ∈ PyStr.chars out -> PyStr.isspace c = true ->
                   c = " "%char)
  /\ ((parse ContentProcessor.hello_html = ContentProcessor.hello_tree ->
       ContentProcessor.clean_html parse ContentProcessor.hello_html
       = "Hello World")
      /\ (page = ContentProcessor.article_tree -> out = "Hello World")
      /\ (page = ContentProcessor.fragment_tree -> out = "plain text")).
Proof.
  intros removed page region out.
  change removed with ContentProcessor.unwanted_tags in *.
  assert (Hout : out = PyStr.join " "
                         (ContentProcessor.visible_words
                            ContentProcessor.unwanted_tags page)).
  { subst out. unfold ContentProcessor.clean_html,
      ContentProcessor.normalize_whitespace.
    rewrite <- visible_text. fold page.
    destruct (ContentProcessor.find _ _); reflexivity. }
  assert (Hwords : Forall PyStr.word
                     (ContentProcessor.visible_words
                        ContentProcessor.unwanted_tags page)).
  { rewrite <- visible_text. apply split_words. }
  split; [split |].
  - apply descendant_tags_decompose.
  - intros s. apply shown_shows.
  - split; [exact Hout |]. split.
    + rewrite Hout. split; [now apply split_join |].
      split; [now apply strip_join |].
      split; [now apply contains_2sp_join |].
      intros c. now apply chars_join.
    + split; [| split].
      * intros Hparse. unfold ContentProcessor.clean_html.
        rewrite Hparse. reflexivity.
      * intros Hpage. rewrite Hout, Hpage. reflexivity.
      * intros Hpage. rewrite Hout, Hpage. reflexivity.
Qed.

(** The article page, through the characterisation of the result. *)
Lemma clean_html_normalizes_witness :
  ContentProcessor.clean_html (fun _ => ContentProcessor.article_tree)
    "<html>...</html>"
  = "Hello World"
  /\ ContentProcessor.clean_html (fun _ => ContentProcessor.hello_tree)
       ContentProcessor.hello_html
     = "Hello World".
Proof.
  split.
  - rewrite (proj1 (proj2 (clean_html_normalizes
                             (fun _ => ContentProcessor.article_tree)
                             "<html>...</html>"))).
    reflexivity.
  - apply (proj1 (proj2 (proj2 (proj2
             (clean_html_normalizes (fun _ => ContentProcessor.hello_tree)
                ContentProcessor.hello_html))))).
    reflexivity.
Defined.

(** ** Worker-side ledger update *)

Section SyncUpdate.
Import Ledger.
Variable json_dumps : Value -> string.
Implicit Types (row : gmap string Value) (kwargs : list (string * Value))
  (clauses : list (string * Value)) (c k status job_id : string).

Lemma apply_set_notin clauses row c :
  ~ In c (clauses.*1) -> apply_set clauses row !! c = row !! c.
Proof.
  unfold apply_set. revert row.
  induction clauses as [| [c' v] cl IH]; intros row Hnot; [reflexivity |].
  simpl in *. rewrite IH by tauto. apply lookup_insert_ne. tauto.
Qed.

Lemma apply_set_in clauses row c v :
  List.NoDup (clauses.*1) -> In (c, v) clauses ->
  apply_set clauses row !! c = Some v.
Proof.
  unfold apply_set. revert row.
  induction clauses as [| [c' v'] cl IH]; intros row Hnd Hin; [destruct Hin |].
  simpl in *. inversion Hnd as [| ? ? Hnot Hnd']; subst.
  destruct Hin as [[= -> ->] | Hin].
  - pose proof (apply_set_notin cl (<[c:=v]> row) c Hnot) as E.
    unfold apply_set in E. rewrite E. apply lookup_insert_eq.
  - now apply IH.
Qed.

(** The columns of the [SET] list. *)
Lemma set_clauses_columns status kwargs :
  (set_clauses json_dumps status kwargs).*1
  = "status" :: List.filter (passed kwargs) recognized.
Proof.
  unfold set_clauses, mapping_fields, recognized, passed. simpl.
  repeat match goal with
         | |- context [kw_get ?k kwargs] => destruct (kw_get k kwargs)
         end; reflexivity.
Qed.

Lemma set_clauses_nodup status kwargs :
  List.NoDup ((set_clauses json_dumps status kwargs).*1).
Proof.
  rewrite set_clauses_columns. constructor.
  - rewrite filter_In. intros [Hin _].
    apply list_elem_of_In in Hin. unfold recognized in Hin.
    repeat (apply elem_of_cons in Hin as [Hin | Hin]; [discriminate |]).
    inversion Hin.
  - apply List.NoDup_filter. unfold recognized.
    apply NoDup_ListNoDup, (bool_decide_unpack _). vm_compute. exact I.
Qed.

Lemma set_clauses_value status kwargs k v :
  k ∈ recognized -> kw_get k kwargs = Some v ->
  In (k, written_value json_dumps k v) (set_clauses json_dumps status kwargs).
Proof.
  intros Hk Hv. unfold set_clauses.
  apply in_or_app. right. apply in_or_app.
  unfold recognized in Hk.
  repeat (apply elem_of_cons in Hk as [-> | Hk]; [|]).
  all: try (left; apply in_flat_map;
            match goal with
            | |- exists x, _ /\ In (?k, _) _ => exists (k, k)
            end;
            split; [unfold mapping_fields; simpl; tauto |];
            cbn [fst snd]; rewrite Hv; now left).
  - right. rewrite Hv. now left.
  - inversion Hk.
Qed.



(** What the [SET] list does to a row. *)
Lemma apply_set_clauses status kwargs row :
  let row' := apply_set (set_clauses json_dumps status kwargs) row in
  row' !! "status" = Some (VStr status)
  /\ (forall k v, k ∈ recognized -> kw_get k kwargs = Some v ->
        row' !! k = Some (written_value json_dumps k v))
  /\ (forall c, c <> "status" -> c ∉ recognized \/ kw_get c kwargs = None ->
        row' !! c = row !! c).
Proof.
  intros row'. subst row'. pose proof (set_clauses_nodup status kwargs) as Hnd.
  split; [| split].
  - apply apply_set_in; [assumption |]. unfold set_clauses. now left.
  - intros k v Hk Hv. apply apply_set_in; [assumption |].
    now apply set_clauses_value.
  - intros c Hc Hout. apply apply_set_notin.
    rewrite set_clauses_columns. intros [E | Hin]; [congruence |].
    apply filter_In in Hin as [Hin Hp]. apply list_elem_of_In in Hin.
    destruct Hout as [Hout | Hout]; [contradiction |].
    unfold passed in Hp. now rewrite Hout in Hp.
Qed.

End SyncUpdate.

(** ** Job ledger invariant *)

Section LedgerInvariant.
Import Ledger.
Implicit Types (t : list (gmap string Value)) (row job : gmap string Value)
  (kwargs : list (string * Value)) (c k status job_id : string).

Lemma ck_status_allowed row : ck_status_values row = true -> status_allowed row.
Proof.
  unfold ck_status_values, status_allowed.
  destruct (row !! "status") as [[| s | | | |] |]; try discriminate.
  intros H%bool_decide_eq_true. eauto.
Qed.

Lemma constraints_status t :
  constraints_ok t = true -> Forall status_allowed t.
Proof.
  unfold constraints_ok. intros [H _]%andb_true_iff.
  rewrite forallb_forall in H. apply Forall_forall. intros row Hin.
  apply ck_status_allowed, H. now apply list_elem_of_In.
Qed.

(** A commit either installs a table that meets the constraints, or
    leaves the old one. *)
Lemma commit_cases {A : Type} (old new : list (gmap string Value)) (ret : A) :
  (constraints_ok new = true /\ commit old new ret = (new, Returns ret))
  \/ (exists exc, commit old new ret = (old, Raises exc)).
Proof.
  unfold commit. destruct (constraints_ok new); [left | right]; eauto.
Qed.

Lemma step_status t t' :
  step t t' -> Forall status_allowed t -> Forall status_allowed t'.
Proof.
  intros Hstep Hall. destruct Hstep.
  - unfold create_job.
    destruct (commit_cases t (t ++ [new_job new_id now url metadata])
                (new_job new_id now url metadata)) as [[Hok ->] | [exc ->]];
      [now apply constraints_status | assumption].
  - unfold update_job_status.
    destruct (get_job_by_id t job_id) as [job |]; [| assumption].
    match goal with
    | |- context [commit t ?new ?ret] =>
        destruct (commit_cases t new ret) as [[Hok ->] | [exc ->]]
    end; [now apply constraints_status | assumption].
  - unfold update_job_status_sync. destruct connect; [| assumption].
    match goal with
    | |- context [commit t ?new ?ret] =>
        destruct (commit_cases t new ret) as [[Hok ->] | [exc ->]]
    end; [now apply constraints_status | assumption].
Qed.

Lemma reachable_status t : reachable t -> Forall status_allowed t.
Proof.
  induction 1 as [| t t' _ IH Hstep]; [constructor |].
  eapply step_status; eassumption.
Qed.

(** The column an assignment of keyword [k] stores to. *)
Lemma set_attr_other row k v c :
  k <> c ->
  c = "status" \/ c = "completed_at" ->
  set_attr row (k, v) !! c = row !! c.
Proof.
  intros Hk Hc. unfold set_attr.
  destruct (String.eqb_spec k "metadata") as [-> | Hm].
  { apply lookup_insert_ne. destruct Hc as [-> | ->]; discriminate. }
  unfold attr_column. case_bool_decide as Hin.
  { apply lookup_insert_ne. congruence. }
  destruct (String.eqb_spec k "metadata_json") as [-> | _]; [| reflexivity].
  apply lookup_insert_ne. destruct Hc as [-> | ->]; discriminate.
Qed.

Lemma set_attr_same row c v :
  c = "status" \/ c = "completed_at" ->
  set_attr row (c, v) !! c = Some v.
Proof.
  intros [-> | ->]; unfold set_attr; simpl; apply lookup_insert_eq.
Qed.

Lemma foldl_set_attr_absent kwargs row c :
  c = "status" \/ c = "completed_at" ->
  c ∉ kwargs.*1 -> foldl set_attr row kwargs !! c = row !! c.
Proof.
  intros Hc. revert row.
  induction kwargs as [| [k v] rest IH]; intros row Hnot; [reflexivity |].
  rewrite fmap_cons in Hnot. apply not_elem_of_cons in Hnot as [Hne Hnot].
  cbn [foldl]. rewrite IH by assumption. apply set_attr_other; auto.
Qed.

Lemma kw_get_absent kwargs c : c ∉ kwargs.*1 -> kw_get c kwargs = None.
Proof.
  induction kwargs as [| [k v] rest IH]; intros Hnot; [reflexivity |].
  rewrite fmap_cons in Hnot. apply not_elem_of_cons in Hnot as [Hne Hnot].
  cbn [kw_get]. destruct (String.eqb_spec k c) as [-> | _]; [contradiction |].
  now apply IH.
Qed.

Lemma foldl_set_attr_completed_at kwargs row :
  NoDup (kwargs.*1) ->
  col (foldl set_attr row kwargs) "completed_at"
  = final_completed_at kwargs row.
Proof.
  unfold final_completed_at, col. revert row.
  induction kwargs as [| [k v] rest IH]; intros row Hnd; [reflexivity |].
  rewrite fmap_cons in Hnd. apply NoDup_cons in Hnd as [Hnot Hnd].
  cbn [foldl kw_get fst]. rewrite IH by assumption.
  destruct (String.eqb_spec k "completed_at") as [-> | Hk].
  - rewrite kw_get_absent by assumption.
    rewrite set_attr_same by auto. reflexivity.
  - destruct (kw_get "completed_at" rest); [reflexivity |].
    rewrite set_attr_other by auto. reflexivity.
Qed.

Lemma update_job_status_commits t job_id status kwargs job :
  get_job_by_id t job_id = Some job ->
  let job' := foldl set_attr (<["status" := VStr status]> job) kwargs in
  constraints_ok (replace_first job_id job' t) = true ->
  update_job_status t job_id status kwargs
  = (replace_first job_id job' t, Returns (Some job')).
Proof.
  intros Hget job' Hok. unfold update_job_status, commit.
  rewrite Hget. fold job'. now rewrite Hok.
Qed.

Lemma create_job_commits new_id now t url metadata :
  let job := new_job new_id now url metadata in
  constraints_ok (t ++ [job])%list = true ->
  create_job new_id now t url metadata = ((t ++ [job])%list, Returns job).
Proof. intros job Hok. unfold create_job, commit. fold job. now rewrite Hok. Qed.

Lemma demo_job_found : get_job_by_id [demo_job] "job-1" = Some demo_job.
Proof.
  unfold get_job_by_id. cbn [List.find].
  assert (E : has_id "job-1" demo_job = true) by (vm_compute; reflexivity).
  now rewrite E.
Qed.

Lemma replace_first_elem job_id job job' t :
  get_job_by_id t job_id = Some job -> job' ∈ replace_first job_id job' t.
Proof.
  unfold get_job_by_id. induction t as [| r rest IH]; [discriminate |].
  simpl. destruct (has_id job_id r); intros H.
  - apply list_elem_of_here.
  - apply list_elem_of_further, IH, H.
Qed.

Lemma sql_update_elem clauses job_id row t :
  get_job_by_id t job_id = Some row ->
  apply_set clauses row ∈ sql_update clauses job_id t.
Proof.
  unfold get_job_by_id, sql_update. intros H.
  apply find_some in H as [Hin Hid]. apply list_elem_of_In in Hin.
  apply list_elem_of_fmap. exists row. now rewrite Hid.
Qed.

Lemma constraints_elem t row status :
  constraints_ok t = true -> row ∈ t ->
  row !! "status" = Some (VStr status) -> status ∈ allowed_statuses.
Proof.
  intros Hok Hin Hst. apply constraints_status in Hok.
  rewrite Forall_forall in Hok. destruct (Hok row Hin) as (s & Hs & Hall).
  congruence.
Qed.

(** With the status written and allowed, the invariant of the row comes
    down to the [completed_at] value. *)
Lemma job_invariant_iff row status :
  row !! "status" = Some (VStr status) -> status ∈ allowed_statuses ->
  job_invariant row
  <-> (col row "completed_at" <> VNone
       <-> status = "completed" \/ status = "failed").
Proof.
  intros Hst Hall. unfold job_invariant, completed_at_set, is_terminal.
  rewrite Hst.
  assert (Hterm : Some (VStr status) = Some (VStr "completed")
                  \/ Some (VStr status) = Some (VStr "failed")
                  <-> status = "completed" \/ status = "failed").
  { split; (intros [H | H]; [left | right]; congruence). }
  rewrite Hterm. split; [tauto |].
  intros H. split; [unfold status_allowed; eauto | exact H].
Qed.

End LedgerInvariant.

(** C3, as stated, fails: creating a job and then recording an enqueue
    failure, [update_job_status(job.id, "failed", error_message=...)] as
    the submission handler does, reaches a ledger whose job is [failed]
    with [completed_at] still null. *)
Lemma failed_job_without_completed_at :
  Ledger.reachable Ledger.failed_table
  /\ ~ Forall Ledger.job_invariant Ledger.failed_table.
Proof.
  split.
  - unfold Ledger.failed_table.
    eapply Ledger.reachable_step; [| apply Ledger.step_update].
    eapply Ledger.reachable_step; [apply Ledger.reachable_empty |].
    apply Ledger.step_create.
  - unfold Ledger.failed_table.
    rewrite create_job_commits by (vm_compute; reflexivity).
    cbn [fst app]. fold Ledger.demo_job.
    rewrite (update_job_status_commits _ _ _ _ _ demo_job_found)
      by (vm_compute; reflexivity).
    cbn [fst Ledger.replace_first].
    assert (E : Ledger.has_id "job-1" Ledger.demo_job = true)
      by (vm_compute; reflexivity).
    rewrite E. intros H. inversion H as [| ? ? [_ [_ Hterm]] _]; subst.
    apply Hterm; [right |]; vm_compute; reflexivity.
Qed.

(** C3, amended: in every ledger reachable through the API each job's
    status is one of pending, processing, completed, failed.  An update
    writes the status it is given and, for [completed_at], the value
    passed, else keeps the one the job had; so the updated job has
    [completed_at] set exactly when its status is completed or failed if
    and only if the call was made that way. *)
Theorem ledger_status_invariant :
  (forall t, Ledger.reachable t -> Forall Ledger.status_allowed t)
  /\ (forall t job_id status kwargs job',
        "status" ∉ kwargs.*1 -> NoDup (kwargs.*1) ->
        (Ledger.update_job_status t job_id status kwargs).2
        = Returns (Some job') ->
        exists job,
          Ledger.get_job_by_id t job_id = Some job
          /\ job' !! "status" = Some (Ledger.VStr status)
          /\ status ∈ Ledger.allowed_statuses
          /\ Ledger.col job' "completed_at"
             = Ledger.final_completed_at kwargs job
          /\ (Ledger.job_invariant job'
              <-> (Ledger.final_completed_at kwargs job <> Ledger.VNone
                   <-> status = "completed" \/ status = "failed")))
  /\ (forall json_dumps connect t job_id status kwargs row',
        (Ledger.update_job_status_sync json_dumps connect t job_id status
           kwargs).2 = Returns (Some row') ->
        exists row,
          Ledger.get_job_by_id t job_id = Some row
          /\ row' !! "status" = Some (Ledger.VStr status)
          /\ status ∈ Ledger.allowed_statuses
          /\ Ledger.col row' "completed_at"
             = Ledger.final_completed_at kwargs row
          /\ (Ledger.job_invariant row'
              <-> (Ledger.final_completed_at kwargs row <> Ledger.VNone
                   <-> status = "completed" \/ status = "failed"))).
Proof.
  split; [exact reachable_status |]. split.
  - intros t job_id status kwargs job' Hst Hnd.
    unfold Ledger.update_job_status.
    destruct (Ledger.get_job_by_id t job_id) as [job |] eqn:Hget;
      [| discriminate].
    match goal with
    | |- context [Ledger.commit t ?new ?ret] =>
        destruct (commit_cases t new ret) as [[Hok ->] | [exc ->]]
    end; [| discriminate].
    cbn [snd]. intros [= <-]. exists job.
    assert (Hs : foldl Ledger.set_attr
                   (<["status" := Ledger.VStr status]> job) kwargs
                 !! "status" = Some (Ledger.VStr status)).
    { rewrite foldl_set_attr_absent by auto. apply lookup_insert_eq. }
    assert (Hall : status ∈ Ledger.allowed_statuses).
    { eapply constraints_elem;
        [exact Hok | eapply replace_first_elem; exact Hget | exact Hs]. }
    assert (Hc : Ledger.col
                   (foldl Ledger.set_attr
                      (<["status" := Ledger.VStr status]> job) kwargs)
                   "completed_at"
                 = Ledger.final_completed_at kwargs job).
    { rewrite foldl_set_attr_completed_at by assumption.
      unfold Ledger.final_completed_at, Ledger.col.
      now rewrite lookup_insert_ne by discriminate. }
    repeat (split; [assumption || reflexivity |]).
    rewrite <- Hc. now apply job_invariant_iff.
  - intros json_dumps connect t job_id status kwargs row'.
    unfold Ledger.update_job_status_sync.
    destruct connect as [[] | exc]; [| discriminate].
    match goal with
    | |- context [Ledger.commit t ?new ?ret] =>
        destruct (commit_cases t new ret) as [[Hok ->] | [exc ->]]
    end; [| discriminate].
    cbn [snd]. unfold Ledger.returning.
    fold (Ledger.get_job_by_id t job_id).
    destruct (Ledger.get_job_by_id t job_id) as [row |] eqn:Hget;
      [| discriminate].
    cbn [fmap option_fmap option_map]. intros [= <-]. exists row.
    destruct (apply_set_clauses json_dumps status kwargs row)
      as (Hs & Hin & Hout).
    assert (Hall : status ∈ Ledger.allowed_statuses).
    { eapply constraints_elem;
        [exact Hok | eapply sql_update_elem; exact Hget | exact Hs]. }
    assert (Hc : Ledger.col
                   (Ledger.apply_set
                      (Ledger.set_clauses json_dumps status kwargs) row)
                   "completed_at"
                 = Ledger.final_completed_at kwargs row).
    { unfold Ledger.final_completed_at, Ledger.col.
      destruct (Ledger.kw_get "completed_at" kwargs) as [v |] eqn:Hkw.
      - rewrite (Hin "completed_at" v); [reflexivity | | assumption].
        unfold Ledger.recognized. apply list_elem_of_further, list_elem_of_here.
      - rewrite Hout; [reflexivity | discriminate | now right]. }
    repeat (split; [assumption || reflexivity |]).
    rewrite <- Hc. now apply job_invariant_iff.
Qed.

(** A completion update that passes [completed_at] yields a job that
    meets the invariant. *)
Lemma ledger_status_invariant_witness :
  Ledger.job_invariant Ledger.demo_completed.
Proof.
  destruct (proj1 (proj2 ledger_status_invariant)
              [Ledger.demo_job] "job-1" "completed" Ledger.completed_kwargs
              Ledger.demo_completed)
    as (job & _ & _ & _ & _ & Hinv).
  - intros Hin. unfold Ledger.completed_kwargs in Hin. simpl in Hin.
    repeat (apply elem_of_cons in Hin as [Hin | Hin]; [discriminate |]).
    inversion Hin.
  - apply (bool_decide_unpack _). vm_compute. exact I.
  - rewrite (update_job_status_commits _ _ _ _ _ demo_job_found)
      by (vm_compute; reflexivity).
    reflexivity.
  - apply Hinv. split; intros _; [now left |].
    unfold Ledger.final_completed_at. simpl. discriminate.
Defined.

(** * Further properties of the code *)

(** ** Retry wrapper, any mix of failures *)

(** What one run of the loop does from an arbitrary loop state. *)
Lemma loop_shape {A : Type} (func : nat -> outcome A) fuel attempt backoff
    ncalls sleeps r :
  Embeddings.with_retries_loop func fuel attempt backoff ncalls sleeps
  = Some r ->
  exists m,
    Embeddings.calls r = S (ncalls + m)
    /\ Embeddings.result r = func (ncalls + m)%nat
    /\ Embeddings.slept r
       = (sleeps ++ EmbedDocuments.doubling backoff m)%list
    /\ (forall k, (ncalls <= k < ncalls + m)%nat ->
          exists exc, func k = Raises exc)
    /\ (forall exc, Embeddings.result r = Raises exc ->
          (Embeddings.is_rate_limit exc = true /\ (5 <= S (attempt + m))%nat)
          \/ (Embeddings.is_rate_limit exc = false
              /\ (3 <= S (attempt + m))%nat))
    /\ (m < fuel)%nat.
Proof.
  revert attempt backoff ncalls sleeps r.
  induction fuel as [| fuel IH]; intros attempt backoff ncalls sleeps r;
    [discriminate |].
  cbn [Embeddings.with_retries_loop].
  destruct (func ncalls) as [a | exc] eqn:Hcall.
  { intros [= <-]. exists 0%nat. cbn [Embeddings.calls Embeddings.result
      Embeddings.slept EmbedDocuments.doubling].
    rewrite Nat.add_0_r, app_nil_r.
    repeat split; try lia; try (now symmetry);
      try (intros k Hk; lia); try (intros e [=]). }
  assert (Hstop : Some (Embeddings.mkRun (Raises exc) (S ncalls) sleeps)
                  = Some r ->
                  forall bound, (bound <= S attempt)%nat ->
                  exists m, Embeddings.calls r = S (ncalls + m)
                    /\ Embeddings.result r = func (ncalls + m)%nat
                    /\ Embeddings.slept r
                       = (sleeps ++ EmbedDocuments.doubling backoff m)%list
                    /\ (forall k, (ncalls <= k < ncalls + m)%nat ->
                          exists exc, func k = Raises exc)
                    /\ (forall e, Embeddings.result r = Raises e ->
                          e = exc /\ (bound <= S (attempt + m))%nat)
                    /\ (m < S fuel)%nat).
  { intros [= <-] bound Hb. exists 0%nat.
    cbn [Embeddings.calls Embeddings.result Embeddings.slept
         EmbedDocuments.doubling].
    rewrite Nat.add_0_r, app_nil_r.
    repeat split; try lia; try (now symmetry);
      try (intros k Hk; lia); try congruence. }
  assert (Hgo : Embeddings.with_retries_loop func fuel (S attempt)
                  (backoff * 2) (S ncalls) (sleeps ++ [backoff]) = Some r ->
                exists m, Embeddings.calls r = S (ncalls + m)
                  /\ Embeddings.result r = func (ncalls + m)%nat
                  /\ Embeddings.slept r
                     = (sleeps ++ EmbedDocuments.doubling backoff m)%list
                  /\ (forall k, (ncalls <= k < ncalls + m)%nat ->
                        exists exc, func k = Raises exc)
                  /\ (forall exc, Embeddings.result r = Raises exc ->
                        (Embeddings.is_rate_limit exc = true
                         /\ (5 <= S (attempt + m))%nat)
                        \/ (Embeddings.is_rate_limit exc = false
                            /\ (3 <= S (attempt + m))%nat))
                  /\ (m < S fuel)%nat).
  { intros Hrec.
    destruct (IH _ _ _ _ _ Hrec) as (m & Hc & Hr & Hs & Hp & Hx & Hm).
    exists (S m). rewrite Hc, Hr, Hs.
    cbn [EmbedDocuments.doubling]. rewrite <- app_assoc.
    replace (S ncalls + m)%nat with (ncalls + S m)%nat by lia.
    repeat split; try lia.
    - intros k Hk. destruct (Nat.eq_dec k ncalls) as [-> | Hne]; [eauto |].
      apply Hp. lia.
    - intros e He.
      replace (attempt + S m)%nat with (S attempt + m)%nat by lia.
      apply Hx. rewrite Hr.
      replace (S ncalls + m)%nat with (ncalls + S m)%nat by lia.
      exact He. }
  destruct (Embeddings.is_rate_limit exc) eqn:Hrate.
  - destruct (Nat.leb_spec 5 (S attempt)) as [Hle | Hlt]; [| exact Hgo].
    intros H. destruct (Hstop H 5%nat Hle) as (m & ? & ? & ? & ? & Hx & ?).
    exists m. repeat split; try assumption.
    intros e He. destruct (Hx e He) as [-> ?]. left. auto.
  - destruct (Nat.leb_spec 3 (S attempt)) as [Hle | Hlt]; [| exact Hgo].
    intros H. destruct (Hstop H 3%nat Hle) as (m & ? & ? & ? & ? & Hx & ?).
    exists m. repeat split; try assumption.
    intros e He. destruct (Hx e He) as [-> ?]. right. auto.
Qed.

(** X1: whatever the callable does, a run of [_with_retries] makes
    between one and five calls; every call but the last failed; the
    outcome is that of the last call; the sleeps are 1, 2, 4, ... one
    per failed call before the last (so at most 15 seconds in all); and
    an error is raised only at the fifth call, or from the third call on
    when it is not a rate-limit error. *)
Theorem with_retries_run_shape {A : Type} (func : nat -> outcome A)
    (r : Embeddings.run A) :
  Embeddings._with_retries func = Some r ->
  let n := Embeddings.calls r in
  (1 <= n <= 5)%nat
  /\ Embeddings.result r = func (n - 1)%nat
  /\ Embeddings.slept r = Embeddings.backoffs (n - 1)
  /\ foldr Z.add 0 (Embeddings.slept r) <= 15
  /\ (forall k, (k < n - 1)%nat -> exists exc, func k = Raises exc)
  /\ (forall exc, Embeddings.result r = Raises exc ->
        n = 5%nat \/ ((3 <= n)%nat /\ Embeddings.is_rate_limit exc = false)).
Proof.
  intros Hrun n. subst n.
  destruct (loop_shape func 5 0 1 0 [] r Hrun)
    as (m & Hcalls & Hres & Hslept & Hprev & Hraise & Hm).
  rewrite Hcalls. simpl in *.
  replace (m - 0)%nat with m by lia.
  assert (Hd : EmbedDocuments.doubling 1 m = Embeddings.backoffs m
               /\ foldr Z.add 0 (EmbedDocuments.doubling 1 m) <= 15).
  { do 5 (destruct m as [| m]; [split; [reflexivity | simpl; lia] |]). lia. }
  rewrite Hslept. destruct Hd as [-> Hsum].
  repeat split; try lia; try assumption.
  - intros k Hk. apply Hprev. lia.
  - intros exc Hexc. destruct (Hraise exc Hexc) as [[_ H] | [Hr H]];
      [left | right]; [lia | split; [lia | assumption]].
Qed.

Lemma with_retries_run_shape_witness :
  Embeddings.slept
    (Embeddings.mkRun (Returns tt : outcome unit) 4 [1; 2; 4])
  = Embeddings.backoffs 3.
Proof.
  apply (with_retries_run_shape
           (Embeddings.fails_then 3 Embeddings.rate_limited_429 tt)
           (Embeddings.mkRun (Returns tt) 4 [1; 2; 4])).
  reflexivity.
Defined.

(** ** Document embedding *)

Lemma call_batch_returns request pos texts vs :
  EmbedDocuments._call request pos texts = Returns vs ->
  length vs = length texts
  /\ forall i text, texts !! i = Some text ->
       exists resp, request (pos + i)%nat text = Returns resp
                    /\ resp !! "embedding" = vs !! i.
Proof.
  revert pos vs. induction texts as [| t rest IH]; intros pos vs.
  - intros [= <-]. split; [reflexivity |]. intros i text Hi. inversion Hi.
  - cbn [EmbedDocuments._call].
    destruct (request pos t) as [resp | exc] eqn:Hreq; [| discriminate].
    destruct (resp !! "embedding") as [v |] eqn:Hv; [| discriminate].
    destruct (EmbedDocuments._call request (S pos) rest) as [es | exc] eqn:Hrest;
      [| discriminate].
    intros [= <-]. destruct (IH _ _ Hrest) as [Hlen Hall].
    split; [simpl; now rewrite Hlen |].
    intros [| i] text Hi.
    + injection Hi as <-. exists resp. rewrite Nat.add_0_r. now split.
    + replace (pos + S i)%nat with (S pos + i)%nat by lia. now apply Hall.
Qed.

(** X2: when [embed_documents] returns, it returns exactly one vector
    per text, in the order of the texts, and all of them are the
    [embedding] entries of the answers given during one and the same
    run of the batch. *)
Theorem embed_documents_one_vector_per_text
    (service : nat -> nat -> string -> outcome (gmap string (list float)))
    (texts : list string) (r : Embeddings.run (list (list float)))
    (vectors : list (list float)) :
  EmbedDocuments.embed_documents service texts = Some r ->
  Embeddings.result r = Returns vectors ->
  length vectors = length texts
  /\ exists attempt, (attempt < 5)%nat
       /\ forall i text, texts !! i = Some text ->
            exists resp, service attempt i text = Returns resp
                         /\ resp !! "embedding" = vectors !! i.
Proof.
  unfold EmbedDocuments.embed_documents. intros Hrun Hres.
  destruct (with_retries_returns_call _ _ _ Hrun Hres) as (k & Hk & Hcall).
  apply call_batch_returns in Hcall as [Hlen Hall].
  split; [assumption |]. exists k. split; [assumption |].
  intros i text Hi. now apply Hall.
Qed.

Lemma embed_documents_one_vector_per_text_witness :
  length [[Float 1 0; Float 1 1]; [Float 1 0; Float 1 1]]
  = length ["first text"; "second text"].
Proof.
  apply (embed_documents_one_vector_per_text
           (fun _ _ _ => Returns Embeddings.short_embedding)
           ["first text"; "second text"]
           (Embeddings.mkRun
              (Returns [[Float 1 0; Float 1 1]; [Float 1 0; Float 1 1]]) 1 [])).
  - vm_compute. reflexivity.
  - reflexivity.
Defined.

(** X3: a response without an [embedding] entry is treated differently
    by the two paths.  For documents it is a [KeyError], which is not a
    rate-limit error: the batch is run three times, with sleeps of 1 and
    2 seconds, and the [KeyError] is raised.  For a query the answer is
    the empty vector, at once. *)
Theorem missing_embedding_entry
    (service : nat -> nat -> string -> outcome (gmap string (list float)))
    (text : string) (rest : list string) :
  (forall attempt, exists resp,
      service attempt 0%nat text = Returns resp
      /\ resp !! "embedding" = None) ->
  EmbedDocuments.embed_documents service (text :: rest)
  = Some (Embeddings.mkRun (Raises (Exn "KeyError" "'embedding'")) 3 [1; 2])
  /\ Embeddings.embed_query (fun attempt => service attempt 0%nat text)
     = Some (Returns []).
Proof.
  intros Hmissing.
  assert (Hcall : forall k,
             EmbedDocuments._call (service k) 0 (text :: rest)
             = Raises (Exn "KeyError" "'embedding'")).
  { intros k. destruct (Hmissing k) as (resp & Hresp & Hnone).
    cbn [EmbedDocuments._call]. now rewrite Hresp, Hnone. }
  split.
  - unfold EmbedDocuments.embed_documents.
    apply (with_retries_exhausted _ false).
    + intros k _. eexists. split; [apply Hcall | reflexivity].
    + apply Hcall.
  - unfold Embeddings.embed_query.
    destruct (Hmissing 0%nat) as (resp & Hresp & Hnone).
    rewrite (with_retries_recovers _ true 0 resp); cbn [Embeddings.result].
    + now rewrite Hnone.
    + lia.
    + intros k Hk. lia.
    + exact Hresp.
Qed.

Lemma missing_embedding_entry_witness :
  Embeddings.embed_query (fun _ => Returns (∅ : gmap string (list float)))
  = Some (Returns []).
Proof.
  apply (missing_embedding_entry (fun _ _ _ => Returns ∅) "a text" []).
  intros attempt. exists ∅. split; reflexivity.
Defined.

(** ** Points written by [add_documents] *)

Section Points.
Import VectorStore.
Variable hash : string -> Z.
Implicit Types (chunks : list string) (vectors : list (list float))
  (metadata : option (gmap string string)) (job_id ingested_at : string)
  (coll : gmap Z PointStruct) (points : list PointStruct).

Lemma build_points_lookup chunks vectors metadata job_id ingested_at i :
  build_points hash chunks vectors metadata job_id ingested_at !! i
  = (fun cv : string * list float =>
       mkPoint (point_id hash job_id i) cv.2
         (mkPayload cv.1 (meta_get metadata "source_url") job_id i
            ingested_at (meta_get metadata "title")))
    <$> zip chunks vectors !! i.
Proof. unfold build_points. now rewrite list_lookup_imap. Qed.

Lemma point_ids_lookup chunks vectors metadata job_id ingested_at i x :
  point_ids hash chunks vectors metadata job_id ingested_at !! i = Some x ->
  x = point_id hash job_id i.
Proof.
  unfold point_ids. rewrite list_lookup_fmap, build_points_lookup.
  destruct (zip chunks vectors !! i); simpl; congruence.
Qed.

Lemma point_ids_nodup chunks vectors metadata job_id ingested_at :
  NoDup (point_ids hash chunks vectors metadata job_id ingested_at).
Proof.
  apply NoDup_alt. intros i j x Hi Hj.
  apply point_ids_lookup in Hi, Hj. subst x.
  eapply point_id_inj, Hj.
Qed.

Lemma point_ids_timestamp chunks vectors metadata job_id t1 t2 :
  point_ids hash chunks vectors metadata job_id t1
  = point_ids hash chunks vectors metadata job_id t2.
Proof.
  apply list_eq. intros i. unfold point_ids.
  rewrite !list_lookup_fmap, !build_points_lookup.
  now destruct (zip chunks vectors !! i).
Qed.

Lemma upsert_lookup_notin points coll k :
  k ∉ id <$> points -> upsert points coll !! k = coll !! k.
Proof.
  unfold upsert. revert coll.
  induction points as [| p ps IH]; intros coll Hk; [reflexivity |].
  rewrite fmap_cons in Hk. apply not_elem_of_cons in Hk as [Hne Hk].
  cbn [foldl]. rewrite IH by assumption. now apply lookup_insert_ne.
Qed.

Lemma upsert_lookup_in points coll p :
  NoDup (id <$> points) -> p ∈ points ->
  upsert points coll !! id p = Some p.
Proof.
  unfold upsert. revert coll.
  induction points as [| q ps IH]; intros coll Hnd Hin; [inversion Hin |].
  rewrite fmap_cons in Hnd. apply NoDup_cons in Hnd as [Hq Hnd].
  cbn [foldl]. apply elem_of_cons in Hin as [-> | Hin].
  - pose proof (upsert_lookup_notin ps (<[id q := q]> coll) (id q) Hq) as E.
    unfold upsert in E. rewrite E. apply lookup_insert_eq.
  - now apply IH.
Qed.

Lemma upsert_dom points coll :
  dom (upsert points coll) = dom coll ∪ list_to_set (id <$> points).
Proof.
  unfold upsert. revert coll.
  induction points as [| p ps IH]; intros coll.
  - simpl. now rewrite union_empty_r_L.
  - cbn [foldl]. rewrite IH, dom_insert_L, fmap_cons.
    cbn [list_to_set].
    rewrite (union_comm_L {[id p]} (dom coll)). now rewrite <- (assoc_L (∪)).
Qed.

End Points.

(** X4: [add_documents] pairs chunks with vectors position by position
    and stops at the shorter list: it writes and reports
    [min(len(chunks), len(vectors))] points, and the point at position
    [i] carries the vector and the text at position [i] and the chunk
    index [i]. *)
Theorem add_documents_pairs_by_position (hash : string -> Z)
    (coll : gmap Z VectorStore.PointStruct) (chunks : list string)
    (vectors : list (list float)) (metadata : option (gmap string string))
    (job_id ingested_at : string) :
  let points :=
    VectorStore.build_points hash chunks vectors metadata job_id ingested_at in
  (VectorStore.add_documents hash (Returns tt) coll chunks vectors metadata
     job_id ingested_at).2
  = Returns (Z.of_nat (Nat.min (length chunks) (length vectors)))
  /\ length points = (Nat.min (length chunks) (length vectors))
  /\ forall i chunk vec,
       chunks !! i = Some chunk -> vectors !! i = Some vec ->
       exists p, points !! i = Some p
         /\ VectorStore.vector p = vec
         /\ VectorStore.p_text (VectorStore.payload p) = chunk
         /\ VectorStore.p_chunk_index (VectorStore.payload p) = i
         /\ VectorStore.p_job_id (VectorStore.payload p) = job_id
         /\ VectorStore.id p = VectorStore.point_id hash job_id i.
Proof.
  intros points. subst points.
  assert (Hlen : length (VectorStore.build_points hash chunks vectors metadata
                           job_id ingested_at)
                 = (Nat.min (length chunks) (length vectors))).
  { unfold VectorStore.build_points. now rewrite length_imap, length_zip. }
  split; [| split; [exact Hlen |]].
  - unfold VectorStore.add_documents. cbn [snd]. now rewrite Hlen.
  - intros i chunk vec Hc Hv. rewrite build_points_lookup.
    assert (Hz : zip chunks vectors !! i = Some (chunk, vec)).
    { apply lookup_zip_with_Some. eauto. }
    rewrite Hz. eexists. split; [reflexivity |]. repeat split.
Qed.

Lemma add_documents_pairs_by_position_witness :
  exists p,
    VectorStore.build_points (fun _ => 7) ["a"; "b"; "c"] [[]; [Float 1 0]]
      None "job-1" "now" !! 1%nat = Some p
    /\ VectorStore.vector p = [Float 1 0]
    /\ VectorStore.p_text (VectorStore.payload p) = "b"
    /\ VectorStore.p_chunk_index (VectorStore.payload p) = 1%nat
    /\ VectorStore.p_job_id (VectorStore.payload p) = "job-1"
    /\ VectorStore.id p = VectorStore.point_id (fun _ => 7) "job-1" 1.
Proof.
  apply (proj2 (proj2 (add_documents_pairs_by_position (fun _ => 7) ∅
                         ["a"; "b"; "c"] [[]; [Float 1 0]] None "job-1"
                         "now")));
    reflexivity.
Defined.

(** X5: the point ids of one run are pairwise distinct and never
    negative, for any number of chunks and any hash value. *)
Theorem point_ids_distinct_nonnegative (hash : string -> Z)
    (chunks : list string) (vectors : list (list float))
    (metadata : option (gmap string string)) (job_id ingested_at : string) :
  let ids :=
    VectorStore.point_ids hash chunks vectors metadata job_id ingested_at in
  NoDup ids /\ forall i, i ∈ ids -> 0 <= i.
Proof.
  intros ids. subst ids. split; [apply point_ids_nodup |].
  intros i Hi. apply elem_of_point_ids in Hi as (idx & _ & ->).
  unfold VectorStore.point_id.
  pose proof (Z.mod_pos_bound (hash job_id) 1000000 ltac:(lia)). lia.
Qed.

(** X6: across jobs the ids are only as distinct as the hashes.  Below
    chunk index 10000, two points of two jobs share an id exactly when
    the job hashes agree modulo 1000000 and the chunk indices are equal;
    and chunk [10000 + i] of a job has the id of chunk [i] of any job
    whose reduced hash is the next one. *)
Theorem point_id_collisions (hash : string -> Z) (job1 job2 : string) :
  (forall i1 i2, Z.of_nat i1 < 10000 -> Z.of_nat i2 < 10000 ->
     (VectorStore.point_id hash job1 i1 = VectorStore.point_id hash job2 i2
      <-> hash job1 mod 1000000 = hash job2 mod 1000000 /\ i1 = i2))
  /\ (hash job2 mod 1000000 = hash job1 mod 1000000 + 1 ->
      forall i k, Z.of_nat k = 10000 + Z.of_nat i ->
        VectorStore.point_id hash job1 k = VectorStore.point_id hash job2 i).
Proof.
  unfold VectorStore.point_id. split.
  - intros i1 i2 H1 H2. split.
    + intros H. split; lia.
    + intros [-> ->]. reflexivity.
  - intros Hnext i k Hk. rewrite Hnext. lia.
Qed.

Lemma point_id_collisions_witness :
  VectorStore.point_id
    (fun s => if String.eqb s "job-a" then 41 else 42) "job-a"
    (Z.to_nat 10002)
  = VectorStore.point_id
      (fun s => if String.eqb s "job-a" then 41 else 42) "job-b" 2.
Proof.
  apply (proj2 (point_id_collisions
                  (fun s => if String.eqb s "job-a" then 41 else 42)
                  "job-a" "job-b")).
  - reflexivity.
  - reflexivity.
Defined.

(** X7: a successful [add_documents] stores every point it built under
    that point's id and leaves the points stored under other ids alone.
    Run again in the same process for the same job and lists, it
    replaces those points by the new ones (same ids, new ingestion
    time): the set of stored ids does not change. *)
Theorem add_documents_overwrites_in_place (hash : string -> Z)
    (coll : gmap Z VectorStore.PointStruct) (chunks : list string)
    (vectors : list (list float)) (metadata : option (gmap string string))
    (job_id t1 t2 : string) :
  let first :=
    (VectorStore.add_documents hash (Returns tt) coll chunks vectors metadata
       job_id t1).1 in
  let second :=
    (VectorStore.add_documents hash (Returns tt) first chunks vectors metadata
       job_id t2).1 in
  (forall p, p ∈ VectorStore.build_points hash chunks vectors metadata job_id t1 ->
     first !! VectorStore.id p = Some p)
  /\ (forall k,
        k ∉ VectorStore.point_ids hash chunks vectors metadata job_id t1 ->
        first !! k = coll !! k)
  /\ dom second = dom first
  /\ (forall p, p ∈ VectorStore.build_points hash chunks vectors metadata job_id t2 ->
        second !! VectorStore.id p = Some p).
Proof.
  intros first second. subst first second.
  unfold VectorStore.add_documents. cbn [fst].
  split; [| split; [| split]].
  - intros p Hp. apply upsert_lookup_in; [| assumption].
    apply (point_ids_nodup hash).
  - intros k Hk. now apply upsert_lookup_notin.
  - rewrite !upsert_dom.
    fold (VectorStore.point_ids hash chunks vectors metadata job_id t1).
    fold (VectorStore.point_ids hash chunks vectors metadata job_id t2).
    rewrite (point_ids_timestamp hash chunks vectors metadata job_id t2 t1).
    rewrite <- (assoc_L (∪)). now rewrite union_idemp_L.
  - intros p Hp. apply upsert_lookup_in; [| assumption].
    apply (point_ids_nodup hash).
Qed.

(** ** Collection bootstrap *)

Lemma ensure_loop_fails service fuel attempts backoff last sleeps exc :
  (attempts < 6)%nat ->
  Collection.attempt (service attempts) = Some exc ->
  Collection.ensure_loop service (S fuel) attempts backoff last sleeps
  = Collection.ensure_loop service fuel (S attempts) (Z.min (backoff * 2) 10)
      (Some exc) (sleeps ++ [backoff]).
Proof.
  intros Hlt Hfail. cbn [Collection.ensure_loop].
  destruct (Nat.ltb_spec attempts 6); [| lia]. now rewrite Hfail.
Qed.

Lemma ensure_loop_succeeds service fuel attempts backoff last sleeps :
  (attempts < 6)%nat ->
  Collection.attempt (service attempts) = None ->
  Collection.ensure_loop service (S fuel) attempts backoff last sleeps
  = Some (Collection.mkRun (Returns tt) (S attempts) sleeps).
Proof.
  intros Hlt Hok. cbn [Collection.ensure_loop].
  destruct (Nat.ltb_spec attempts 6); [| lia]. now rewrite Hok.
Qed.

(** X8: [ensure_qdrant_collection] always finishes, having made at most
    six attempts.  If the first [k] attempts fail and attempt [k]
    succeeds ([k] < 6), it returns after sleeping the first [k] of 1, 2,
    4, 8, 10, 10 seconds.  If all six attempts fail it has slept after
    each of them, 35 seconds in all, and raises the error of the sixth. *)
Theorem ensure_qdrant_collection_backoff (service : nat -> Collection.Service) :
  (exists r, Collection.ensure_qdrant_collection service = Some r
             /\ (1 <= Collection.attempts_made r <= 6)%nat)
  /\ (forall k, (k < 6)%nat ->
        (forall j, (j < k)%nat ->
           exists exc, Collection.attempt (service j) = Some exc) ->
        Collection.attempt (service k) = None ->
        Collection.ensure_qdrant_collection service
        = Some (Collection.mkRun (Returns tt) (S k)
                  (take k [1; 2; 4; 8; 10; 10])))
  /\ (forall exc,
        (forall j, (j < 6)%nat ->
           exists e, Collection.attempt (service j) = Some e) ->
        Collection.attempt (service 5%nat) = Some exc ->
        Collection.ensure_qdrant_collection service
        = Some (Collection.mkRun (Raises exc) 6 [1; 2; 4; 8; 10; 10])).
Proof.
  unfold Collection.ensure_qdrant_collection.
  split; [| split].
  - cbn.
    repeat match goal with
    | |- exists r, match Collection.attempt ?s with _ => _ end = _ /\ _ =>
        destruct (Collection.attempt s)
    | |- _ => eexists; split; [reflexivity | simpl; lia]
    end.
  - intros k Hk Hfail Hok.
    assert (Hcases : (k = 0 \/ k = 1 \/ k = 2 \/ k = 3 \/ k = 4 \/ k = 5)%nat)
      by lia.
    destruct Hcases as [-> | [-> | [-> | [-> | [-> | ->]]]]].
    all: repeat match goal with
         | |- Collection.ensure_loop _ _ ?a _ _ _
              = Some (Collection.mkRun _ (S ?m) _) =>
             lazymatch a with
             | m => fail
             | _ =>
                 let e := fresh "e" in
                 let He := fresh "He" in
                 destruct (Hfail a) as [e He]; [lia |];
                 rewrite (ensure_loop_fails _ _ a _ _ _ e) by (exact He || lia)
             end
         end.
    all: rewrite ensure_loop_succeeds by (assumption || lia); reflexivity.
  - intros exc Hfail Hlast.
    do 5 (match goal with
          | |- Collection.ensure_loop _ _ ?a _ _ _ = _ =>
              let e := fresh "e" in
              let He := fresh "He" in
              destruct (Hfail a) as [e He]; [lia |];
              rewrite (ensure_loop_fails _ _ a _ _ _ e) by (exact He || lia)
          end).
    rewrite (ensure_loop_fails _ _ 5 _ _ _ exc) by (exact Hlast || lia).
    reflexivity.
Qed.

Lemma ensure_qdrant_collection_backoff_witness :
  Collection.ensure_qdrant_collection
    (fun _ => Collection.mkService
                (Raises (Exn "ResponseHandlingException" "Connection refused"))
                (Returns tt) (Returns tt) (Returns tt))
  = Some (Collection.mkRun
            (Raises (Exn "ResponseHandlingException" "Connection refused")) 6
            [1; 2; 4; 8; 10; 10]).
Proof.
  apply (proj2 (proj2 (ensure_qdrant_collection_backoff _))).
  - intros j _. eexists. reflexivity.
  - reflexivity.
Defined.

(** X9: when the collection is missing and its creation is refused with
    a message containing [already exists] (or [400]),
    [ensure_qdrant_collection] returns at the first attempt without
    sleeping, whereas [create_collection_if_not_exists] lets the
    creation error through. *)
Theorem creation_race_tolerated_by_ensure_only (svc : Collection.Service)
    (get_exc create_exc : exn) :
  Collection.connect svc = Returns tt ->
  Collection.get_collection svc = Raises get_exc ->
  Collection.create_collection svc = Raises create_exc ->
  Collection.tolerated create_exc = true ->
  Collection.ensure_qdrant_collection (fun _ => svc)
  = Some (Collection.mkRun (Returns tt) 1 [])
  /\ Collection.create_collection_if_not_exists svc = Raises create_exc.
Proof.
  intros Hconn Hget Hcreate Htol. split.
  - unfold Collection.ensure_qdrant_collection.
    apply ensure_loop_succeeds; [lia |].
    unfold Collection.attempt. now rewrite Hconn, Hget, Hcreate, Htol.
  - unfold Collection.create_collection_if_not_exists.
    now rewrite Hget.
Qed.

Lemma creation_race_tolerated_by_ensure_only_witness :
  Collection.ensure_qdrant_collection (fun _ => Collection.creation_race)
  = Some (Collection.mkRun (Returns tt) 1 [])
  /\ Collection.create_collection_if_not_exists Collection.creation_race
     = Raises (Exn "UnexpectedResponse"
                 "409 Conflict: Collection `web_documents` already exists!").
Proof.
  apply (creation_race_tolerated_by_ensure_only Collection.creation_race
           (Exn "UnexpectedResponse" "404 Not Found")); reflexivity.
Defined.

(** ** Vector search *)

Lemma conditions_of_items (items : list (string * string)) :
  Search.cond_key <$> ((fun kv => Search.mkCondition kv.1 kv.2) <$> items)
  = items.*1
  /\ Search.cond_value <$> ((fun kv => Search.mkCondition kv.1 kv.2) <$> items)
     = items.*2.
Proof.
  induction items as [| x l [IH1 IH2]]; [split; reflexivity |].
  rewrite !fmap_cons, IH1, IH2. split; reflexivity.
Qed.

(** X10: [search] asks the client once, with the vector and limit it
    was given and with no filter when the filter dict is absent or
    empty, otherwise with one equality condition per entry, in order.
    It returns one result per hit, in the order of the hits; a hit
    without payload yields no text and no URL; and the result's score is
    the hit's score unless that is missing or zero, in which case it is
    the hit's distance. *)
Theorem search_mirrors_hits
    (client_search : list float -> Z -> option (list Search.Condition)
                     -> outcome (list Search.ScoredPoint))
    (query_vector : list float) (top_k : Z)
    (filters : option (list (string * string)))
    (hits : list Search.ScoredPoint) :
  client_search query_vector top_k (Search.query_filter filters)
  = Returns hits ->
  (Search.query_filter filters = None
   <-> filters = None \/ filters = Some [])
  /\ (forall conds, Search.query_filter filters = Some conds ->
        exists items, filters = Some items
          /\ Search.cond_key <$> conds = items.*1
          /\ Search.cond_value <$> conds = items.*2)
  /\ exists results,
       Search.search client_search query_vector top_k filters = Returns results
       /\ length results = length hits
       /\ forall i h, hits !! i = Some h ->
            exists c, results !! i = Some c
              /\ LLM.c_text c = (Search.h_payload h ≫= (.!! "text"))
              /\ LLM.c_source_url c
                 = (Search.h_payload h ≫= (.!! "source_url"))
              /\ LLM.c_score c
                 = match Search.h_score h with
                   | Some s => if mantissa s =? 0 then Search.h_distance h
                               else Some s
                   | None => Search.h_distance h
                   end.
Proof.
  intros Hcall. split; [| split].
  - destruct filters as [[| kv items] |]; simpl; split;
      try discriminate; try (intros [H | H]; discriminate); auto.
  - intros conds. destruct filters as [[| kv items] |];
      cbn [Search.query_filter]; try discriminate.
    intros H. exists (kv :: items). split; [reflexivity |].
    assert (E : conds = (fun kv => Search.mkCondition kv.1 kv.2)
                        <$> (kv :: items)) by congruence.
    rewrite E. apply conditions_of_items.
  - unfold Search.search. rewrite Hcall. eexists. split; [reflexivity |].
    split; [apply length_fmap |].
    intros i h Hi. rewrite list_lookup_fmap, Hi. eexists.
    split; [reflexivity |]. cbn [Search.to_result LLM.c_text LLM.c_source_url
                                 LLM.c_score].
    split; [| split].
    + destruct (Search.h_payload h); [reflexivity | apply lookup_empty].
    + destruct (Search.h_payload h); [reflexivity | apply lookup_empty].
    + unfold Search.hit_score, Search.truthy.
      destruct (Search.h_score h) as [s |]; [| reflexivity].
      now destruct (mantissa s =? 0).
Qed.

Lemma search_mirrors_hits_witness :
  exists results,
    Search.search
      (fun _ _ _ => Returns [Search.mkHit None (Some (Float 0 0))
                               (Some (Float 3 (-2)))])
      [] 5 (Some []) = Returns results
    /\ length results = 1%nat.
Proof.
  destruct (proj2 (proj2 (search_mirrors_hits
              (fun _ _ _ => Returns [Search.mkHit None (Some (Float 0 0))
                                       (Some (Float 3 (-2)))])
              [] 5 (Some [])
              [Search.mkHit None (Some (Float 0 0)) (Some (Float 3 (-2)))]
              eq_refl)))
    as (results & Hres & Hlen & _).
  exists results. split; assumption.
Defined.

(** ** Ledger: constraints, lookups after writes *)

Section LedgerLookups.
Import Ledger.
Implicit Types (t : list (gmap string Value)) (row job : gmap string Value)
  (kwargs : list (string * Value)) (c k status job_id other : string).


Lemma has_id_row_id job_id row :
  has_id job_id row = true <-> row_id row = Some job_id.
Proof.
  unfold has_id, row_id.
  destruct (row !! "id") as [[| i | | | |] |];
    try (split; intros; discriminate).
  rewrite String.eqb_eq. split; congruence.
Qed.

Lemma has_id_other job_id other row :
  other <> job_id -> has_id job_id row = true -> has_id other row = false.
Proof.
  intros Hne H. apply has_id_row_id in H.
  destruct (has_id other row) eqn:E; [| reflexivity].
  apply has_id_row_id in E. congruence.
Qed.


Lemma primary_key_app t row :
  primary_key_ok (t ++ [row]) = true ->
  forall r, r ∈ t -> row_id r <> row_id row.
Proof.
  unfold primary_key_ok. rewrite andb_true_iff. intros [_ Hnd].
  apply bool_decide_eq_true in Hnd. rewrite fmap_app in Hnd.
  apply NoDup_app in Hnd as (_ & Hdisj & _).
  intros r Hr E. apply (Hdisj (row_id r)).
  - now apply list_elem_of_fmap_2.
  - rewrite E. simpl. apply list_elem_of_here.
Qed.

Lemma find_no_match (p : gmap string Value -> bool) t :
  (forall r, r ∈ t -> p r = false) -> List.find p t = None.
Proof.
  induction t as [| r t IH]; intros H; [reflexivity |].
  simpl. rewrite (H r) by apply list_elem_of_here.
  apply IH. intros r' Hr'. apply H. now apply list_elem_of_further.
Qed.

Lemma find_app_l (p : gmap string Value -> bool) t1 t2 :
  List.find p (t1 ++ t2)
  = match List.find p t1 with Some r => Some r | None => List.find p t2 end.
Proof.
  induction t1 as [| r t1 IH]; [reflexivity |].
  simpl. now destruct (p r).
Qed.

Lemma find_none_notin job_id t :
  get_job_by_id t job_id = None -> forall r, r ∈ t -> has_id job_id r = false.
Proof.
  unfold get_job_by_id. intros H r Hr.
  apply list_elem_of_In in Hr. eapply find_none in H; eassumption.
Qed.


Lemma find_replace_first_same job_id job job' t :
  get_job_by_id t job_id = Some job -> has_id job_id job' = true ->
  get_job_by_id (replace_first job_id job' t) job_id = Some job'.
Proof.
  unfold get_job_by_id. intros Hget Hid.
  induction t as [| r t IH]; [discriminate |].
  simpl in *. destruct (has_id job_id r) eqn:Hr.
  - simpl. now rewrite Hid.
  - simpl. rewrite Hr. now apply IH.
Qed.

Lemma find_replace_first_other job_id other job job' t :
  other <> job_id ->
  get_job_by_id t job_id = Some job -> has_id other job' = false ->
  get_job_by_id (replace_first job_id job' t) other = get_job_by_id t other.
Proof.
  unfold get_job_by_id. intros Hne Hget Hid.
  induction t as [| r t IH]; [discriminate |].
  simpl in *. destruct (has_id job_id r) eqn:Hr.
  - simpl. rewrite Hid. now rewrite (has_id_other job_id other r Hne Hr).
  - simpl. destruct (has_id other r); [reflexivity |]. now apply IH.
Qed.

Lemma set_attr_keeps_id row k v :
  k <> "id" -> set_attr row (k, v) !! "id" = row !! "id".
Proof.
  intros Hk. unfold set_attr.
  destruct (String.eqb_spec k "metadata") as [-> | Hm].
  { now apply lookup_insert_ne. }
  unfold attr_column. case_bool_decide as Hin.
  { apply lookup_insert_ne. congruence. }
  destruct (String.eqb_spec k "metadata_json") as [-> | _]; [| reflexivity].
  now apply lookup_insert_ne.
Qed.

Lemma foldl_set_attr_keeps_id kwargs row :
  "id" ∉ kwargs.*1 -> foldl set_attr row kwargs !! "id" = row !! "id".
Proof.
  revert row. induction kwargs as [| [k v] rest IH]; intros row Hnot;
    [reflexivity |].
  rewrite fmap_cons in Hnot. apply not_elem_of_cons in Hnot as [Hne Hnot].
  cbn [foldl]. rewrite IH by assumption. apply set_attr_keeps_id. auto.
Qed.

Lemma has_id_same_column job_id row row' :
  row' !! "id" = row !! "id" -> has_id job_id row' = has_id job_id row.
Proof. intros E. unfold has_id. now rewrite E. Qed.

End LedgerLookups.

(** ** Worker-side ledger update: the run *)

Section SyncCommit.
Import Ledger.
Variable json_dumps : Value -> string.
Implicit Types (t : list (gmap string Value)) (row : gmap string Value)
  (kwargs : list (string * Value)) (c k status job_id : string).






End SyncCommit.



Lemma new_job_columns new_id now url metadata :
  let job := Ledger.new_job new_id now url metadata in
  job !! "id" = Some (Ledger.VStr new_id)
  /\ job !! "url" = Some (Ledger.VStr url)
  /\ job !! "status" = Some (Ledger.VStr "pending")
  /\ job !! "started_at" = Some Ledger.VNone
  /\ job !! "completed_at" = Some Ledger.VNone
  /\ job !! "chunk_count" = Some (Ledger.VInt 0)
  /\ job !! "celery_task_id" = Some Ledger.VNone.
Proof. repeat split; vm_compute; reflexivity. Qed.

(** X12: when [create_job] succeeds, the job it returns is pending, has
    the given URL, no start or completion time and a chunk count of 0;
    [get_job_by_id] finds exactly that job under its new id, and finds
    under every other id what it found before. *)
Theorem create_job_then_get (new_id : string) (now : Z)
    (t t' : list (gmap string Ledger.Value)) (url : string)
    (metadata : option Ledger.json) (job : gmap string Ledger.Value) :
  Ledger.create_job new_id now t url metadata = (t', Returns job) ->
  Ledger.get_job_by_id t' new_id = Some job
  /\ job !! "status" = Some (Ledger.VStr "pending")
  /\ job !! "url" = Some (Ledger.VStr url)
  /\ job !! "started_at" = Some Ledger.VNone
  /\ job !! "completed_at" = Some Ledger.VNone
  /\ job !! "chunk_count" = Some (Ledger.VInt 0)
  /\ forall other, other <> new_id ->
       Ledger.get_job_by_id t' other = Ledger.get_job_by_id t other.
Proof.
  unfold Ledger.create_job.
  match goal with
  | |- context [Ledger.commit t ?new ?ret] =>
      destruct (commit_cases t new ret) as [[Hok ->] | [exc ->]]
  end; [| discriminate].
  intros [= <- <-].
  destruct (new_job_columns new_id now url metadata)
    as (Hid & Hurl & Hst & Hsa & Hca & Hcc & _).
  assert (Hrow : Ledger.row_id (Ledger.new_job new_id now url metadata)
                 = Some new_id).
  { unfold Ledger.row_id. now rewrite Hid. }
  apply andb_true_iff in Hok as [_ Hpk].
  pose proof (primary_key_app _ _ Hpk) as Hfresh.
  repeat split; try assumption.
  - unfold Ledger.get_job_by_id. rewrite find_app_l, find_no_match.
    + simpl. now rewrite (proj2 (has_id_row_id _ _) Hrow).
    + intros r Hr. destruct (Ledger.has_id new_id r) eqn:E; [| reflexivity].
      apply has_id_row_id in E. exfalso. apply (Hfresh r Hr). congruence.
  - intros other Hne. unfold Ledger.get_job_by_id. rewrite find_app_l.
    destruct (List.find (Ledger.has_id other) t); [reflexivity |].
    simpl. destruct (Ledger.has_id other _) eqn:E; [| reflexivity].
    apply has_id_row_id in E. congruence.
Qed.

Lemma create_job_then_get_witness :
  Ledger.get_job_by_id LedgerExamples.one_job "job-1" = Some Ledger.demo_job.
Proof.
  apply (create_job_then_get "job-1" 0 [] LedgerExamples.one_job
           "https://example.com/article" None Ledger.demo_job).
  unfold LedgerExamples.one_job.
  rewrite create_job_commits by (vm_compute; reflexivity). reflexivity.
Defined.

(** X13: after a successful [update_job_status] that does not assign
    the id, [get_job_by_id] finds the returned job under the same id,
    and finds under every other id the job it found before. *)
Theorem update_job_status_then_get (t t' : list (gmap string Ledger.Value))
    (job_id status : string) (kwargs : list (string * Ledger.Value))
    (job' : gmap string Ledger.Value) :
  "id" ∉ kwargs.*1 ->
  Ledger.update_job_status t job_id status kwargs = (t', Returns (Some job')) ->
  Ledger.get_job_by_id t' job_id = Some job'
  /\ forall other, other <> job_id ->
       Ledger.get_job_by_id t' other = Ledger.get_job_by_id t other.
Proof.
  intros Hid. unfold Ledger.update_job_status.
  destruct (Ledger.get_job_by_id t job_id) as [job |] eqn:Hget;
    [| discriminate].
  match goal with
  | |- context [Ledger.commit t ?new ?ret] =>
      destruct (commit_cases t new ret) as [[Hok ->] | [exc ->]]
  end; [| discriminate].
  intros [= <- <-].
  set (job' := foldl Ledger.set_attr
                 (<["status" := Ledger.VStr status]> job) kwargs).
  assert (Hcol : job' !! "id" = job !! "id").
  { subst job'. rewrite foldl_set_attr_keeps_id by assumption.
    now apply lookup_insert_ne. }
  assert (Hjob : Ledger.has_id job_id job = true).
  { unfold Ledger.get_job_by_id in Hget. now apply find_some in Hget. }
  split.
  - eapply find_replace_first_same; [eassumption |].
    now rewrite (has_id_same_column _ _ _ Hcol).
  - intros other Hne. eapply find_replace_first_other; try eassumption.
    rewrite (has_id_same_column _ _ _ Hcol).
    eapply has_id_other; eassumption.
Qed.

Lemma update_job_status_then_get_witness :
  Ledger.get_job_by_id
    (Ledger.replace_first "job-1" Ledger.demo_completed [Ledger.demo_job])
    "job-1"
  = Some Ledger.demo_completed.
Proof.
  apply (update_job_status_then_get [Ledger.demo_job] _ "job-1" "completed"
           Ledger.completed_kwargs Ledger.demo_completed).
  - intros Hin. unfold Ledger.completed_kwargs in Hin. simpl in Hin.
    repeat (apply elem_of_cons in Hin as [Hin | Hin]; [discriminate |]).
    inversion Hin.
  - rewrite (update_job_status_commits _ _ _ _ _ demo_job_found)
      by (vm_compute; reflexivity).
    reflexivity.
Defined.




(** ** The two implementations of the ledger update *)

Section UpdateAgreement.
Import Ledger.
Variable json_dumps : Value -> string.
Implicit Types (t : list (gmap string Value)) (row job : gmap string Value)
  (kwargs : list (string * Value)) (c k status job_id : string).







End UpdateAgreement.




(** ** Status validation *)

(** X16: [validate_job_status] accepts exactly the statuses that the
    check constraint of the jobs table accepts. *)
Theorem validate_job_status_matches_constraint (status : string)
    (row : gmap string Ledger.Value) :
  Validators.validate_job_status status = true
  <-> Ledger.ck_status_values (<["status" := Ledger.VStr status]> row) = true.
Proof.
  unfold Validators.validate_job_status, Validators.ALLOWED_STATUSES,
    Ledger.ck_status_values, Ledger.allowed_statuses.
  rewrite lookup_insert_eq, !bool_decide_eq_true.
  rewrite !elem_of_cons, !elem_of_union, !elem_of_singleton, elem_of_nil.
  tauto.
Qed.

(** ** Query endpoint: calls and replies *)

Section QueryHandler.
Import Query.
Implicit Types (svc : Services) (request : QueryRequest)
  (results : list LLM.Chunk) (objs : list SourceChunk).

Lemma invalid_dimension_false (v : list float) :
  invalid_dimension v = false -> Z.of_nat (length v) = 1536.
Proof.
  unfold invalid_dimension. destruct v; [discriminate |].
  intros H. now apply negb_false_iff, Z.eqb_eq in H.
Qed.

Lemma source_objs_some svc results objs :
  source_objs svc results = Some objs ->
  length objs = length results
  /\ forall i chunk, results !! i = Some chunk ->
       exists url, LLM.c_source_url chunk = Some url
         /\ objs !! i
            = Some (mkSource (source_text chunk) url (source_score svc chunk)).
Proof.
  revert objs. induction results as [| r rs IH]; intros objs.
  - intros [= <-]. split; [reflexivity |]. intros i chunk Hi. inversion Hi.
  - cbn [source_objs]. destruct (LLM.c_source_url r) as [url |] eqn:Hurl;
      [| discriminate].
    destruct (source_objs svc rs) as [os |]; [| discriminate].
    intros [= <-]. destruct (IH os eq_refl) as [Hlen Hall].
    split; [simpl; now rewrite Hlen |].
    intros [| i] chunk Hi.
    + injection Hi as <-. exists url. now split.
    + now apply Hall.
Qed.

Lemma source_objs_none svc results :
  source_objs svc results = None <->
  exists chunk, chunk ∈ results /\ LLM.c_source_url chunk = None.
Proof.
  induction results as [| r rs IH].
  - split; [discriminate | intros (c & Hc & _); inversion Hc].
  - cbn [source_objs]. destruct (LLM.c_source_url r) as [url |] eqn:Hurl.
    + destruct (source_objs svc rs) as [os |].
      * split; [discriminate |]. intros (c & Hc & Hnone).
        apply elem_of_cons in Hc as [-> | Hc]; [congruence |].
        assert (H : @None (list SourceChunk) = None) by reflexivity.
        destruct IH as [_ IH]. discriminate IH. eauto.
      * split; [| reflexivity]. intros _.
        destruct IH as [IH _]. destruct (IH eq_refl) as (c & Hc & Hnone).
        exists c. split; [now apply list_elem_of_further | assumption].
    + split; [| reflexivity]. intros _. exists r.
      split; [apply list_elem_of_here | assumption].
Qed.

Lemma length_substring_0 (n : nat) (s : string) :
  String.length (String.substring 0 n s) = Nat.min n (String.length s).
Proof.
  revert s. induction n as [| n IH]; intros s.
  - destruct s; reflexivity.
  - destruct s as [| a s]; [reflexivity |]. simpl. now rewrite IH.
Qed.

Lemma length_append (s r : string) :
  String.length (s +:+ r) = (String.length s + String.length r)%nat.
Proof.
  induction s as [| a s IH]; [reflexivity |].
  change (String a s +:+ r) with (String a (s +:+ r)). simpl. now rewrite IH.
Qed.

Lemma source_text_bounded (chunk : LLM.Chunk) :
  let txt := default "" (LLM.c_text chunk) in
  PyStr.len (source_text chunk) <= 303
  /\ (PyStr.len txt <= 300 -> source_text chunk = txt)
  /\ (300 < PyStr.len txt ->
      source_text chunk = String.substring 0 300 txt +:+ "..."
      /\ PyStr.len (source_text chunk) = 303).
Proof.
  intros txt. unfold source_text. fold txt.
  destruct (Z.ltb_spec 300 (PyStr.len txt)) as [Hlong | Hshort];
    unfold PyStr.len in *.
  - rewrite length_append, length_substring_0.
    change (String.length "...") with 3%nat.
    split; [lia |]. split; [lia |]. intros _. split; [reflexivity | lia].
  - split; [lia |]. split; [reflexivity |]. lia.
Qed.

End QueryHandler.

Ltac query_cases svc request :=
  unfold Query.query_knowledge_base;
  destruct (Query.init_services svc) as [[] | ?e] eqn:Hinit;
  [ destruct (Query.embed_query svc (Query.question request))
      as [v | ?e] eqn:Hemb;
    [ destruct (Query.invalid_dimension v) eqn:Hdim;
      [ | destruct (Query.search svc v (Query.top_k request)
                      (Query.filters request)) as [cs | ?e] eqn:Hsearch;
          [ destruct cs as [| c0 cs0];
            [ | destruct (Query.generate_answer svc (Query.question request)
                            (c0 :: cs0)) as [ans | ?e] eqn:Hgen;
                [ destruct (Query.source_objs svc (c0 :: cs0))
                    as [objs |] eqn:Hobjs | ] ] | ] ] | ] | ];
  cbn [fst snd].

Ltac in_calls H :=
  repeat (apply elem_of_cons in H as [H | H]; [try discriminate |]);
  try (inversion H; fail).

(** X17: the handler calls its collaborators in the order embed,
    search, generate and never out of turn: the index is searched only
    with the vector the embedder returned for the question, only if that
    vector has 1536 components, and with the request's [top_k] and
    filters; the generator is called only after that search, with the
    question and the non-empty list of results the search returned. *)
Theorem query_calls_in_order (svc : Query.Services)
    (request : Query.QueryRequest) :
  let calls := (Query.query_knowledge_base svc request).1 in
  (exists v cs,
     calls `prefix_of`
       [Query.EmbedQuery (Query.question request);
        Query.Search v (Query.top_k request) (Query.filters request);
        Query.GenerateAnswer (Query.question request) cs])
  /\ (forall v k f, Query.Search v k f ∈ calls ->
        Query.embed_query svc (Query.question request) = Returns v
        /\ Z.of_nat (length v) = 1536
        /\ k = Query.top_k request /\ f = Query.filters request)
  /\ (forall q cs, Query.GenerateAnswer q cs ∈ calls ->
        q = Query.question request /\ cs <> []
        /\ exists v,
             Query.Search v (Query.top_k request) (Query.filters request)
               ∈ calls
             /\ Query.search svc v (Query.top_k request)
                  (Query.filters request) = Returns cs).
Proof.
  intros calls. subst calls. query_cases svc request.
  all: split;
    [ first [ exists [], []; eexists; reflexivity
            | eexists _, []; eexists; reflexivity
            | eexists _, _; exists []; reflexivity ] |].
  all: split; [intros v' k f H | intros q cs' H]; in_calls H.
  all: try (injection H as <- <- <-; repeat split; try reflexivity;
            now apply invalid_dimension_false).
  all: assert (q = Query.question request /\ cs' = c0 :: cs0) as [-> ->]
         by (split; congruence);
       split; [reflexivity |];
    (split; [discriminate |]); exists v;
    (split; [apply list_elem_of_further, list_elem_of_here | assumption]).
Qed.


Lemma invalid_dimension_true (v : list float) :
  Query.invalid_dimension v = true -> Z.of_nat (length v) <> 1536.
Proof.
  unfold Query.invalid_dimension. destruct v; [simpl; lia |].
  intros H. now apply negb_true_iff, Z.eqb_neq in H.
Qed.

(** X18: the handler never lets an exception through: it answers 200,
    404 or 500.  It answers 404 exactly when all went well up to a
    search that returned nothing.  A 200 reply carries the generator's
    answer for the results of the search, one source per result, the
    number of results and the request's [top_k]. *)
Theorem query_reply_classified (svc : Query.Services)
    (request : Query.QueryRequest) :
  let reply := (Query.query_knowledge_base svc request).2 in
  (forall code detail, reply = Query.HTTPException code detail ->
     code = 404 \/ code = 500)
  /\ ((exists detail, reply = Query.HTTPException 404 detail)
      <-> Query.init_services svc = Returns tt
          /\ exists v,
               Query.embed_query svc (Query.question request) = Returns v
               /\ Z.of_nat (length v) = 1536
               /\ Query.search svc v (Query.top_k request)
                    (Query.filters request) = Returns [])
  /\ (forall body, reply = Query.Ok200 body ->
        exists v cs,
          Query.embed_query svc (Query.question request) = Returns v
          /\ Query.search svc v (Query.top_k request) (Query.filters request)
             = Returns cs
          /\ cs <> []
          /\ Query.generate_answer svc (Query.question request) cs
             = Returns (Query.answer body)
          /\ length (Query.sources body) = length cs
          /\ Query.chunks_retrieved (Query.metadata body)
             = Z.of_nat (length cs)
          /\ Query.md_top_k (Query.metadata body) = Query.top_k request).
Proof.
  intros reply. subst reply. query_cases svc request.
  all: unfold Query.HTTP_404_NOT_FOUND, Query.HTTP_500_INTERNAL_SERVER_ERROR.
  all: split;
    [ intros code detail H;
      first [ discriminate H | injection H as <- _; auto ] |].
  all: split;
    [ split;
      [ intros (detail & H);
        first [ discriminate H
              | split; [reflexivity |]; exists v;
                repeat split; try assumption;
                now apply invalid_dimension_false ]
      | intros (Hi & v' & He & Hl & Hs);
        first [ discriminate Hi
              | discriminate He
              | eexists; reflexivity
              | exfalso; injection He as <-;
                first [ now apply (invalid_dimension_true v)
                      | congruence ] ] ]
    | intros body H; try discriminate H ].
  injection H as <-. exists v, (c0 :: cs0).
  destruct (source_objs_some _ _ _ Hobjs) as [Hlen _].
  repeat split; try assumption; try discriminate.
Qed.

(** X19: in a 200 reply the source at position [i] is made from the
    search result at position [i]: it has that result's URL, its score
    rounded to four places (0.0 when the result has none), and its text
    (empty when it has none) unchanged if it has at most 300
    characters, otherwise its first 300 characters followed by three
    dots; a source text never exceeds 303 characters. *)
Theorem query_sources_follow_results (svc : Query.Services)
    (request : Query.QueryRequest) (body : Query.QueryResponse) :
  (Query.query_knowledge_base svc request).2 = Query.Ok200 body ->
  exists v cs,
    Query.embed_query svc (Query.question request) = Returns v
    /\ Query.search svc v (Query.top_k request) (Query.filters request)
       = Returns cs
    /\ forall i chunk, cs !! i = Some chunk ->
         exists src,
           Query.sources body !! i = Some src
           /\ LLM.c_source_url chunk = Some (Query.sc_source_url src)
           /\ Query.sc_relevance_score src
              = Query.round4 svc (default (Float 0 0) (LLM.c_score chunk))
           /\ PyStr.len (Query.sc_text src) <= 303
           /\ (PyStr.len (default "" (LLM.c_text chunk)) <= 300 ->
               Query.sc_text src = default "" (LLM.c_text chunk))
           /\ (300 < PyStr.len (default "" (LLM.c_text chunk)) ->
               Query.sc_text src
               = String.substring 0 300 (default "" (LLM.c_text chunk))
                 +:+ "...").
Proof.
  query_cases svc request; intros H; try discriminate H.
  injection H as <-. exists v, (c0 :: cs0).
  split; [first [assumption | reflexivity] |].
  split; [first [assumption | reflexivity] |].
  destruct (source_objs_some _ _ _ Hobjs) as [_ Hall].
  intros i chunk Hi. destruct (Hall i chunk Hi) as (url & Hurl & Hsrc).
  eexists. split; [exact Hsrc |].
  cbn [Query.sc_source_url Query.sc_relevance_score Query.sc_text].
  destruct (source_text_bounded chunk) as (Hb & Hshort & Hlong).
  repeat split; try assumption.
  intros Hl. now apply Hlong.
Qed.

(** X20: when every stage succeeded but one of the search results has
    no [source_url], the generated answer is discarded and the reply is
    a 500 error carrying the validation message; the generator has been
    called all the same. *)
Theorem query_source_without_url (svc : Query.Services)
    (request : Query.QueryRequest) (v : list float) (cs : list LLM.Chunk)
    (ans : string) (chunk : LLM.Chunk) :
  Query.init_services svc = Returns tt ->
  Query.embed_query svc (Query.question request) = Returns v ->
  Z.of_nat (length v) = 1536 ->
  Query.search svc v (Query.top_k request) (Query.filters request)
  = Returns cs ->
  Query.generate_answer svc (Query.question request) cs = Returns ans ->
  chunk ∈ cs -> LLM.c_source_url chunk = None ->
  Query.query_knowledge_base svc request
  = ([Query.EmbedQuery (Query.question request);
      Query.Search v (Query.top_k request) (Query.filters request);
      Query.GenerateAnswer (Query.question request) cs],
     Query.HTTPException 500
       ("Query processing failed: " +:+ Query.validation_error svc)).
Proof.
  intros Hinit Hemb Hlen Hsearch Hgen Hin Hurl.
  unfold Query.query_knowledge_base. rewrite Hinit, Hemb.
  assert (Hdim : Query.invalid_dimension v = false).
  { destruct (Query.invalid_dimension v) eqn:E; [| reflexivity].
    now apply invalid_dimension_true in E. }
  rewrite Hdim, Hsearch.
  destruct cs as [| c0 cs0]; [inversion Hin |].
  rewrite Hgen.
  assert (Hnone : Query.source_objs svc (c0 :: cs0) = None)
    by (apply source_objs_none; eauto).
  rewrite Hnone. reflexivity.
Qed.

Lemma query_calls_in_order_witness :
  Z.of_nat (length QueryExamples.zero_vector) = 1536.
Proof.
  apply (proj1 (proj2 (query_calls_in_order (QueryExamples.services [])
                         QueryExamples.request))
           QueryExamples.zero_vector 5 None).
  apply list_elem_of_further, list_elem_of_here.
Defined.

Lemma query_reply_classified_witness : (404 = 404 \/ 404 = 500)%Z.
Proof.
  apply (proj1 (query_reply_classified (QueryExamples.services [])
                  QueryExamples.request) 404
           "No relevant documents found. Please ingest URLs first using POST /ingest-url").
  reflexivity.
Defined.

Lemma query_sources_follow_results_witness :
  exists v cs,
    Query.embed_query (QueryExamples.services [QueryExamples.hit])
      (Query.question QueryExamples.request) = Returns v
    /\ Query.search (QueryExamples.services [QueryExamples.hit]) v
         (Query.top_k QueryExamples.request)
         (Query.filters QueryExamples.request) = Returns cs
    /\ forall i chunk, cs !! i = Some chunk ->
         exists src,
           Query.sources QueryExamples.body !! i = Some src
           /\ LLM.c_source_url chunk = Some (Query.sc_source_url src)
           /\ Query.sc_relevance_score src
              = Query.round4 (QueryExamples.services [QueryExamples.hit])
                  (default (Float 0 0) (LLM.c_score chunk))
           /\ PyStr.len (Query.sc_text src) <= 303
           /\ (PyStr.len (default "" (LLM.c_text chunk)) <= 300 ->
               Query.sc_text src = default "" (LLM.c_text chunk))
           /\ (300 < PyStr.len (default "" (LLM.c_text chunk)) ->
               Query.sc_text src
               = String.substring 0 300 (default "" (LLM.c_text chunk))
                 +:+ "...").
Proof.
  apply (query_sources_follow_results (QueryExamples.services [QueryExamples.hit])
           QueryExamples.request QueryExamples.body).
  reflexivity.
Defined.

Lemma query_source_without_url_witness :
  (Query.query_knowledge_base
     (QueryExamples.services [QueryExamples.hit; QueryExamples.hit_without_url])
     QueryExamples.request).2
  = Query.HTTPException 500
      "Query processing failed: 1 validation error for SourceChunk".
Proof.
  rewrite (query_source_without_url
             (QueryExamples.services
                [QueryExamples.hit; QueryExamples.hit_without_url])
             QueryExamples.request QueryExamples.zero_vector
             [QueryExamples.hit; QueryExamples.hit_without_url]
             "According to Source 1" QueryExamples.hit_without_url);
    try reflexivity.
  apply list_elem_of_further, list_elem_of_here.
Defined.

(** ** Fetching *)

Lemma startswith_append (p s : string) : PyStr.startswith p (p +:+ s) = true.
Proof.
  induction p as [| a p IH]; [reflexivity |].
  change (String a p +:+ s) with (String a (p +:+ s)).
  cbn [PyStr.startswith]. now rewrite Ascii.eqb_refl.
Qed.

Lemma contains_here (x s : string) : PyStr.contains x (x +:+ s) = true.
Proof.
  destruct (x +:+ s) eqn:E; cbn [PyStr.contains]; rewrite <- E;
    now rewrite startswith_append.
Qed.

Lemma contains_later (x a s : string) :
  PyStr.contains x s = true -> PyStr.contains x (a +:+ s) = true.
Proof.
  intros H. induction a as [| c a IH]; [exact H |].
  change (String c a +:+ s) with (String c (a +:+ s)).
  cbn [PyStr.contains]. rewrite IH. apply orb_true_r.
Qed.

(** X21: the fetcher returns the body only for status 200.  For any
    other status, other 2xx codes included, it raises a [ValueError]
    whose message names the URL and the status code. *)
Theorem fetch_fails_unless_200 (get : string -> outcome Fetcher.Response)
    (url : string) (resp : Fetcher.Response) :
  get url = Returns resp ->
  (Fetcher.status_code resp = 200 ->
   Fetcher.fetch_url_content_sync get url = Returns (Fetcher.text resp))
  /\ (Fetcher.status_code resp <> 200 ->
      exists msg,
        Fetcher.fetch_url_content_sync get url = Raises (Exn "ValueError" msg)
        /\ PyStr.contains (pretty (Fetcher.status_code resp)) msg = true
        /\ PyStr.contains url msg = true).
Proof.
  intros Hget. unfold Fetcher.fetch_url_content_sync. rewrite Hget. split.
  - intros ->. reflexivity.
  - intros Hne. destruct (Z.eqb_spec (Fetcher.status_code resp) 200);
      [contradiction |].
    eexists. split; [reflexivity |]. split.
    + apply contains_later, contains_later, contains_later.
      rewrite <- (append_empty_r (pretty (Fetcher.status_code resp))) at 2.
      apply contains_here.
    + apply contains_later, contains_here.
Qed.

(** ** Database URL *)

Lemma drop_append (p s : string) : Config.drop (String.length p) (p +:+ s) = s.
Proof. induction p as [| a p IH]; [reflexivity | exact IH]. Qed.

Lemma startswith_split (p s : string) :
  PyStr.startswith p s = true -> s = p +:+ Config.drop (String.length p) s.
Proof.
  revert s. induction p as [| a p IH]; intros s H; [reflexivity |].
  destruct s as [| b s]; [discriminate |]. cbn [PyStr.startswith] in H.
  destruct (Ascii.eqb_spec a b) as [-> | _]; [| discriminate].
  change (String b p +:+ Config.drop (String.length (String b p)) (String b s))
    with (String b (p +:+ Config.drop (String.length p) s)).
  f_equal. now apply IH.
Qed.

Lemma replace_first_unfold (old new s : string) :
  Config.replace_first old new s
  = if PyStr.startswith old s
    then new +:+ Config.drop (String.length old) s
    else match s with
         | EmptyString => EmptyString
         | String c s' => String c (Config.replace_first old new s')
         end.
Proof. destruct s; reflexivity. Qed.

Lemma replace_first_prefix (old new rest : string) :
  Config.replace_first old new (old +:+ rest) = new +:+ rest.
Proof.
  rewrite replace_first_unfold, startswith_append. now rewrite drop_append.
Qed.

Lemma truthy_append (p s : string) :
  p <> "" -> Config.truthy (Some (p +:+ s)) = true.
Proof. destruct p; [contradiction | reflexivity]. Qed.

Lemma build_database_url_asyncpg (rest : string) (values : Config.Values) :
  Config.build_database_url (Some ("postgresql+asyncpg://" +:+ rest)) values
  = Returns ("postgresql+asyncpg://" +:+ rest).
Proof.
  unfold Config.build_database_url.
  rewrite truthy_append by discriminate. cbv [default from_option id].
  now rewrite startswith_append.
Qed.

Lemma build_database_url_cases (v : string) (values : Config.Values) :
  v <> "" ->
  Config.build_database_url (Some v) values
  = if PyStr.startswith "postgresql+asyncpg://" v then Returns v
    else if PyStr.startswith "postgresql://" v
    then Returns ("postgresql+asyncpg://"
                  +:+ Config.drop (String.length "postgresql://") v)
    else if PyStr.startswith "postgres://" v
    then Returns ("postgresql+asyncpg://"
                  +:+ Config.drop (String.length "postgres://") v)
    else Returns v.
Proof.
  intros Hv. unfold Config.build_database_url.
  assert (Ht : Config.truthy (Some v) = true)
    by (destruct v; [contradiction | reflexivity]).
  rewrite Ht. cbv [default from_option id].
  destruct (PyStr.startswith "postgresql+asyncpg://" v); [reflexivity |].
  destruct (PyStr.startswith "postgresql://" v) eqn:H2.
  { rewrite (startswith_split _ _ H2) at 1. now rewrite replace_first_prefix. }
  destruct (PyStr.startswith "postgres://" v) eqn:H3; [| reflexivity].
  rewrite (startswith_split _ _ H3) at 1. now rewrite replace_first_prefix.
Qed.

(** X22: a non-empty [DATABASE_URL] is always accepted.  A value that
    begins with [postgresql://] or [postgres://] has that prefix, and
    nothing else, replaced by [postgresql+asyncpg://]; any other value
    is kept as it is; and the result is a fixed point: validating it
    again returns it unchanged. *)
Theorem build_database_url_normalises (v : string) (values : Config.Values) :
  v <> "" ->
  exists r,
    Config.build_database_url (Some v) values = Returns r
    /\ (forall rest, v = "postgresql+asyncpg://" +:+ rest -> r = v)
    /\ (forall rest, v = "postgresql://" +:+ rest ->
          r = "postgresql+asyncpg://" +:+ rest)
    /\ (forall rest, v = "postgres://" +:+ rest ->
          r = "postgresql+asyncpg://" +:+ rest)
    /\ (PyStr.startswith "postgresql+asyncpg://" v = false ->
        PyStr.startswith "postgresql://" v = false ->
        PyStr.startswith "postgres://" v = false -> r = v)
    /\ Config.build_database_url (Some r) values = Returns r.
Proof.
  intros Hv. rewrite (build_database_url_cases v values Hv).
  assert (Hx1 : forall rest,
             PyStr.startswith "postgresql+asyncpg://" ("postgresql://" +:+ rest)
             = false) by reflexivity.
  assert (Hx2 : forall rest,
             PyStr.startswith "postgresql+asyncpg://" ("postgres://" +:+ rest)
             = false) by reflexivity.
  assert (Hx3 : forall rest,
             PyStr.startswith "postgresql://" ("postgres://" +:+ rest)
             = false) by reflexivity.
  destruct (PyStr.startswith "postgresql+asyncpg://" v) eqn:H1.
  { exists v. split; [reflexivity |]. split; [reflexivity |].
    split; [intros rest ->; now rewrite Hx1 in H1 |].
    split; [intros rest ->; now rewrite Hx2 in H1 |].
    split; [discriminate |].
    rewrite (startswith_split _ _ H1). apply build_database_url_asyncpg. }
  destruct (PyStr.startswith "postgresql://" v) eqn:H2.
  { eexists. split; [reflexivity |].
    split; [intros rest ->; now rewrite startswith_append in H1 |].
    split; [intros rest ->; now rewrite drop_append |].
    split; [intros rest ->; now rewrite Hx3 in H2 |].
    split; [discriminate |]. apply build_database_url_asyncpg. }
  destruct (PyStr.startswith "postgres://" v) eqn:H3.
  { eexists. split; [reflexivity |].
    split; [intros rest ->; now rewrite startswith_append in H1 |].
    split; [intros rest ->; now rewrite startswith_append in H2 |].
    split; [intros rest ->; now rewrite drop_append |].
    split; [discriminate |]. apply build_database_url_asyncpg. }
  exists v. split; [reflexivity |].
  split; [intros rest ->; now rewrite startswith_append in H1 |].
  split; [intros rest ->; now rewrite startswith_append in H2 |].
  split; [intros rest ->; now rewrite startswith_append in H3 |].
  split; [reflexivity |].
  rewrite (build_database_url_cases v values Hv). now rewrite H1, H2, H3.
Qed.

Lemma fetch_fails_unless_200_witness :
  exists msg,
    Fetcher.fetch_url_content_sync
      (fun _ => Returns (Fetcher.mkResponse 404 "Not Found"))
      "https://example.com/missing"
    = Raises (Exn "ValueError" msg)
    /\ PyStr.contains (pretty 404) msg = true
    /\ PyStr.contains "https://example.com/missing" msg = true.
Proof.
  apply (proj2 (fetch_fails_unless_200
                  (fun _ => Returns (Fetcher.mkResponse 404 "Not Found"))
                  "https://example.com/missing"
                  (Fetcher.mkResponse 404 "Not Found") eq_refl)).
  simpl. lia.
Defined.

Lemma build_database_url_normalises_witness :
  exists r,
    Config.build_database_url (Some "postgres://u:p@db:5432/rag")
      (Config.mkValues None None None None None) = Returns r
    /\ (forall rest, "postgres://u:p@db:5432/rag"
                     = "postgresql+asyncpg://" +:+ rest ->
          r = "postgres://u:p@db:5432/rag")
    /\ (forall rest, "postgres://u:p@db:5432/rag" = "postgresql://" +:+ rest ->
          r = "postgresql+asyncpg://" +:+ rest)
    /\ (forall rest, "postgres://u:p@db:5432/rag" = "postgres://" +:+ rest ->
          r = "postgresql+asyncpg://" +:+ rest)
    /\ (PyStr.startswith "postgresql+asyncpg://" "postgres://u:p@db:5432/rag"
        = false ->
        PyStr.startswith "postgresql://" "postgres://u:p@db:5432/rag" = false ->
        PyStr.startswith "postgres://" "postgres://u:p@db:5432/rag" = false ->
        r = "postgres://u:p@db:5432/rag")
    /\ Config.build_database_url (Some r)
         (Config.mkValues None None None None None) = Returns r.
Proof.
  apply (build_database_url_normalises "postgres://u:p@db:5432/rag"
           (Config.mkValues None None None None None)).
  discriminate.
Defined.

(** ** Free-text clean-up *)

Section SanitizeText.
Import Sanitize.
Implicit Types (s r : string) (c : ascii) (b : bool).

Lemma is_space_eqb c : Ascii.eqb " " c = is_space c.
Proof. destruct c as [[] [] [] [] [] [] [] []]; reflexivity. Qed.

Lemma is_space_isspace c : is_space c = true -> PyStr.isspace c = true.
Proof. destruct c as [[] [] [] [] [] [] [] []]; (reflexivity || discriminate). Qed.

Lemma contains_2sp_step c r :
  PyStr.contains "  " (String c r)
  = is_space c && head_is_space r || PyStr.contains "  " r.
Proof.
  change (PyStr.contains "  " (String c r))
    with (PyStr.startswith "  " (String c r) || PyStr.contains "  " r).
  f_equal. cbn [PyStr.startswith]. rewrite is_space_eqb.
  destruct (is_space c); [| reflexivity].
  destruct r as [| d r]; [reflexivity |]. cbn [head_is_space].
  rewrite is_space_eqb. now destruct (is_space d).
Qed.

Lemma sub_spaces_single b s :
  PyStr.contains "  " (sub_spaces b s) = false
  /\ (b = true -> head_is_space (sub_spaces b s) = false).
Proof.
  revert b. induction s as [| c s IH]; intros b; [split; reflexivity |].
  cbn [sub_spaces]. destruct (is_space c) eqn:Hc.
  - destruct b.
    + apply IH.
    + split; [| discriminate]. rewrite contains_2sp_step, Hc.
      destruct (IH true) as [-> ->]; reflexivity.
  - split.
    + rewrite contains_2sp_step, Hc. now destruct (IH false) as [-> _].
    + intros _. cbn [head_is_space]. exact Hc.
Qed.

Lemma sub_spaces_chars b s c :
  c ∈ PyStr.chars (sub_spaces b s) -> c ∈ PyStr.chars s.
Proof.
  revert b. induction s as [| a s IH]; intros b; [trivial |].
  cbn [sub_spaces]. unfold PyStr.chars in *. cbn [list_ascii_of_string].
  destruct (is_space a); [destruct b |]; cbn [list_ascii_of_string];
    rewrite ?elem_of_cons; intros H; try destruct H as [-> | H]; eauto.
Qed.

Lemma sub_tab_cr_lf_chars b s c :
  c ∈ PyStr.chars (sub_tab_cr_lf b s) -> is_tab_cr_lf c = false.
Proof.
  revert b. induction s as [| a s IH]; intros b; [inversion 1 |].
  cbn [sub_tab_cr_lf]. unfold PyStr.chars in *.
  destruct (is_tab_cr_lf a) eqn:Ha; [destruct b |];
    cbn [list_ascii_of_string]; rewrite ?elem_of_cons;
    intros H; try destruct H as [-> | H]; eauto.
Qed.

Lemma lstrip_chars s c : c ∈ PyStr.chars (PyStr.lstrip s) -> c ∈ PyStr.chars s.
Proof.
  induction s as [| a s IH]; [trivial |]. cbn [PyStr.lstrip].
  destruct (PyStr.isspace a); [| trivial].
  intros H. unfold PyStr.chars in *. cbn [list_ascii_of_string].
  apply list_elem_of_further. now apply IH.
Qed.

Lemma rstrip_cases a s :
  (PyStr.rstrip (String a s) = EmptyString)
  \/ (PyStr.rstrip s = EmptyString /\ PyStr.isspace a = false
      /\ PyStr.rstrip (String a s) = String a EmptyString)
  \/ (PyStr.rstrip s <> EmptyString
      /\ PyStr.rstrip (String a s) = String a (PyStr.rstrip s)).
Proof.
  cbn [PyStr.rstrip]. destruct (PyStr.rstrip s) eqn:E.
  - destruct (PyStr.isspace a); [left | right; left]; auto.
  - right; right. split; [discriminate | reflexivity].
Qed.

Lemma rstrip_chars s c : c ∈ PyStr.chars (PyStr.rstrip s) -> c ∈ PyStr.chars s.
Proof.
  induction s as [| a s IH]; [trivial |].
  destruct (rstrip_cases a s) as [-> | [(_ & _ & ->) | (_ & ->)]].
  - inversion 1.
  - unfold PyStr.chars. cbn [list_ascii_of_string].
    intros ->%list_elem_of_singleton. apply list_elem_of_here.
  - unfold PyStr.chars in *. cbn [list_ascii_of_string].
    rewrite !elem_of_cons. intros [-> | H]; auto.
Qed.

Lemma lstrip_single s :
  PyStr.contains "  " s = false -> PyStr.contains "  " (PyStr.lstrip s) = false.
Proof.
  induction s as [| a s IH]; [trivial |]. cbn [PyStr.lstrip].
  destruct (PyStr.isspace a); [| trivial].
  rewrite contains_2sp_step. intros H%orb_false_iff. now apply IH.
Qed.

Lemma rstrip_head s :
  head_is_space (PyStr.rstrip s) = true -> head_is_space s = true.
Proof.
  destruct s as [| a s]; [trivial |].
  destruct (rstrip_cases a s) as [-> | [(_ & _ & ->) | (_ & ->)]];
    cbn [head_is_space]; (discriminate || trivial).
Qed.

Lemma rstrip_single s :
  PyStr.contains "  " s = false -> PyStr.contains "  " (PyStr.rstrip s) = false.
Proof.
  induction s as [| a s IH]; [trivial |].
  rewrite contains_2sp_step. intros [H1 H2]%orb_false_iff.
  destruct (rstrip_cases a s) as [-> | [(_ & _ & ->) | (_ & ->)]].
  - reflexivity.
  - rewrite contains_2sp_step. cbn. now rewrite andb_false_r.
  - rewrite contains_2sp_step, (IH H2), orb_false_r.
    destruct (is_space a); [| reflexivity]. cbn [andb] in *.
    destruct (head_is_space (PyStr.rstrip s)) eqn:E; [| reflexivity].
    apply rstrip_head in E. congruence.
Qed.

Lemma rstrip_idem s : PyStr.rstrip (PyStr.rstrip s) = PyStr.rstrip s.
Proof.
  induction s as [| a s IH]; [reflexivity |].
  destruct (rstrip_cases a s) as [-> | [(_ & Ha & ->) | (Hne & ->)]].
  - reflexivity.
  - cbn. now rewrite Ha.
  - cbn [PyStr.rstrip]. rewrite IH.
    destruct (PyStr.rstrip s); [contradiction | reflexivity].
Qed.

Lemma lstrip_head s :
  PyStr.lstrip s = EmptyString
  \/ exists a r, PyStr.lstrip s = String a r /\ PyStr.isspace a = false.
Proof.
  induction s as [| a s IH]; [now left |]. cbn [PyStr.lstrip].
  destruct (PyStr.isspace a) eqn:Ha; [exact IH | right; eauto].
Qed.

Lemma strip_idem s : PyStr.strip (PyStr.strip s) = PyStr.strip s.
Proof.
  unfold PyStr.strip.
  destruct (lstrip_head s) as [-> | (a & r & -> & Ha)]; [reflexivity |].
  assert (E : PyStr.lstrip (PyStr.rstrip (String a r))
              = PyStr.rstrip (String a r)).
  { destruct (rstrip_cases a r) as [E | [(_ & _ & E) | (_ & E)]]; rewrite E.
    - reflexivity.
    - cbn. now rewrite Ha.
    - cbn [PyStr.lstrip]. now rewrite Ha. }
  rewrite E. apply rstrip_idem.
Qed.

Lemma sub_tab_cr_lf_id b s :
  (forall c, c ∈ PyStr.chars s -> is_tab_cr_lf c = false) ->
  sub_tab_cr_lf b s = s.
Proof.
  revert b. induction s as [| a s IH]; intros b H; [reflexivity |].
  cbn [sub_tab_cr_lf]. unfold PyStr.chars in H. cbn [list_ascii_of_string] in H.
  rewrite (H a) by apply list_elem_of_here. f_equal. apply IH.
  intros c Hc. apply H. now apply list_elem_of_further.
Qed.

Lemma sub_spaces_id b s :
  PyStr.contains "  " s = false -> (b = true -> head_is_space s = false) ->
  sub_spaces b s = s.
Proof.
  revert b. induction s as [| a s IH]; intros b H Hb; [reflexivity |].
  rewrite contains_2sp_step in H. apply orb_false_iff in H as [H1 H2].
  cbn [sub_spaces]. destruct (is_space a) eqn:Ha.
  - destruct b; [specialize (Hb eq_refl); cbn in Hb; congruence |].
    f_equal. apply IH; [assumption |]. intros _. exact H1.
  - f_equal. apply IH; [assumption | discriminate].
Qed.

End SanitizeText.

(** X23: the result of [sanitize_text] contains no tab, carriage
    return or line feed and no two consecutive spaces, has no
    whitespace at either end, is empty for a missing or empty input,
    and is left unchanged by a second pass. *)
Theorem sanitize_text_normal_form (text : option string) :
  let out := Sanitize.sanitize_text text in
  (forall c, c ∈ PyStr.chars out -> Sanitize.is_tab_cr_lf c = false)
  /\ PyStr.contains "  " out = false
  /\ PyStr.strip out = out
  /\ (text = None \/ text = Some "" -> out = "")
  /\ Sanitize.sanitize_text (Some out) = out.
Proof.
  intros out.
  assert (H : (forall c, c ∈ PyStr.chars out -> Sanitize.is_tab_cr_lf c = false)
              /\ PyStr.contains "  " out = false /\ PyStr.strip out = out).
  { subst out. destruct text as [[| a t] |];
      [repeat split; inversion 1 | | repeat split; inversion 1].
    cbn [Sanitize.sanitize_text]. split; [| split].
    - intros c Hc. unfold PyStr.strip in Hc.
      apply rstrip_chars, lstrip_chars, sub_spaces_chars in Hc.
      eapply sub_tab_cr_lf_chars, Hc.
    - unfold PyStr.strip. apply rstrip_single, lstrip_single.
      apply sub_spaces_single.
    - apply strip_idem. }
  destruct H as (Hc & Hd & Hs). repeat split; try assumption.
  - subst out. intros [-> | ->]; reflexivity.
  - destruct out as [| a o] eqn:E; [reflexivity |]. rewrite <- E in *.
    assert (E' : Sanitize.sanitize_text (Some out)
                 = PyStr.strip (Sanitize.sub_spaces false
                                  (Sanitize.sub_tab_cr_lf false out))).
    { rewrite E. reflexivity. }
    rewrite E', sub_tab_cr_lf_id, sub_spaces_id; auto. discriminate.
Qed.

(** ** Submission endpoint *)

Section SubmissionSteps.
Import Ledger.
Implicit Types (t : list (gmap string Value)) (row job : gmap string Value)
  (kwargs : list (string * Value)) (c k status job_id other : string).

Lemma row_ids_replace_first job_id job job' t :
  get_job_by_id t job_id = Some job -> row_id job' = Some job_id ->
  row_id <$> replace_first job_id job' t = row_id <$> t.
Proof.
  unfold get_job_by_id. intros Hget Hid.
  induction t as [| r t IH]; [discriminate |].
  simpl in *. destruct (has_id job_id r) eqn:Hr.
  - rewrite !fmap_cons. f_equal. apply has_id_row_id in Hr. congruence.
  - rewrite !fmap_cons. f_equal. now apply IH.
Qed.

Lemma forallb_replace_first (p : gmap string Value -> bool) job_id job' t :
  forallb p t = true -> p job' = true ->
  forallb p (replace_first job_id job' t) = true.
Proof.
  intros Ht Hj. induction t as [| r t IH]; [reflexivity |].
  simpl in *. apply andb_true_iff in Ht as [Hr Ht].
  destruct (has_id job_id r); simpl.
  - now rewrite Hj.
  - now rewrite Hr, IH.
Qed.

(** Writing back a row that keeps its id and has an allowed status is
    never refused. *)
Lemma constraints_replace_first job_id job job' t :
  constraints_ok t = true -> get_job_by_id t job_id = Some job ->
  row_id job' = Some job_id -> ck_status_values job' = true ->
  constraints_ok (replace_first job_id job' t) = true.
Proof.
  unfold constraints_ok, primary_key_ok. rewrite !andb_true_iff.
  intros (Hck & Hsome & Hnd) Hget Hid Hst. repeat split.
  - now apply forallb_replace_first.
  - apply forallb_replace_first; [assumption |].
    rewrite Hid. apply bool_decide_eq_true. eauto.
  - now rewrite (row_ids_replace_first _ _ _ _ Hget Hid).
Qed.

(** A row with a fresh id and an allowed status can be appended. *)
Lemma constraints_app_fresh job_id row t :
  constraints_ok t = true -> get_job_by_id t job_id = None ->
  row_id row = Some job_id -> ck_status_values row = true ->
  constraints_ok (t ++ [row]) = true.
Proof.
  unfold constraints_ok, primary_key_ok. rewrite !andb_true_iff.
  intros (Hck & Hsome & Hnd) Hget Hid Hst.
  rewrite !forallb_app, !andb_true_iff. cbn [forallb].
  rewrite Hst, Hid. repeat split; try assumption.
  apply bool_decide_eq_true. apply bool_decide_eq_true in Hnd.
  rewrite fmap_app. apply NoDup_app. repeat split; [assumption | |].
  - intros x Hx Hx'. simpl in Hx'. apply list_elem_of_singleton in Hx'.
    subst x. apply list_elem_of_fmap in Hx as (r & Hr & Hin).
    pose proof (find_none_notin _ _ Hget r Hin) as Hno.
    assert (has_id job_id r = true) by (apply has_id_row_id; congruence).
    congruence.
  - simpl. apply NoDup_singleton.
Qed.

Lemma find_app_fresh job_id row t :
  get_job_by_id t job_id = None -> has_id job_id row = true ->
  get_job_by_id (t ++ [row]) job_id = Some row.
Proof.
  unfold get_job_by_id. intros Hget Hid. rewrite find_app_l, Hget.
  simpl. now rewrite Hid.
Qed.

Lemma find_app_other other row t :
  has_id other row = false ->
  get_job_by_id (t ++ [row]) other = get_job_by_id t other.
Proof.
  unfold get_job_by_id. intros Hid. rewrite find_app_l.
  destruct (List.find (has_id other) t); [reflexivity |].
  simpl. now rewrite Hid.
Qed.


(** The job row that [ingest_url] has stored once the enqueue step is
    over: the new row with the status and the one keyword written. *)
Lemma submitted_row new_id now url metadata status k v :
  k = "celery_task_id" \/ k = "error_message" ->
  status ∈ allowed_statuses ->
  let job := new_job new_id now url metadata in
  let job' := foldl set_attr (<["status" := VStr status]> job) [(k, v)] in
  row_id job' = Some new_id
  /\ ck_status_values job' = true
  /\ job' !! "status" = Some (VStr status)
  /\ job' !! k = Some v
  /\ forall c, c <> "status" -> c <> k -> job' !! c = job !! c.
Proof.
  intros Hk Hst job job'.
  assert (E : job' = <[k := v]> (<["status" := VStr status]> job)).
  { subst job'. destruct Hk as [-> | ->]; reflexivity. }
  assert (Hne : k <> "status") by (destruct Hk as [-> | ->]; discriminate).
  assert (Hid : k <> "id") by (destruct Hk as [-> | ->]; discriminate).
  assert (Hs : job' !! "status" = Some (VStr status)).
  { rewrite E, lookup_insert_ne by assumption. apply lookup_insert_eq. }
  repeat split.
  - unfold row_id. rewrite E, !lookup_insert_ne by congruence.
    subst job. vm_compute. reflexivity.
  - unfold ck_status_values. rewrite Hs. now apply bool_decide_eq_true.
  - assumption.
  - rewrite E. apply lookup_insert_eq.
  - intros c Hc Hc'. rewrite E, !lookup_insert_ne by congruence. reflexivity.
Qed.

End SubmissionSteps.

(** What both outcomes of the enqueue step leave in the ledger: the new
    job under its id, with the status and keyword written, and every
    other job as before. *)
Lemma submitted_ledger (new_id : string) (now : Z) (url : string)
    (metadata : option Ledger.json) (status k : string) (v : Ledger.Value)
    (t : list (gmap string Ledger.Value)) :
  k = "celery_task_id" \/ k = "error_message" ->
  status ∈ Ledger.allowed_statuses ->
  Ledger.constraints_ok t = true ->
  Ledger.get_job_by_id t new_id = None ->
  let job := Ledger.new_job new_id now url metadata in
  let job' := foldl Ledger.set_attr (<["status" := Ledger.VStr status]> job)
                [(k, v)] in
  let t' := Ledger.replace_first new_id job' (t ++ [job]) in
  Ledger.create_job new_id now t url metadata = ((t ++ [job])%list, Returns job)
  /\ Ledger.update_job_status (t ++ [job]) new_id status [(k, v)]
     = (t', Returns (Some job'))
  /\ Ledger.constraints_ok t' = true
  /\ Ledger.get_job_by_id t' new_id = Some job'
  /\ forall other, other <> new_id ->
       Ledger.get_job_by_id t' other = Ledger.get_job_by_id t other.
Proof.
  intros Hk Hst Hok Hfresh job job' t'.
  destruct (submitted_row new_id now url metadata status k v Hk Hst)
    as (Hid' & Hck' & _).
  fold job in Hid', Hck'. fold job' in Hid', Hck'.
  assert (Hid : Ledger.row_id job = Some new_id)
    by (subst job; vm_compute; reflexivity).
  assert (Hck : Ledger.ck_status_values job = true)
    by (subst job; vm_compute; reflexivity).
  assert (Hok1 : Ledger.constraints_ok (t ++ [job]) = true)
    by (eapply constraints_app_fresh; eassumption).
  assert (Hget1 : Ledger.get_job_by_id (t ++ [job]) new_id = Some job).
  { apply find_app_fresh; [assumption |]. now apply has_id_row_id. }
  assert (Hok2 : Ledger.constraints_ok t' = true)
    by (eapply constraints_replace_first; eassumption).
  repeat split.
  - now apply create_job_commits.
  - now apply update_job_status_commits.
  - assumption.
  - eapply find_replace_first_same; [eassumption |]. now apply has_id_row_id.
  - intros other Hne. subst t'.
    rewrite (find_replace_first_other new_id other job job') ; try assumption.
    + apply find_app_other.
      destruct (Ledger.has_id other job) eqn:E; [| reflexivity].
      apply has_id_row_id in E. congruence.
    + destruct (Ledger.has_id other job') eqn:E; [| reflexivity].
      apply has_id_row_id in E. congruence.
Qed.

(** X24: with a valid URL, a ledger that meets its constraints and a
    fresh job id, a successful enqueue makes [ingest_url] answer 202
    with the new id and status pending; the ledger still meets its
    constraints, the new job carries the Celery task id, [get_status]
    reports it as pending with no completion time, no error and a chunk
    count of 0, and reports every other job as before. *)
Theorem ingest_url_accepted (new_id : string) (now : Z) (task_id : string)
    (t : list (gmap string Ledger.Value)) (url : string)
    (metadata : option Ledger.json) :
  Ledger.constraints_ok t = true ->
  Ledger.get_job_by_id t new_id = None ->
  exists t',
    Submission.ingest_url true new_id now (Returns task_id) t url metadata
    = (t', Submission.Accepted new_id "pending" "Job accepted" 30)
    /\ Ledger.constraints_ok t' = true
    /\ (exists job, Ledger.get_job_by_id t' new_id = Some job
          /\ job !! "celery_task_id" = Some (Ledger.VStr task_id))
    /\ Submission.get_status t' new_id
       = Some (Submission.mkStatus new_id "pending" (Ledger.VStr url)
                 (Ledger.VTime now) Ledger.VNone
                 (Ledger.VFloat (Float 0 0)) 0 Ledger.VNone)
    /\ forall other, other <> new_id ->
         Submission.get_status t' other = Submission.get_status t other.
Proof.
  intros Hok Hfresh.
  set (md := Some (default (Ledger.JObj []) metadata)).
  assert (Hp : "pending" ∈ Ledger.allowed_statuses)
    by (apply list_elem_of_here).
  destruct (submitted_ledger new_id now url md "pending" "celery_task_id"
              (Ledger.VStr task_id) t (or_introl eq_refl) Hp Hok Hfresh)
    as (Hcreate & Hupd & Hok' & Hget & Hother).
  destruct (submitted_row new_id now url md "pending" "celery_task_id"
              (Ledger.VStr task_id) (or_introl eq_refl) Hp)
    as (_ & _ & Hs & Hk & Hrest).
  set (job := Ledger.new_job new_id now url md) in *.
  set (job' := foldl Ledger.set_attr _ _) in *.
  assert (Hst : Submission.status_of job = "pending")
    by (subst job; vm_compute; reflexivity).
  eexists. split; [| split; [exact Hok' | split; [| split]]].
  - unfold Submission.ingest_url. cbn [negb]. fold md. rewrite Hcreate.
    fold job. rewrite Hst, Hupd. reflexivity.
  - eauto.
  - unfold Submission.get_status. rewrite Hget.
    unfold Submission.status_of, Submission.chunk_count_or_0, Ledger.col.
    rewrite Hs, !Hrest by discriminate. subst job. vm_compute. reflexivity.
  - intros other Hne. unfold Submission.get_status. now rewrite Hother.
Qed.

(** X25: under the same conditions, when the enqueue raises,
    [ingest_url] answers 500 and leaves the new job in the ledger marked
    failed: [get_status] reports status failed with the exception's
    message as error message and no completion time. *)
Theorem ingest_url_enqueue_failure (new_id : string) (now : Z) (exc : exn)
    (t : list (gmap string Ledger.Value)) (url : string)
    (metadata : option Ledger.json) :
  Ledger.constraints_ok t = true ->
  Ledger.get_job_by_id t new_id = None ->
  exists t',
    Submission.ingest_url true new_id now (Raises exc) t url metadata
    = (t', Submission.HTTPException 500 "Failed to enqueue ingestion task")
    /\ Ledger.constraints_ok t' = true
    /\ Submission.get_status t' new_id
       = Some (Submission.mkStatus new_id "failed" (Ledger.VStr url)
                 (Ledger.VTime now) Ledger.VNone
                 (Ledger.VFloat (Float 0 0)) 0
                 (Ledger.VStr (exn_str exc)))
    /\ forall other, other <> new_id ->
         Submission.get_status t' other = Submission.get_status t other.
Proof.
  intros Hok Hfresh.
  set (md := Some (default (Ledger.JObj []) metadata)).
  assert (Hp : "failed" ∈ Ledger.allowed_statuses)
    by (repeat (apply list_elem_of_here || apply list_elem_of_further)).
  destruct (submitted_ledger new_id now url md "failed" "error_message"
              (Ledger.VStr (exn_str exc)) t (or_intror eq_refl) Hp Hok Hfresh)
    as (Hcreate & Hupd & Hok' & Hget & Hother).
  destruct (submitted_row new_id now url md "failed" "error_message"
              (Ledger.VStr (exn_str exc)) (or_intror eq_refl) Hp)
    as (_ & _ & Hs & Hk & Hrest).
  set (job := Ledger.new_job new_id now url md) in *.
  set (job' := foldl Ledger.set_attr _ _) in *.
  eexists. split; [| split; [exact Hok' | split]].
  - unfold Submission.ingest_url, Submission.enqueue_failed. cbn [negb].
    fold md. rewrite Hcreate. fold job. rewrite Hupd. reflexivity.
  - unfold Submission.get_status. rewrite Hget.
    unfold Submission.status_of, Submission.chunk_count_or_0, Ledger.col.
    rewrite Hs, Hk, !Hrest by discriminate. subst job. vm_compute. reflexivity.
  - intros other Hne. unfold Submission.get_status. now rewrite Hother.
Qed.

Lemma ingest_url_accepted_witness :
  exists t',
    Submission.ingest_url true "job-1" 0 (Returns "task-1") []
      "https://example.com/article" None
    = (t', Submission.Accepted "job-1" "pending" "Job accepted" 30).
Proof.
  destruct (ingest_url_accepted "job-1" 0 "task-1" []
              "https://example.com/article" None) as (t' & H & _).
  - reflexivity.
  - reflexivity.
  - exists t'. exact H.
Defined.

Lemma ingest_url_enqueue_failure_witness :
  exists t',
    Submission.ingest_url true "job-1" 0
      (Raises (Exn "OperationalError" "broker unreachable")) []
      "https://example.com/article" None
    = (t', Submission.HTTPException 500 "Failed to enqueue ingestion task")
    /\ Submission.get_status t' "job-1"
       = Some (Submission.mkStatus "job-1" "failed"
                 (Ledger.VStr "https://example.com/article")
                 (Ledger.VTime 0) Ledger.VNone
                 (Ledger.VFloat (Float 0 0)) 0
                 (Ledger.VStr "broker unreachable")).
Proof.
  destruct (ingest_url_enqueue_failure "job-1" 0
              (Exn "OperationalError" "broker unreachable") []
              "https://example.com/article" None) as (t' & H & _ & G & _).
  - reflexivity.
  - reflexivity.
  - exists t'. split; [exact H | exact G].
Defined.

(** ** Further instances *)

Lemma point_ids_distinct_nonnegative_witness :
  0 <= VectorStore.point_id (fun _ => -7) "job-1" 1.
Proof.
  apply (proj2 (point_ids_distinct_nonnegative (fun _ => -7) ["a"; "b"]
                  [[]; []] None "job-1" "now")).
  apply list_elem_of_further, list_elem_of_here.
Defined.

Lemma add_documents_overwrites_in_place_witness :
  (VectorStore.add_documents (fun _ => 7) (Returns tt) ∅ ["a"] [[]] None
     "job-1" "now").1 !! 5
  = (∅ : gmap Z VectorStore.PointStruct) !! 5.
Proof.
  apply (proj1 (proj2 (add_documents_overwrites_in_place (fun _ => 7) ∅
                         ["a"] [[]] None "job-1" "now" "later")) 5).
  intros Hin. apply list_elem_of_singleton in Hin. discriminate Hin.
Defined.

Lemma validate_job_status_matches_constraint_witness :
  Validators.validate_job_status "failed" = true.
Proof.
  apply (proj2 (validate_job_status_matches_constraint "failed" ∅)).
  reflexivity.
Defined.

Lemma sanitize_text_normal_form_witness :
  Sanitize.sanitize_text None = "".
Proof.
  apply (proj1 (proj2 (proj2 (proj2 (sanitize_text_normal_form None))))).
  left. reflexivity.
Defined.
